(** * SparkFun u-blox LARA-R6 Arduino library: the AT session engine

    A shallow embedding of the command dispatcher, the terminator matcher,
    the response backlog with its pruner, and the URC demultiplexer of
    [SparkFun_u-blox_LARA-R6_Arduino_Library.cpp], with the properties of
    the engine stated and settled against it.

    Conventions of the embedding.
    - A C [char] is an [ascii]; a [const char *] argument is the list of the
      characters before its terminating NUL; a [char] array is the list of
      the bytes written so far, every byte past the end of the list being
      the NUL left there by [memset].  A list longer than [_RXBuffSize]
      therefore is an array written past its end.
    - [int] values are [Z]; [unsigned long] and [unsigned int] are [Z]
      reduced modulo [2^32] where the source computes with them.
    - The serial port is attached ([_hardSerial] is not null). *)

From Stdlib Require Import ZArith List Bool Ascii String Lia.
Import ListNotations.
Local Open Scope Z_scope.
Local Open Scope bool_scope.


(** ** Characters and C strings *)

Definition NUL : ascii := "000"%char.
Definition LF : ascii := "010"%char.
Definition CR : ascii := "013"%char.
Definition DQUOTE : ascii := "034"%char.

Definition chars (s : string) : list ascii := list_ascii_of_string s.

(** [strlen] of a string value. *)
Definition strlen (s : list ascii) : Z := Z.of_nat (List.length s).

(** [s[i]]: past the last character sits the terminating NUL. *)
Definition char_at (s : list ascii) (i : Z) : ascii := nth (Z.to_nat i) s NUL.

(** The string held in a [char] array: the bytes before the first NUL. *)
Fixpoint c_str (buf : list ascii) : list ascii :=
  match buf with
  | [] => []
  | c :: buf' => if Ascii.eqb c NUL then [] else c :: c_str buf'
  end.

(** [strstr(haystack, needle)]: the tail of [haystack] from the first
    occurrence of [needle] on, [None] for a null result. *)
Fixpoint starts_with (needle s : list ascii) : bool :=
  match needle, s with
  | [], _ => true
  | _ :: _, [] => false
  | n :: needle', c :: s' => Ascii.eqb n c && starts_with needle' s'
  end.

Fixpoint strstr (haystack needle : list ascii) : option (list ascii) :=
  if starts_with needle haystack then Some haystack
  else match haystack with
       | [] => None
       | _ :: haystack' => strstr haystack' needle
       end.

Definition is_some {A} (o : option A) : bool :=
  match o with Some _ => true | None => false end.

(** ** Constants of the header *)

Definition _RXBuffSize : Z := 2056.
Definition _rxWindowMillis : Z := 2.
Definition LARA_R6_NUM_SOCKETS : Z := 6.
Definition LARA_R6_NUM_HTTP_PROFILES : Z := 4.
Definition LARA_R6_TCP : Z := 6.
Definition LARA_R6_UDP : Z := 17.
Definition LARA_R6_MQTT_COMMAND_SUBSCRIBE : Z := 4.

Definition LARA_R6_COMMAND_AT : list ascii := chars "AT".

Definition LARA_R6_READ_SOCKET_URC : list ascii := chars "+UUSORD:".
Definition LARA_R6_READ_UDP_SOCKET_URC : list ascii := chars "+UUSORF:".
Definition LARA_R6_LISTEN_SOCKET_URC : list ascii := chars "+UUSOLI:".
Definition LARA_R6_CLOSE_SOCKET_URC : list ascii := chars "+UUSOCL:".
Definition LARA_R6_GNSS_REQUEST_LOCATION_URC : list ascii := chars "+UULOC:".
Definition LARA_R6_SIM_STATE_URC : list ascii := chars "+UUSIMSTAT:".
Definition LARA_R6_HTTP_COMMAND_URC : list ascii := chars "+UUHTTPCR:".
Definition LARA_R6_MQTT_COMMAND_URC : list ascii := chars "+UUMQTTC:".
Definition LARA_R6_PING_COMMAND_URC : list ascii := chars "+UUPING:".
Definition LARA_R6_REGISTRATION_STATUS_URC : list ascii := chars "+CREG:".
Definition LARA_R6_EPSREGISTRATION_STATUS_URC : list ascii := chars "+CEREG:".
Definition LARA_R6_FTP_COMMAND_URC : list ascii := chars "+UUFTPCR:".

Definition LARA_R6_RESPONSE_MORE : list ascii := LF :: chars ">".
Definition LARA_R6_RESPONSE_OK : list ascii := LF :: chars "OK" ++ [CR; LF].
Definition LARA_R6_RESPONSE_ERROR : list ascii := LF :: chars "ERROR" ++ [CR; LF].

Inductive LARA_R6_error_t : Set :=
| LARA_R6_ERROR_INVALID
| LARA_R6_ERROR_SUCCESS
| LARA_R6_ERROR_OUT_OF_MEMORY
| LARA_R6_ERROR_TIMEOUT
| LARA_R6_ERROR_UNEXPECTED_PARAM
| LARA_R6_ERROR_UNEXPECTED_RESPONSE
| LARA_R6_ERROR_NO_RESPONSE
| LARA_R6_ERROR_DEREGISTERED
| LARA_R6_ERROR_ZERO_READ_LENGTH
| LARA_R6_ERROR_ERROR.

(** Arithmetic of [unsigned long] and [unsigned int]. *)
Definition wrap32 (x : Z) : Z := x mod 2 ^ 32.

(** ** The terminator matcher

    The locals [responseIndex], [errorIndex], [found] and [error] of
    [waitForResponse] and [sendCommandWithResponse]. *)

Record Scan : Set := mkScan {
  responseIndex : Z;
  errorIndex : Z;
  found : bool;
  error : bool
}.

Definition scan_init : Scan := mkScan 0 0 false false.

(** The two [if]/[else] blocks on the expected response, as written in both
    functions. *)
Definition scan_response (expectedResponse : list ascii) (responseLen : Z)
    (c : ascii) (m : Scan) : Scan :=
  if (responseIndex m <? responseLen)
     && Ascii.eqb c (char_at expectedResponse (responseIndex m))
  then
    let responseIndex' := responseIndex m + 1 in
    if responseIndex' =? responseLen
    then mkScan responseIndex' (errorIndex m) true (error m)
    else mkScan responseIndex' (errorIndex m) (found m) (error m)
  else
    mkScan (if (responseIndex m <? responseLen)
               && Ascii.eqb c (char_at expectedResponse 0) then 1 else 0)
           (errorIndex m) (found m) (error m).

Definition scan_error (expectedError : list ascii) (errorLen : Z)
    (c : ascii) (m : Scan) : Scan :=
  if (errorIndex m <? errorLen)
     && Ascii.eqb c (char_at expectedError (errorIndex m))
  then
    let errorIndex' := errorIndex m + 1 in
    if errorIndex' =? errorLen
    then mkScan (responseIndex m) errorIndex' true true
    else mkScan (responseIndex m) errorIndex' (found m) (error m)
  else
    mkScan (responseIndex m)
           (if (errorIndex m <? errorLen)
               && Ascii.eqb c (char_at expectedError 0) then 1 else 0)
           (found m) (error m).

(** [waitForResponse], lines 5679-5701: the response first, then the error. *)
Definition waitForResponse_scan (expectedResponse expectedError : list ascii)
    (c : ascii) (m : Scan) : Scan :=
  scan_error expectedError (strlen expectedError) c
    (scan_response expectedResponse (strlen expectedResponse) c m).

(** [sendCommandWithResponse], lines 5803-5825: the error first, then the
    response. *)
Definition sendCommandWithResponse_scan
    (expectedResponse expectedError : list ascii) (c : ascii) (m : Scan) : Scan :=
  scan_response expectedResponse (strlen expectedResponse) c
    (scan_error expectedError (strlen expectedError) c m).

(** The bytes a wait loop reads, fed to its matcher: the loop leaves as soon
    as [found] is set. *)
Fixpoint feed (step : ascii -> Scan -> Scan) (bytes : list ascii) (m : Scan) : Scan :=
  match bytes with
  | [] => m
  | c :: bytes' => if found m then m else feed step bytes' (step c m)
  end.

(** *** The matcher as the specification words it *)

Module MatcherSpec.

(** One pattern: on a byte equal to [pattern[index]] advance the index; on
    a mismatch restart at 1 if the byte equals [pattern[0]], at 0
    otherwise.  The boolean tells whether the index reached the length of
    the pattern. *)
Definition restart (pattern : list ascii) (byte : ascii) : nat :=
  match pattern with
  | p0 :: _ => if Ascii.eqb byte p0 then 1%nat else 0%nat
  | [] => 0%nat
  end.

Definition advance (pattern : list ascii) (index : nat) (byte : ascii)
  : nat * bool :=
  match nth_error pattern index with
  | Some p =>
      if Ascii.eqb byte p
      then (S index, Nat.eqb (S index) (List.length pattern))
      else (restart pattern byte, false)
  | None => (restart pattern byte, false)
  end.

Record state : Set := mk {
  success_index : nat;
  error_index : nat;
  success_matched : bool;
  error_matched : bool
}.

Definition init : state := mk 0 0 false false.

Definition matched (st : state) : bool :=
  success_matched st || error_matched st.

(** Both patterns are scanned over the same byte. *)
Definition step (success errorp : list ascii) (byte : ascii) (st : state) : state :=
  let '(si, sm) := advance success (success_index st) byte in
  let '(ei, em) := advance errorp (error_index st) byte in
  mk si ei sm em.

(** The first pattern to complete ends the scan. *)
Fixpoint scan (success errorp : list ascii) (bytes : list ascii) (st : state)
  : state :=
  match bytes with
  | [] => st
  | b :: bytes' =>
      if matched st then st else scan success errorp bytes' (step success errorp b st)
  end.

End MatcherSpec.

(** How a state of the specification's matcher reads as the locals of the
    source. *)
Definition scan_of_spec (st : MatcherSpec.state) : Scan :=
  mkScan (Z.of_nat (MatcherSpec.success_index st))
         (Z.of_nat (MatcherSpec.error_index st))
         (MatcherSpec.matched st)
         (MatcherSpec.error_matched st).


(** While a scan runs, an index stays inside its pattern. *)
Definition index_ok (pattern : list ascii) (i : nat) : Prop :=
  (i < List.length pattern)%nat \/ i = 0%nat.

(** ** Character arrays *)

(** The first [n] bytes of an array. *)
Definition pad (n : nat) (buf : list ascii) : list ascii :=
  firstn n buf ++ repeat NUL (n - List.length buf).

(** [buf[i] = c]. *)
Definition store (buf : list ascii) (i : Z) (c : ascii) : list ascii :=
  pad (Z.to_nat i) buf ++ c :: skipn (S (Z.to_nat i)) buf.

(** [memcpy(dst + off, src, n)]. *)
Definition memcpy (dst : list ascii) (off : Z) (src : list ascii) (n : Z)
  : list ascii :=
  pad (Z.to_nat off) dst ++ pad (Z.to_nat n) src
  ++ skipn (Z.to_nat off + Z.to_nat n) dst.

(** [strcat(dst, src)]. *)
Definition strcat (dst src : list ascii) : list ascii := c_str dst ++ src.

(** NUL bytes of the wire are stored as ASCII zeros. *)
Definition nul_to_zero (c : ascii) : ascii :=
  if Ascii.eqb c NUL then "0"%char else c.

(** ** [strtok_r] with the delimiters CR and LF

    [strtok_r] is given the saved pointer: the memory from it on, or
    [None] when it is null.  It answers the token and the new saved
    pointer, which is past the delimiter that ended the token, and null
    when the token ran to the end of the string: then the searches that
    follow return null. *)

Definition is_delim (c : ascii) : bool := Ascii.eqb c CR || Ascii.eqb c LF.

Fixpoint skip_delims (s : list ascii) : list ascii :=
  match s with
  | [] => []
  | c :: s' => if is_delim c then skip_delims s' else s
  end.

Fixpoint token_end (s : list ascii) : list ascii * option (list ascii) :=
  match s with
  | [] => ([], None)
  | c :: s' =>
      if Ascii.eqb c NUL then ([], None)
      else if is_delim c then ([], Some s')
      else let '(tok, saved) := token_end s' in (c :: tok, saved)
  end.

Definition strtok_r (saved : option (list ascii))
  : option (list ascii * option (list ascii)) :=
  match saved with
  | None => None
  | Some s =>
      match skip_delims s with
      | [] => None
      | c :: s' => if Ascii.eqb c NUL then None else Some (token_end (c :: s'))
      end
  end.

(** The events of [event = strtok_r(buf, ...); while (event != nullptr)
    { ...; event = strtok_r(nullptr, ...); }] when the body leaves the
    buffer alone. *)
Fixpoint strtok_events (fuel : nat) (saved : option (list ascii))
  : list (list ascii) :=
  match fuel with
  | O => []
  | S fuel' =>
      match strtok_r saved with
      | None => []
      | Some (event, preservedEvent) => event :: strtok_events fuel' preservedEvent
      end
  end.

Definition events_of (buf : list ascii) : list (list ascii) :=
  strtok_events (S (List.length buf)) (Some buf).

(** ** The session *)

(** Which callback pointers are not null. *)
Record Callbacks : Set := mkCallbacks {
  _socketCloseCallback : bool;
  _gpsRequestCallback : bool;
  _simStateReportCallback : bool;
  _httpCommandRequestCallback : bool;
  _mqttCommandRequestCallback : bool;
  _ftpCommandRequestCallback : bool;
  _pingRequestCallback : bool;
  _registrationCallback : bool;
  _epsRegistrationCallback : bool
}.

Record LARA_R6 : Set := mkLARA_R6 {
  _laraResponseBacklog : list ascii;
  _laraResponseBacklogLength : Z;
  _pruneBuffer : list ascii;
  _bufferedPollReentrant : bool;
  _lastSocketProtocol : list Z;
  callbacks : Callbacks
}.

Definition set_backlog (b : list ascii) (len : Z) (s : LARA_R6) : LARA_R6 :=
  mkLARA_R6 b len (_pruneBuffer s) (_bufferedPollReentrant s)
            (_lastSocketProtocol s) (callbacks s).

Definition set_pruneBuffer (p : list ascii) (s : LARA_R6) : LARA_R6 :=
  mkLARA_R6 (_laraResponseBacklog s) (_laraResponseBacklogLength s) p
            (_bufferedPollReentrant s) (_lastSocketProtocol s) (callbacks s).

Definition set_bufferedPollReentrant (r : bool) (s : LARA_R6) : LARA_R6 :=
  mkLARA_R6 (_laraResponseBacklog s) (_laraResponseBacklogLength s)
            (_pruneBuffer s) r (_lastSocketProtocol s) (callbacks s).

(** The session the constructor and [begin] leave. *)
Definition LARA_R6_new : LARA_R6 :=
  mkLARA_R6 [] 0 [] false [0; 0; 0; 0; 0; 0]
            (mkCallbacks false false false false false false false false false).

(** ** The world outside

    [clock] lists the instants, in milliseconds since power-up and not
    reduced, at which the coming calls of [millis()] are served; [uart]
    lists what the coming polls of the serial port see, a byte waiting to be
    read or nothing; [wire] records the bytes read and written, oldest
    first. *)

Inductive IO : Set :=
| Rx (c : ascii)
| Tx (c : ascii).

Record World : Set := mkWorld {
  clock : list Z;
  uart : list (option ascii);
  wire : list IO
}.

(** [hwAvailable() > 0].  A poll that sees nothing is spent; a byte stays
    until it is read. *)
Definition hwAvailable (uart : list (option ascii))
  : bool * list (option ascii) :=
  match uart with
  | Some _ :: _ => (true, uart)
  | None :: uart' => (false, uart')
  | [] => (false, [])
  end.

(** [readChar()]; [Stream::read] answers -1 when nothing waits. *)
Definition readChar (uart : list (option ascii)) : ascii * list (option ascii) :=
  match uart with
  | Some c :: uart' => (c, uart')
  | _ => ("255"%char, uart)
  end.

(** [hwPrint(s)]. *)
Definition hwPrint (s : list ascii) (w : World) : World :=
  mkWorld (clock w) (uart w) (wire w ++ map Tx s).

Fixpoint received (wire : list IO) : list ascii :=
  match wire with
  | [] => []
  | Rx c :: wire' => c :: received wire'
  | Tx _ :: wire' => received wire'
  end.

Fixpoint sent (wire : list IO) : list ascii :=
  match wire with
  | [] => []
  | Tx c :: wire' => c :: sent wire'
  | Rx _ :: wire' => sent wire'
  end.

(** ** Results of a run

    A run stops short when the clock script ends before a loop does, or
    when the source leaves defined behaviour. *)

Inductive Fault : Set :=
| ClockScriptEnded
| NullPointer
| OutOfBounds (index : Z)
| BufferOverrun.

Inductive Res (A : Type) : Type :=
| Ok (a : A)
| Stop (f : Fault).

Arguments Ok {A} a.
Arguments Stop {A} f.

Definition bind {A B} (r : Res A) (k : A -> Res B) : Res B :=
  match r with
  | Ok a => k a
  | Stop f => Stop f
  end.

Notation "x <- r ;; k" := (bind r (fun x => k))
  (at level 61, r at next level, right associativity).
Notation "' p <- r ;; k" := (bind r (fun p => k))
  (at level 61, p pattern, r at next level, right associativity).

(** ** [pruneBacklog] *)

(** The condition of the [if] at lines 6290-6301. *)
Definition actionable (event : list ascii) : bool :=
  is_some (strstr event LARA_R6_READ_SOCKET_URC)
  || is_some (strstr event LARA_R6_READ_UDP_SOCKET_URC)
  || is_some (strstr event LARA_R6_LISTEN_SOCKET_URC)
  || is_some (strstr event LARA_R6_CLOSE_SOCKET_URC)
  || is_some (strstr event LARA_R6_GNSS_REQUEST_LOCATION_URC)
  || is_some (strstr event LARA_R6_SIM_STATE_URC)
  || is_some (strstr event LARA_R6_HTTP_COMMAND_URC)
  || is_some (strstr event LARA_R6_MQTT_COMMAND_URC)
  || is_some (strstr event LARA_R6_PING_COMMAND_URC)
  || is_some (strstr event LARA_R6_REGISTRATION_STATUS_URC)
  || is_some (strstr event LARA_R6_EPSREGISTRATION_STATUS_URC)
  || is_some (strstr event LARA_R6_FTP_COMMAND_URC).

(** The [while] loop at lines 6287-6309, over the events [strtok_r] finds:
    [_pruneBuffer] and [_laraResponseBacklogLength] as they grow. *)
Fixpoint pruneBacklog_loop (events : list (list ascii))
    (pruneBuffer : list ascii) (backlogLength : Z) : list ascii * Z :=
  match events with
  | [] => (pruneBuffer, backlogLength)
  | event :: events' =>
      if actionable event
      then pruneBacklog_loop events'
             (strcat (strcat pruneBuffer event) [CR; LF])
             (backlogLength + (strlen event + 2))
      else pruneBacklog_loop events' pruneBuffer backlogLength
  end.

(** Lines 6262-6327.  The arrays are lists here and carry no bound: on a
    backlog with no NUL in its [_RXBuffSize] bytes, or when the kept
    events outgrow [_pruneBuffer], the source reads or writes past the
    end of an array, and this function tells the bytes it sends there as
    if the array went on.  [pruneBacklog_in_bounds], further down, says
    when a call keeps to the arrays. *)
Definition pruneBacklog (s : LARA_R6) : LARA_R6 :=
  let '(pruneBuffer, backlogLength) :=
    pruneBacklog_loop (events_of (_laraResponseBacklog s)) [] 0 in
  set_backlog (memcpy [] 0 pruneBuffer backlogLength) backlogLength
    (set_pruneBuffer pruneBuffer s).

(** ** [waitForResponse] *)

(** Lines 5708-5714 (and 5832-5838): a byte read is copied to the backlog
    while there is room. *)
Definition mirror (c : ascii) (s : LARA_R6) : LARA_R6 :=
  if _laraResponseBacklogLength s <? _RXBuffSize
  then set_backlog
         (store (_laraResponseBacklog s) (_laraResponseBacklogLength s)
                (nul_to_zero c))
         (_laraResponseBacklogLength s + 1) s
  else s.

(** The [while] loop at lines 5667-5718; [deadline] is [timeIn + timeout]. *)
Fixpoint waitForResponse_loop (expectedResponse expectedError : list ascii)
    (deadline : Z) (clock : list Z) (uart : list (option ascii))
    (wire : list IO) (m : Scan) (s : LARA_R6) : Res (Scan * LARA_R6 * World) :=
  if found m then Ok (m, s, mkWorld clock uart wire)
  else
    match clock with
    | [] => Stop ClockScriptEnded
    | now :: clock' =>
        if deadline >? wrap32 now
        then
          let '(avail, uart1) := hwAvailable uart in
          if avail
          then
            let '(c, uart2) := readChar uart1 in
            waitForResponse_loop expectedResponse expectedError deadline
              clock' uart2 (wire ++ [Rx c])
              (waitForResponse_scan expectedResponse expectedError c m)
              (mirror c s)
          else
            waitForResponse_loop expectedResponse expectedError deadline
              clock' uart1 wire m s
        else Ok (m, s, mkWorld clock' uart wire)
    end.

(** [timeout] is a [uint16_t]. *)
Definition waitForResponse (expectedResponse expectedError : list ascii)
    (timeout : Z) (s : LARA_R6) (w : World)
  : Res (LARA_R6_error_t * LARA_R6 * World) :=
  match clock w with
  | [] => Stop ClockScriptEnded
  | t0 :: clock1 =>
      let timeIn := wrap32 t0 in
      '(m, s1, w1) <-
        waitForResponse_loop expectedResponse expectedError
          (wrap32 (timeIn + timeout mod 2 ^ 16)) clock1 (uart w) (wire w)
          scan_init s ;;
      let s2 := pruneBacklog s1 in
      if found m
      then Ok (if error m then LARA_R6_ERROR_ERROR else LARA_R6_ERROR_SUCCESS,
               s2, w1)
      else Ok (LARA_R6_ERROR_NO_RESPONSE, s2, w1)
  end.

(** ** [sendCommand] *)

(** The [while] loop at lines 5891-5909. *)
Fixpoint sendCommand_drain (timeIn : Z) (clock : list Z)
    (uart : list (option ascii)) (wire : list IO) (s : LARA_R6)
  : Res (LARA_R6 * World) :=
  match clock with
  | [] => Stop ClockScriptEnded
  | now :: clock1 =>
      if (wrap32 (wrap32 now - timeIn) <? _rxWindowMillis)
         && (_laraResponseBacklogLength s <? _RXBuffSize)
      then
        let '(avail, uart1) := hwAvailable uart in
        if avail
        then
          let '(c, uart2) := readChar uart1 in
          let s' :=
            set_backlog
              (store (_laraResponseBacklog s) (_laraResponseBacklogLength s)
                     (nul_to_zero c))
              (_laraResponseBacklogLength s + 1) s in
          match clock1 with
          | [] => Stop ClockScriptEnded
          | now' :: clock2 =>
              sendCommand_drain (wrap32 now') clock2 uart2 (wire ++ [Rx c]) s'
          end
        else sendCommand_drain timeIn clock1 uart1 wire s
      else Ok (s, mkWorld clock1 uart wire)
  end.

(** A null [command] prints nothing and is the empty list here. *)
Definition sendCommand (command : list ascii) (at_ : bool)
    (s : LARA_R6) (w : World) : Res (LARA_R6 * World) :=
  match clock w with
  | [] => Stop ClockScriptEnded
  | t0 :: clock1 =>
      let timeIn := wrap32 t0 in
      let '(avail, uart1) := hwAvailable (uart w) in
      '(s1, w1) <-
        (if avail
         then sendCommand_drain timeIn clock1 uart1 (wire w) s
         else Ok (s, mkWorld clock1 uart1 (wire w))) ;;
      if at_
      then Ok (s1, hwPrint [CR; LF]
                     (hwPrint command (hwPrint LARA_R6_COMMAND_AT w1)))
      else Ok (s1, hwPrint command w1)
  end.

(** ** [sendCommandWithResponse] *)

(** The caller's [responseDest] (null or an array, [dest]) with the locals
    [destIndex] and [charsRead]. *)
Record Capture : Set := mkCapture {
  dest : option (list ascii);
  destIndex : Z;
  charsRead : Z
}.

(** Lines 5785-5802. *)
Definition capture (destSize : Z) (c : ascii) (k : Capture) : Capture :=
  match dest k with
  | Some d =>
      mkCapture
        (Some (if destIndex k <? destSize then store d (destIndex k) c
               else d))
        (destIndex k + 1)
        (wrap32 (charsRead k + 1))
  | None => mkCapture None (destIndex k) (wrap32 (charsRead k + 1))
  end.

(** The [while] loop at lines 5771-5842. *)
Fixpoint sendCommandWithResponse_loop
    (expectedResponse expectedError : list ascii) (deadline destSize : Z)
    (clock : list Z) (uart : list (option ascii)) (wire : list IO)
    (m : Scan) (k : Capture) (s : LARA_R6)
  : Res (Scan * Capture * LARA_R6 * World) :=
  if found m then Ok (m, k, s, mkWorld clock uart wire)
  else
    match clock with
    | [] => Stop ClockScriptEnded
    | now :: clock' =>
        if deadline >? wrap32 now
        then
          let '(avail, uart1) := hwAvailable uart in
          if avail
          then
            let '(c, uart2) := readChar uart1 in
            sendCommandWithResponse_loop expectedResponse expectedError
              deadline destSize clock' uart2 (wire ++ [Rx c])
              (sendCommandWithResponse_scan expectedResponse expectedError c m)
              (capture destSize c k) (mirror c s)
          else
            sendCommandWithResponse_loop expectedResponse expectedError
              deadline destSize clock' uart1 wire m k s
        else Ok (m, k, s, mkWorld clock' uart wire)
    end.

(** Lines 5762-5769.  [expectedResponse] is [None] for
    [LARA_R6_RESPONSE_OK_OR_ERROR], which is the null pointer; for any
    other there is no error pattern, and [errorLen] stays 0. *)
Definition expected (expectedResponse : option (list ascii))
  : list ascii * list ascii :=
  match expectedResponse with
  | None => (LARA_R6_RESPONSE_OK, LARA_R6_RESPONSE_ERROR)
  | Some r => (r, [])
  end.

(** From [unsigned long timeIn = millis();] to the end of the function. *)
Definition sendCommandWithResponse_await
    (expectedResponse : option (list ascii)) (responseDest : option (list ascii))
    (commandTimeout destSize : Z) (s : LARA_R6) (w : World)
  : Res (LARA_R6_error_t * option (list ascii) * LARA_R6 * World) :=
  match clock w with
  | [] => Stop ClockScriptEnded
  | t0 :: clock1 =>
      let timeIn := wrap32 t0 in
      '(m, k, s1, w1) <-
        sendCommandWithResponse_loop (fst (expected expectedResponse))
          (snd (expected expectedResponse))
          (wrap32 (timeIn + wrap32 commandTimeout)) destSize
          clock1 (uart w) (wire w) scan_init
          (mkCapture responseDest 0 0) s ;;
      let s2 := pruneBacklog s1 in
      if found m
      then Ok (if error m then LARA_R6_ERROR_ERROR else LARA_R6_ERROR_SUCCESS,
               dest k, s2, w1)
      else if charsRead k =? 0
      then Ok (LARA_R6_ERROR_NO_RESPONSE, dest k, s2, w1)
      else Ok (LARA_R6_ERROR_UNEXPECTED_RESPONSE, dest k, s2, w1)
  end.

Definition sendCommandWithResponse (command : list ascii)
    (expectedResponse : option (list ascii)) (responseDest : option (list ascii))
    (commandTimeout destSize : Z) (at_ : bool) (s : LARA_R6) (w : World)
  : Res (LARA_R6_error_t * option (list ascii) * LARA_R6 * World) :=
  '(s1, w1) <- sendCommand command at_ s w ;;
  sendCommandWithResponse_await expectedResponse responseDest commandTimeout
    destSize s1 w1.

(** ** [sscanf], for the conversions the URC decoders use *)

Definition isspace (c : ascii) : bool :=
  let n := nat_of_ascii c in
  Nat.eqb n 32 || (Nat.leb 9 n && Nat.leb n 13).

Definition digit_of (c : ascii) : option Z :=
  let n := nat_of_ascii c in
  if Nat.leb 48 n && Nat.leb n 57 then Some (Z.of_nat (n - 48)) else None.

Definition xdigit_of (c : ascii) : option Z :=
  let n := nat_of_ascii c in
  if Nat.leb 48 n && Nat.leb n 57 then Some (Z.of_nat (n - 48))
  else if Nat.leb 65 n && Nat.leb n 70 then Some (Z.of_nat (n - 55))
  else if Nat.leb 97 n && Nat.leb n 102 then Some (Z.of_nat (n - 87))
  else None.

Fixpoint skip_spaces (s : list ascii) : list ascii :=
  match s with
  | [] => []
  | c :: s' => if isspace c then skip_spaces s' else s
  end.

(** The loop that steps [searchPtr] over blanks. *)
Fixpoint skip_blanks (s : list ascii) : list ascii :=
  match s with
  | [] => []
  | c :: s' => if Ascii.eqb c " "%char then skip_blanks s' else s
  end.

(** At most [width] digits: their value, how many, and the rest. *)
Fixpoint digits (base : Z) (digit : ascii -> option Z) (width : nat)
    (s : list ascii) (acc : Z) (n : nat) : Z * nat * list ascii :=
  match width, s with
  | S width', c :: s' =>
      match digit c with
      | Some d => digits base digit width' s' (acc * base + d) (S n)
      | None => (acc, n, s)
      end
  | _, _ => (acc, n, s)
  end.

Fixpoint span (stop : ascii -> bool) (s : list ascii) : list ascii * list ascii :=
  match s with
  | [] => ([], [])
  | c :: s' =>
      if stop c then ([], s)
      else let '(l, r) := span stop s' in (c :: l, r)
  end.

Inductive conv : Set :=
| C_d            (* %d, %ld *)
| C_d_skip       (* %*d *)
| C_u            (* %u, %lu *)
| C_x (width : nat)       (* %4x *)
| C_not (stop : ascii)    (* %[^,] and the like *)
| C_s_skip       (* %*s *)
| C_lit (c : ascii).

Inductive value : Set :=
| V_int (z : Z)
| V_str (s : list ascii).

Inductive scanned : Set :=
| Assigned (v : value) (rest : list ascii)
| Suppressed (rest : list ascii)
| Literal (rest : list ascii)
| InputFailure
| MatchingFailure.

(** An optionally signed run of digits after white space, as [strtol] and
    [strtoul] take it; [0x] may precede the digits of [%x].  The answer
    is the value of the numeral: it is what is stored when the receiving
    C type holds it ([is_int], further down, for [%d]); the C library
    does not define what is stored otherwise. *)
Definition scan_integer (base : Z) (digit : ascii -> option Z)
    (hex_prefix : bool) (width : nat) (s : list ascii)
  : option (option (Z * list ascii)) :=
  match skip_spaces s with
  | [] => None
  | c :: s1 =>
      let '(negative, width1, s2) :=
        if Ascii.eqb c "-"%char then (true, pred width, s1)
        else if Ascii.eqb c "+"%char then (false, pred width, s1)
        else (false, width, c :: s1) in
      let '(width2, s3) :=
        match s2 with
        | c0 :: cx :: ch :: s' =>
            if hex_prefix && Ascii.eqb c0 "0"%char
               && (Ascii.eqb cx "x"%char || Ascii.eqb cx "X"%char)
               && is_some (digit ch) && Nat.leb 3 width1
            then ((width1 - 2)%nat, ch :: s')
            else (width1, s2)
        | _ => (width1, s2)
        end in
      let '(v, n, rest) := digits base digit width2 s3 0 0 in
      if Nat.eqb n 0 then Some None
      else Some (Some (if negative then - v else v, rest))
  end.

Definition scan_one (d : conv) (s : list ascii) : scanned :=
  match d with
  | C_d =>
      match scan_integer 10 digit_of false (List.length s) s with
      | None => InputFailure
      | Some None => MatchingFailure
      | Some (Some (v, rest)) => Assigned (V_int v) rest
      end
  | C_d_skip =>
      match scan_integer 10 digit_of false (List.length s) s with
      | None => InputFailure
      | Some None => MatchingFailure
      | Some (Some (_, rest)) => Suppressed rest
      end
  | C_u =>
      match scan_integer 10 digit_of false (List.length s) s with
      | None => InputFailure
      | Some None => MatchingFailure
      | Some (Some (v, rest)) => Assigned (V_int (wrap32 v)) rest
      end
  | C_x width =>
      match scan_integer 16 xdigit_of true width s with
      | None => InputFailure
      | Some None => MatchingFailure
      | Some (Some (v, rest)) => Assigned (V_int (wrap32 v)) rest
      end
  | C_not stop =>
      match s with
      | [] => InputFailure
      | _ =>
          let '(l, rest) := span (Ascii.eqb stop) s in
          match l with
          | [] => MatchingFailure
          | _ => Assigned (V_str l) rest
          end
      end
  | C_s_skip =>
      match skip_spaces s with
      | [] => InputFailure
      | s1 => Suppressed (snd (span isspace s1))
      end
  | C_lit c =>
      match s with
      | [] => InputFailure
      | c' :: rest => if Ascii.eqb c c' then Literal rest else MatchingFailure
      end
  end.

(** The items assigned, in order; the count [sscanf] returns is their
    number, or [EOF] when the input ends before any conversion. *)
Fixpoint sscanf_from (format : list conv) (s : list ascii) (converted : bool)
    (assigned : list value) : Z * list value :=
  match format with
  | [] => (Z.of_nat (List.length assigned), assigned)
  | d :: format' =>
      match scan_one d s with
      | Assigned v rest => sscanf_from format' rest true (assigned ++ [v])
      | Suppressed rest => sscanf_from format' rest true assigned
      | Literal rest => sscanf_from format' rest converted assigned
      | InputFailure =>
          (if converted then Z.of_nat (List.length assigned) else -1, assigned)
      | MatchingFailure => (Z.of_nat (List.length assigned), assigned)
      end
  end.

Definition sscanf (s : list ascii) (format : list conv) : Z * list value :=
  sscanf_from format s false [].

(** The variable the [i]-th conversion assigns, [init] when it was not
    reached. *)
Definition int_at (i : nat) (init : Z) (vs : list value) : Z :=
  match nth_error vs i with
  | Some (V_int z) => z
  | _ => init
  end.

(** The format [%d,%d]. *)
Definition fmt_d_d : list conv := [C_d; C_lit ","; C_d].

(** The format of +UUSOLI: [%d], a quoted [%d.%d.%d.%d], [%u], [%d], a
    quoted [%d.%d.%d.%d], [%u], with commas between. *)
Definition fmt_ip : list conv :=
  [C_d; C_lit "."; C_d; C_lit "."; C_d; C_lit "."; C_d].

Definition fmt_listen : list conv :=
  [C_d; C_lit ","; C_lit DQUOTE] ++ fmt_ip
  ++ [C_lit DQUOTE; C_lit ","; C_u; C_lit ","; C_d; C_lit ","; C_lit DQUOTE]
  ++ fmt_ip ++ [C_lit DQUOTE; C_lit ","; C_u].

(** The format [%d/%d/%d,%d:%d:%d.%d,%d.%[^,],%d.%[^,],%d,%lu,%u,%u,%*s]. *)
Definition fmt_location : list conv :=
  [C_d; C_lit "/"; C_d; C_lit "/"; C_d; C_lit ",";
   C_d; C_lit ":"; C_d; C_lit ":"; C_d; C_lit "."; C_d; C_lit ",";
   C_d; C_lit "."; C_not ","; C_lit ",";
   C_d; C_lit "."; C_not ","; C_lit ",";
   C_d; C_lit ","; C_u; C_lit ","; C_u; C_lit ","; C_u; C_lit ","; C_s_skip].

(** The format [%d,%d,%d]. *)
Definition fmt_d_d_d : list conv := [C_d; C_lit ","; C_d; C_lit ","; C_d].

(** The format [%*d,%*d,%d,] and a quoted run of characters other than
    the quote. *)
Definition fmt_mqtt_subscribe : list conv :=
  [C_d_skip; C_lit ","; C_d_skip; C_lit ","; C_d; C_lit ",";
   C_lit DQUOTE; C_not DQUOTE; C_lit DQUOTE].

(** The format [%d,%d,]. *)
Definition fmt_ping_head : list conv := [C_d; C_lit ","; C_d; C_lit ","].

(** The format of the tail of +UUPING: a quote, a comma, a quoted
    [%d.%d.%d.%d], then [,%d,%ld]. *)
Definition fmt_ping_tail : list conv :=
  [C_lit DQUOTE; C_lit ","; C_lit DQUOTE] ++ fmt_ip
  ++ [C_lit DQUOTE; C_lit ","; C_d; C_lit ","; C_d].

(** The format of +CREG and +CEREG: [%d], two quoted [%4x], [%d], with
    commas between. *)
Definition fmt_registration : list conv :=
  [C_d; C_lit ","; C_lit DQUOTE; C_x 4; C_lit DQUOTE; C_lit ",";
   C_lit DQUOTE; C_x 4; C_lit DQUOTE; C_lit ","; C_d].

(** ** [processURCEvent]

    What a decoder hands on: the helpers of the library that go and read
    the socket, and the callbacks of the application. *)

Inductive Upcall : Set :=
| parseSocketReadIndication (socket length : Z)
| parseSocketReadIndicationUDP (socket length : Z)
| parseSocketListenIndication (listenSocket : Z) (localIP : list Z)
    (listenPort : Z) (socket : Z) (remoteIP : list Z) (port : Z)
| socketCloseCallback (socket : Z)
| gpsRequestCallback (scanNum : Z) (fields : list value)
| simStateReportCallback (state : Z)
| httpCommandRequestCallback (profile command result : Z)
| mqttCommandRequestCallback (command result : Z)
| ftpCommandRequestCallback (ftpCmd ftpResult : Z)
| pingRequestCallback (retry p_size : Z) (remote_host : list ascii)
    (remoteIP : list Z) (ttl rtt : Z)
| registrationCallback (status lac ci Act : Z)
| epsRegistrationCallback (status tac ci Act : Z).

(** What one block of [processURCEvent] comes to: it falls through to the
    next block, or it returns [true], after the call it made if any. *)
Inductive Decoded : Set :=
| FallThrough
| ReturnTrue (call : option Upcall).

(** [strstr], the step over the URC text, and the skip over blanks. *)
Definition after_urc (event urc : list ascii) : option (list ascii) :=
  match strstr event urc with
  | Some searchPtr => Some (skip_blanks (skipn (List.length urc) searchPtr))
  | None => None
  end.

Definition when (registered : bool) (call : Upcall) : option Upcall :=
  if registered then Some call else None.

Definition uint8 (z : Z) : Z := z mod 256.

(** [_lastSocketProtocol[socket]]: the array has [LARA_R6_NUM_SOCKETS]
    entries. *)
Definition lastSocketProtocol_at (table : list Z) (socket : Z) : Res Z :=
  if (0 <=? socket) && (socket <? LARA_R6_NUM_SOCKETS)
  then Ok (nth (Z.to_nat socket) table 0)
  else Stop (OutOfBounds socket).

(** URC: +UUSORD, lines 319-349. *)
Definition decode_read_socket (s : LARA_R6) (event : list ascii) : Res Decoded :=
  match after_urc event LARA_R6_READ_SOCKET_URC with
  | Some searchPtr =>
      let '(ret, vs) := sscanf searchPtr fmt_d_d in
      if ret =? 2
      then
        let socket := int_at 0 0 vs in
        let length := int_at 1 0 vs in
        protocol <- lastSocketProtocol_at (_lastSocketProtocol s) socket ;;
        if protocol =? LARA_R6_UDP
        then Ok (ReturnTrue (Some (parseSocketReadIndicationUDP socket length)))
        else Ok (ReturnTrue (Some (parseSocketReadIndication socket length)))
      else Ok FallThrough
  | None => Ok FallThrough
  end.

(** URC: +UUSORF, lines 350-366. *)
Definition decode_read_udp_socket (event : list ascii) : Res Decoded :=
  match after_urc event LARA_R6_READ_UDP_SOCKET_URC with
  | Some searchPtr =>
      let '(ret, vs) := sscanf searchPtr fmt_d_d in
      if ret =? 2
      then Ok (ReturnTrue (Some (parseSocketReadIndicationUDP
                                   (int_at 0 0 vs) (int_at 1 0 vs))))
      else Ok FallThrough
  | None => Ok FallThrough
  end.

(** URC: +UUSOLI, lines 367-404. *)
Definition decode_listen_socket (event : list ascii) : Res Decoded :=
  match after_urc event LARA_R6_LISTEN_SOCKET_URC with
  | Some searchPtr =>
      let '(ret, vs) := sscanf searchPtr fmt_listen in
      let socket := int_at 0 0 vs in
      let remoteIP :=
        if ret >=? 5
        then map (fun i => uint8 (int_at i 0 vs)) [1; 2; 3; 4]%nat
        else [0; 0; 0; 0] in
      let port := int_at 5 0 vs in
      let listenSocket := int_at 6 0 vs in
      let localIP :=
        if ret >=? 11
        then map (fun i => uint8 (int_at i 0 vs)) [7; 8; 9; 10]%nat
        else [0; 0; 0; 0] in
      let listenPort := int_at 11 0 vs in
      if ret >=? 5
      then Ok (ReturnTrue (Some (parseSocketListenIndication listenSocket
                                   localIP listenPort socket remoteIP port)))
      else Ok FallThrough
  | None => Ok FallThrough
  end.

(** URC: +UUSOCL, lines 405-427. *)
Definition decode_close_socket (s : LARA_R6) (event : list ascii) : Res Decoded :=
  match after_urc event LARA_R6_CLOSE_SOCKET_URC with
  | Some searchPtr =>
      let '(ret, vs) := sscanf searchPtr [C_d] in
      if ret =? 1
      then
        let socket := int_at 0 0 vs in
        Ok (ReturnTrue
              (when ((0 <=? socket) && (socket <=? 6)
                     && _socketCloseCallback (callbacks s))
                    (socketCloseCallback socket)))
      else Ok FallThrough
  | None => Ok FallThrough
  end.

(** URC: +UULOC, lines 428-504.  The callback is given what the
    conversions read; the arithmetic on [float] is left to it. *)
Definition decode_location (s : LARA_R6) (event : list ascii) : Res Decoded :=
  match after_urc event LARA_R6_GNSS_REQUEST_LOCATION_URC with
  | Some searchPtr =>
      let '(scanNum, vs) := sscanf searchPtr fmt_location in
      if scanNum >=? 13
      then Ok (ReturnTrue (when (_gpsRequestCallback (callbacks s))
                                (gpsRequestCallback scanNum vs)))
      else Ok FallThrough
  | None => Ok FallThrough
  end.

(** URC: +UUSIMSTAT, lines 505-532. *)
Definition decode_sim_state (s : LARA_R6) (event : list ascii) : Res Decoded :=
  match after_urc event LARA_R6_SIM_STATE_URC with
  | Some searchPtr =>
      let '(scanNum, vs) := sscanf searchPtr [C_d] in
      if scanNum =? 1
      then Ok (ReturnTrue (when (_simStateReportCallback (callbacks s))
                                (simStateReportCallback (int_at 0 0 vs))))
      else Ok FallThrough
  | None => Ok FallThrough
  end.

(** URC: +UUHTTPCR, lines 533-560. *)
Definition decode_http_command (s : LARA_R6) (event : list ascii) : Res Decoded :=
  match after_urc event LARA_R6_HTTP_COMMAND_URC with
  | Some searchPtr =>
      let '(scanNum, vs) := sscanf searchPtr fmt_d_d_d in
      if scanNum =? 3
      then
        let profile := int_at 0 0 vs in
        Ok (ReturnTrue
              (when ((0 <=? profile) && (profile <? LARA_R6_NUM_HTTP_PROFILES)
                     && _httpCommandRequestCallback (callbacks s))
                    (httpCommandRequestCallback profile (int_at 1 0 vs)
                                                (int_at 2 0 vs))))
      else Ok FallThrough
  | None => Ok FallThrough
  end.

(** URC: +UUMQTTC, lines 561-598. *)
Definition decode_mqtt_command (s : LARA_R6) (event : list ascii) : Res Decoded :=
  match after_urc event LARA_R6_MQTT_COMMAND_URC with
  | Some searchPtr =>
      let '(scanNum, vs) := sscanf searchPtr fmt_d_d in
      let command := int_at 0 0 vs in
      let result := int_at 1 0 vs in
      let scanNum' :=
        if (scanNum =? 2) && (command =? LARA_R6_MQTT_COMMAND_SUBSCRIBE)
        then fst (sscanf searchPtr fmt_mqtt_subscribe)
        else scanNum in
      if (scanNum' =? 2) || (scanNum' =? 4)
      then Ok (ReturnTrue (when (_mqttCommandRequestCallback (callbacks s))
                                (mqttCommandRequestCallback command result)))
      else Ok FallThrough
  | None => Ok FallThrough
  end.

(** URC: +UUFTPCR, lines 599-619. *)
Definition decode_ftp_command (s : LARA_R6) (event : list ascii) : Res Decoded :=
  match after_urc event LARA_R6_FTP_COMMAND_URC with
  | Some searchPtr =>
      let '(scanNum, vs) := sscanf searchPtr fmt_d_d in
      if (scanNum =? 2) && _ftpCommandRequestCallback (callbacks s)
      then Ok (ReturnTrue (Some (ftpCommandRequestCallback (int_at 0 0 vs)
                                                           (int_at 1 0 vs))))
      else Ok FallThrough
  | None => Ok FallThrough
  end.

(** URC: +UUPING, lines 620-673.  [strchr] for the first quote may answer
    null, and the loop after it dereferences the pointer. *)
Definition decode_ping (s : LARA_R6) (event : list ascii) : Res Decoded :=
  match after_urc event LARA_R6_PING_COMMAND_URC with
  | Some searchPtr =>
      let '(scanNum, vs) := sscanf searchPtr fmt_ping_head in
      if scanNum =? 2
      then
        match snd (span (Ascii.eqb DQUOTE) (tl searchPtr)) with
        | [] => Stop NullPointer
        | _ :: afterQuote =>
            let '(remote_host, atQuote) :=
              span (Ascii.eqb DQUOTE) afterQuote in
            match atQuote with
            | [] => Ok (ReturnTrue None)
            | _ =>
                let '(scanNum2, vs2) := sscanf atQuote fmt_ping_tail in
                Ok (ReturnTrue
                      (when ((scanNum2 =? 6) && _pingRequestCallback (callbacks s))
                            (pingRequestCallback (int_at 0 0 vs) (int_at 1 0 vs)
                               remote_host
                               (map (fun i => uint8 (int_at i 0 vs2))
                                    [0; 1; 2; 3]%nat)
                               (int_at 4 0 vs2) (int_at 5 0 vs2))))
            end
        end
      else Ok FallThrough
  | None => Ok FallThrough
  end.

(** URC: +CREG, lines 674-696, and +CEREG, lines 697-719. *)
Definition decode_registration (s : LARA_R6) (event : list ascii) : Res Decoded :=
  match after_urc event LARA_R6_REGISTRATION_STATUS_URC with
  | Some searchPtr =>
      let '(scanNum, vs) := sscanf searchPtr fmt_registration in
      if scanNum =? 4
      then Ok (ReturnTrue (when (_registrationCallback (callbacks s))
                                (registrationCallback (int_at 0 0 vs)
                                   (int_at 1 0 vs) (int_at 2 0 vs)
                                   (int_at 3 0 vs))))
      else Ok FallThrough
  | None => Ok FallThrough
  end.

Definition decode_eps_registration (s : LARA_R6) (event : list ascii)
  : Res Decoded :=
  match after_urc event LARA_R6_EPSREGISTRATION_STATUS_URC with
  | Some searchPtr =>
      let '(scanNum, vs) := sscanf searchPtr fmt_registration in
      if scanNum =? 4
      then Ok (ReturnTrue (when (_epsRegistrationCallback (callbacks s))
                                (epsRegistrationCallback (int_at 0 0 vs)
                                   (int_at 1 0 vs) (int_at 2 0 vs)
                                   (int_at 3 0 vs))))
      else Ok FallThrough
  | None => Ok FallThrough
  end.

(** The blocks in the order of the source; the first that returns ends the
    function. *)
Fixpoint first_return (blocks : list (list ascii -> Res Decoded))
    (event : list ascii) : Res Decoded :=
  match blocks with
  | [] => Ok FallThrough
  | block :: blocks' =>
      match block event with
      | Ok FallThrough => first_return blocks' event
      | r => r
      end
  end.

Definition decoders (s : LARA_R6) : list (list ascii -> Res Decoded) :=
  [decode_read_socket s; decode_read_udp_socket; decode_listen_socket;
   decode_close_socket s; decode_location s; decode_sim_state s;
   decode_http_command s; decode_mqtt_command s; decode_ftp_command s;
   decode_ping s; decode_registration s; decode_eps_registration s].

Section Demultiplexer.

(** What the helpers and the callbacks do to the session and the world;
    they may send commands of their own. *)
Variable run : Upcall -> LARA_R6 -> World -> Res (LARA_R6 * World).

Definition processURCEvent (event : list ascii) (s : LARA_R6) (w : World)
  : Res (bool * LARA_R6 * World) :=
  d <- first_return (decoders s) event ;;
  match d with
  | FallThrough => Ok (false, s, w)
  | ReturnTrue None => Ok (true, s, w)
  | ReturnTrue (Some call) =>
      '(s', w') <- run call s w ;;
      Ok (true, s', w')
  end.

(** ** [bufferedPoll] *)

(** The [while] loop at lines 236-252, which fills [_laraRXBuffer]. *)
Fixpoint bufferedPoll_read (timeIn : Z) (clock : list Z)
    (uart : list (option ascii)) (wire : list IO)
    (laraRXBuffer : list ascii) (avail : Z) : Res (list ascii * Z * World) :=
  match clock with
  | [] => Stop ClockScriptEnded
  | now :: clock1 =>
      if (wrap32 (wrap32 now - timeIn) <? _rxWindowMillis)
         && (avail <? _RXBuffSize)
      then
        let '(waiting, uart1) := hwAvailable uart in
        if waiting
        then
          let '(c, uart2) := readChar uart1 in
          match clock1 with
          | [] => Stop ClockScriptEnded
          | now' :: clock2 =>
              bufferedPoll_read (wrap32 now') clock2 uart2 (wire ++ [Rx c])
                (store laraRXBuffer avail (nul_to_zero c)) (avail + 1)
          end
        else bufferedPoll_read timeIn clock1 uart1 wire laraRXBuffer avail
      else Ok (laraRXBuffer, avail, mkWorld clock1 uart wire)
  end.

(** The [while] loop at lines 271-308.  [preservedEvent] is the saved
    pointer of [strtok_r]: [_laraRXBuffer] from it up to [avail], or null.
    The backlog a decoder left is copied in at [avail], behind what was
    saved.  The decoders have no hand on [_laraRXBuffer]: they must not
    call [poll]. *)
Fixpoint bufferedPoll_events (fuel : nat) (preservedEvent : option (list ascii))
    (avail : Z) (handled : bool) (s : LARA_R6) (w : World)
  : Res (bool * LARA_R6 * World) :=
  match fuel with
  | O => Stop BufferOverrun
  | S fuel' =>
      match strtok_r preservedEvent with
      | None => Ok (handled, s, w)
      | Some (event, preservedEvent') =>
          '(latestHandled, s1, w1) <- processURCEvent event s w ;;
          let handled' := if latestHandled then true else handled in
          if (_laraResponseBacklogLength s1 >? 0)
             && (avail + _laraResponseBacklogLength s1 <? _RXBuffSize)
          then
            bufferedPoll_events fuel'
              (option_map
                 (fun rest =>
                    rest ++ pad (Z.to_nat (_laraResponseBacklogLength s1))
                                (_laraResponseBacklog s1))
                 preservedEvent')
              (avail + _laraResponseBacklogLength s1) handled'
              (set_backlog [] 0 s1) w1
          else
            bufferedPoll_events fuel' preservedEvent' avail handled' s1 w1
      end
  end.

Definition bufferedPoll (s : LARA_R6) (w : World) : Res (bool * LARA_R6 * World) :=
  if _bufferedPollReentrant s then Ok (false, s, w)
  else
    let s0 := set_bufferedPollReentrant true s in
    match clock w with
    | [] => Stop ClockScriptEnded
    | t0 :: clock1 =>
        let timeIn := wrap32 t0 in
        let backlogLen := _laraResponseBacklogLength s0 in
        let '(laraRXBuffer, avail, s1) :=
          if _laraResponseBacklogLength s0 >? 0
          then (memcpy [] 0 (_laraResponseBacklog s0)
                       (_laraResponseBacklogLength s0),
                _laraResponseBacklogLength s0,
                set_backlog [] 0 s0)
          else ([], 0, s0) in
        let '(waiting, uart1) := hwAvailable (uart w) in
        '(handled, s2, w2) <-
          (if waiting || (backlogLen >? 0)
           then
             '(laraRXBuffer', avail', w1) <-
               bufferedPoll_read timeIn clock1 uart1 (wire w) laraRXBuffer avail ;;
             bufferedPoll_events (S (Z.to_nat _RXBuffSize)) (Some laraRXBuffer')
               avail' false s1 w1
           else Ok (false, s1, mkWorld clock1 uart1 (wire w))) ;;
        Ok (handled, set_bufferedPollReentrant false s2, w2)
    end.

End Demultiplexer.

(** ** Handlers and sessions used in examples *)

(** Helpers and callbacks that leave the session and the world alone. *)
Definition idle_upcalls (call : Upcall) (s : LARA_R6) (w : World)
  : Res (LARA_R6 * World) := Ok (s, w).

(** The session while [bufferedPoll] runs a decoder. *)
Definition LARA_R6_polling : LARA_R6 := set_bufferedPollReentrant true LARA_R6_new.

(** ** Vocabulary of the statements *)

(** The URC texts [pruneBacklog] looks for. *)
Definition notification_prefixes : list (list ascii) :=
  [LARA_R6_READ_SOCKET_URC; LARA_R6_READ_UDP_SOCKET_URC;
   LARA_R6_LISTEN_SOCKET_URC; LARA_R6_CLOSE_SOCKET_URC;
   LARA_R6_GNSS_REQUEST_LOCATION_URC; LARA_R6_SIM_STATE_URC;
   LARA_R6_HTTP_COMMAND_URC; LARA_R6_MQTT_COMMAND_URC;
   LARA_R6_PING_COMMAND_URC; LARA_R6_REGISTRATION_STATUS_URC;
   LARA_R6_EPSREGISTRATION_STATUS_URC; LARA_R6_FTP_COMMAND_URC].

(** [needle] occurs somewhere in [line]. *)
Definition occurs_in (needle line : list ascii) : Prop :=
  exists before after, line = before ++ needle ++ after.

(** A line as [strtok_r] cuts them: not empty, and free of CR, LF and
    NUL. *)
Definition plain_char (c : ascii) : Prop := c <> NUL /\ is_delim c = false.

Definition is_line (line : list ascii) : Prop :=
  line <> [] /\ Forall plain_char line.

(** Lines written one after the other, each ended by CR LF. *)
Definition terminated (lines : list (list ascii)) : list ascii :=
  List.concat (map (fun line => line ++ [CR; LF]) lines).

(** The specification's notification line: a line that begins with one of
    the recognized prefixes. *)
Definition begins_with_notification_prefix (line : list ascii) : bool :=
  existsb (fun urc => starts_with urc line) notification_prefixes.

(** The backlog holds [_laraResponseBacklogLength] bytes. *)
Definition backlog_ok (s : LARA_R6) : Prop :=
  _laraResponseBacklogLength s
  = Z.of_nat (List.length (_laraResponseBacklog s)).

(** A loop that took [timeIn] at the instant [since] and tests its window
    at the instant [now] finds the window over. *)
Definition window_over (since now : Z) : Prop :=
  (wrap32 (wrap32 now - wrap32 since) <? _rxWindowMillis) = false.

(** What [sendCommand] writes. *)
Definition command_line (command : list ascii) (at_ : bool) : list ascii :=
  if at_ then LARA_R6_COMMAND_AT ++ command ++ [CR; LF] else command.

(** A reading of the clock that the wait started at [t0] with [timeout]
    finds before its deadline. *)
Definition before_deadline (t0 timeout t : Z) : Prop :=
  (wrap32 (wrap32 t0 + timeout mod 2 ^ 16) >? wrap32 t) = true.


(** The same for [sendCommandWithResponse], whose timeout is an
    [unsigned long]. *)
Definition before_command_deadline (t0 commandTimeout t : Z) : Prop :=
  (wrap32 (wrap32 t0 + wrap32 commandTimeout) >? wrap32 t) = true.

(** * Further properties of the engine and of the functions around it *)

(** ** Vocabulary of the matcher statements *)

(** The other terminators the library waits for: lines 206, 4152, 4990 and
    5112, and the one-character prompts of lines 2060 and 2545. *)
Definition LARA_R6_RESPONSE_CONNECT : list ascii :=
  [CR; LF] ++ chars "CONNECT" ++ [CR; LF].
Definition mqttReadTerm : list ascii :=
  [DQUOTE; CR; LF; CR; LF] ++ chars "OK" ++ [CR; LF].
Definition fileReadTerm : list ascii := [CR; LF] ++ chars "OK" ++ [CR; LF].
Definition fileReadTerm_block : list ascii :=
  [DQUOTE; CR; LF] ++ chars "OK" ++ [CR; LF].

Definition library_terminators : list (list ascii) :=
  [LARA_R6_RESPONSE_OK; LARA_R6_RESPONSE_ERROR; LARA_R6_RESPONSE_MORE;
   LARA_R6_RESPONSE_CONNECT; mqttReadTerm; fileReadTerm; fileReadTerm_block;
   chars ">"; chars "@"].

(** [pattern] is not empty and [text] ends with it. *)
Definition ends_with (pattern text : list ascii) : bool :=
  match pattern with
  | [] => false
  | _ => starts_with (rev pattern) (rev text)
  end.

Definition same_chars (a b : list ascii) : bool :=
  if list_eq_dec Ascii.ascii_dec a b then true else false.

(** Restarting at 0 or 1 after a mismatch loses nothing: wherever the first
    [i] characters of [pattern] end with its first [j - 1], [2 <= j <= i],
    the characters at [j - 1] and at [i] are the same, so that a byte which
    is not the one expected at [i] is not the one expected at [j - 1]
    either. *)
Definition restart_safe_at (pattern : list ascii) (i j : nat) : bool :=
  negb (same_chars (firstn (j - 1) pattern)
                   (firstn (j - 1) (skipn (i - (j - 1)) pattern)))
  || match nth_error pattern (j - 1), nth_error pattern i with
     | Some a, Some b => Ascii.eqb a b
     | _, _ => true
     end.

Definition restart_safe (pattern : list ascii) : bool :=
  forallb (fun i => forallb (restart_safe_at pattern i) (seq 2 (i - 1)))
          (seq 0 (List.length pattern)).

(** While a scan runs, [index] is the length of the longest prefix of
    [pattern] that ends [text], and the pattern itself does not. *)
Definition tracks (pattern text : list ascii) (index : nat) : Prop :=
  pattern = []
  \/ ((index < List.length pattern)%nat
      /\ (exists before, text = before ++ firstn index pattern)
      /\ forall j, (j <= List.length pattern)%nat ->
           (exists before, text = before ++ firstn j pattern) ->
           (j <= index)%nat).

(** ** Vocabulary of the decoder statements *)



(** A session with every callback set. *)
Definition LARA_R6_listening : LARA_R6 :=
  mkLARA_R6 [] 0 [] false [0; 0; 0; 0; 0; 0]
            (mkCallbacks true true true true true true true true true).

(** ** [at] *)

Definition LARA_R6_STANDARD_RESPONSE_TIMEOUT : Z := 1000.
Definition minimumResponseAllocation : Z := 128.

(** [at()], lines 876-884: a null command, the terminator OK given by
    name, no buffer. *)
Definition LARA_R6_at (s : LARA_R6) (w : World)
  : Res (LARA_R6_error_t * option (list ascii) * LARA_R6 * World) :=
  sendCommandWithResponse [] (Some LARA_R6_RESPONSE_OK) None
    LARA_R6_STANDARD_RESPONSE_TIMEOUT minimumResponseAllocation true s w.

(** [pattern] is not empty and occurs in [text]. *)
Definition arrives (pattern text : list ascii) : Prop :=
  pattern <> [] /\ occurs_in pattern text.

(** ** Vocabulary of the statements on [bufferedPoll] *)

(** The events [bufferedPoll] hands to [processURCEvent] one after the
    other, and the answer it builds of theirs. *)
Fixpoint dispatch
    (run : Upcall -> LARA_R6 -> World -> Res (LARA_R6 * World))
    (events : list (list ascii)) (handled : bool) (s : LARA_R6) (w : World)
  : Res (bool * LARA_R6 * World) :=
  match events with
  | [] => Ok (handled, s, w)
  | event :: events' =>
      '(latestHandled, s1, w1) <- processURCEvent run event s w ;;
      dispatch run events' (latestHandled || handled) s1 w1
  end.

(** The helpers and callbacks put nothing in the backlog. *)
Definition leaves_no_backlog
    (run : Upcall -> LARA_R6 -> World -> Res (LARA_R6 * World)) : Prop :=
  forall call s w s' w',
    run call s w = Ok (s', w') ->
    _laraResponseBacklogLength s <= 0 -> _laraResponseBacklogLength s' <= 0.

(** A burst on the port: each byte is read at a pair of readings of the
    clock, the one that tests the window and the one that restarts it.
    Every test finds the window, restarted at [since], still open. *)
Fixpoint readings (burst : list (Z * Z)) : list Z :=
  match burst with
  | [] => []
  | (test, restart) :: burst' => test :: restart :: readings burst'
  end.

Fixpoint within_window (since : Z) (burst : list (Z * Z)) : Prop :=
  match burst with
  | [] => True
  | (test, restart) :: burst' =>
      (wrap32 (wrap32 test - wrap32 since) <? _rxWindowMillis) = true
      /\ within_window restart burst'
  end.

Definition last_reading (since : Z) (burst : list (Z * Z)) : Z :=
  last (map snd burst) since.

(** ** [poll], the blocking poll *)

(** A call that may never return. *)
Inductive Blocking (A : Type) : Type :=
| Returns (a : A)
| WaitsForEver.

Arguments Returns {A} a.
Arguments WaitsForEver {A}.

(** The bytes among the polls of a script. *)
Fixpoint bytes_of (polls : list (option ascii)) : list ascii :=
  match polls with
  | [] => []
  | Some c :: polls' => c :: bytes_of polls'
  | None :: polls' => bytes_of polls'
  end.

(** The [while (c != LF)] loop at lines 743-752, which calls
    [hwAvailable] and [readChar] and consults no clock.  The script lists
    every poll to come: where it ends with no LF read, nothing arrives any
    more and the loop does not end.  [_laraRXBuffer] has [_RXBuffSize]
    bytes and [avail] is not tested against it. *)
Fixpoint poll_read (uart : list (option ascii)) (wire : list IO)
    (laraRXBuffer : list ascii) (avail : Z)
  : Blocking (Res (list ascii * Z * list (option ascii) * list IO)) :=
  match uart with
  | [] => WaitsForEver
  | None :: uart1 => poll_read uart1 wire laraRXBuffer avail
  | Some c :: uart2 =>
      if avail <? _RXBuffSize
      then
        if Ascii.eqb c LF
        then Returns (Ok (store laraRXBuffer avail c, avail + 1, uart2,
                          wire ++ [Rx c]))
        else poll_read uart2 (wire ++ [Rx c]) (store laraRXBuffer avail c)
               (avail + 1)
      else Returns (Stop (OutOfBounds avail))
  end.

Section BlockingPoll.

Variable run : Upcall -> LARA_R6 -> World -> Res (LARA_R6 * World).

(** [poll()], lines 728-775.  [_pollReentrant] is the guard as the call
    finds it; the call returns with the guard released.  The buffer is
    handed to [processURCEvent] as a string: it must hold a NUL, which the
    [memset] left there unless all of its [_RXBuffSize] bytes were
    written. *)
Definition poll (_pollReentrant : bool) (s : LARA_R6) (w : World)
  : Blocking (Res (bool * LARA_R6 * World)) :=
  if _pollReentrant then Returns (Ok (false, s, w))
  else
    let '(waiting, uart1) := hwAvailable (uart w) in
    if waiting
    then
      match poll_read uart1 (wire w) [] 0 with
      | WaitsForEver => WaitsForEver
      | Returns (Stop f) => Returns (Stop f)
      | Returns (Ok (laraRXBuffer, avail, uart2, wire2)) =>
          if (avail <? _RXBuffSize) || existsb (Ascii.eqb NUL) laraRXBuffer
          then Returns (processURCEvent run (c_str laraRXBuffer) s
                          (mkWorld (clock w) uart2 wire2))
          else Returns (Stop BufferOverrun)
      end
    else Returns (Ok (false, s, mkWorld (clock w) uart1 (wire w))).

End BlockingPoll.

(** ** [readDataUntil] *)

(** [strchr(s, c)]: the memory from the first [c] of the string on; the
    terminating NUL is part of the string. *)
Fixpoint strchr (s : list ascii) (c : ascii) : option (list ascii) :=
  match s with
  | [] => if Ascii.eqb c NUL then Some [] else None
  | x :: s' =>
      if Ascii.eqb x c then Some s
      else if Ascii.eqb x NUL then None
      else strchr s' c
  end.

(** [memset(dst, c, n)]. *)
Definition memset (dst : list ascii) (c : ascii) (n : Z) : list ascii :=
  repeat c (Z.to_nat n) ++ skipn (Z.to_nat n) dst.

(** Lines 6332-6349.  The answer is [strEnd] and the array [destination],
    which has [destSize] bytes; [len] is not tested against it. *)
Definition readDataUntil (destination : list ascii) (destSize : Z)
    (source : list ascii) (delimiter : ascii)
  : Res (option (list ascii) * list ascii) :=
  match strchr source delimiter with
  | Some strEnd =>
      let len := strlen source - strlen strEnd in
      if len <=? destSize
      then Ok (Some strEnd, memcpy (memset destination NUL destSize) 0 source len)
      else Stop BufferOverrun
  | None => Ok (None, destination)
  end.

(** ** [socketOpen] *)

Definition LARA_R6_CREATE_SOCKET : list ascii := chars "+USOCR".

(** [sprintf] of one [%d]. *)
Definition digit_char (d : Z) : ascii := ascii_of_nat (48 + Z.to_nat d).

Fixpoint decimal (fuel : nat) (n : Z) (acc : list ascii) : list ascii :=
  match fuel with
  | O => acc
  | S fuel' =>
      let acc' := digit_char (n mod 10) :: acc in
      if n / 10 =? 0 then acc' else decimal fuel' (n / 10) acc'
  end.

Definition sprintf_d (n : Z) : list ascii :=
  if n <? 0
  then "-"%char :: decimal (S (Z.to_nat (Z.log2 (- n)))) (- n) []
  else decimal (S (Z.to_nat (Z.log2 n))) n [].

(** An [unsigned int] read as the [int] that [%d] expects. *)
Definition to_int (x : Z) : Z :=
  if wrap32 x <? 2 ^ 31 then wrap32 x else wrap32 x - 2 ^ 32.

Definition set_lastSocketProtocol (table : list Z) (s : LARA_R6) : LARA_R6 :=
  mkLARA_R6 (_laraResponseBacklog s) (_laraResponseBacklogLength s)
            (_pruneBuffer s) (_bufferedPollReentrant s) table (callbacks s).

(** [table[i] = v], for [i] inside the table. *)
Definition table_store (table : list Z) (i : Z) (v : Z) : list Z :=
  firstn (Z.to_nat i) table ++ v :: skipn (S (Z.to_nat i)) table.

(** The command [socketOpen] prints into an array of
    [strlen(LARA_R6_CREATE_SOCKET) + 10] bytes. *)
Definition socketOpen_command (protocol localPort : Z) : list ascii :=
  if localPort =? 0
  then LARA_R6_CREATE_SOCKET ++ chars "=" ++ sprintf_d protocol
  else LARA_R6_CREATE_SOCKET ++ chars "=" ++ sprintf_d protocol ++ chars ","
       ++ sprintf_d (to_int localPort).

(** A [char] array of [size] bytes, all written or not, is read as a
    string: it must hold a NUL. *)
Definition holds_a_string (size : Z) (buf : list ascii) : bool :=
  (strlen buf <? size) || existsb (Ascii.eqb NUL) buf.

(** Lines 2395-2461; the allocations are taken to succeed.  [protocol] is
    the parameter as an [int].  [sockId] starts as -1 and is the index of
    the write to [_lastSocketProtocol], whatever [sscanf] made of it. *)
Definition socketOpen (protocol localPort : Z) (s : LARA_R6) (w : World)
  : Res (Z * LARA_R6 * World) :=
  let command := socketOpen_command protocol localPort in
  if strlen command <? strlen LARA_R6_CREATE_SOCKET + 10
  then
    '(err, response, s1, w1) <-
      sendCommandWithResponse command None (Some [])
        LARA_R6_STANDARD_RESPONSE_TIMEOUT minimumResponseAllocation true s w ;;
    match err, response with
    | LARA_R6_ERROR_SUCCESS, Some response =>
        if holds_a_string minimumResponseAllocation response
        then
          match after_urc (c_str response) (chars "+USOCR:") with
          | None => Ok (-1, s1, w1)
          | Some responseStart =>
              let sockId := int_at 0 (-1) (snd (sscanf responseStart [C_d])) in
              if (0 <=? sockId) && (sockId <? LARA_R6_NUM_SOCKETS)
              then Ok (sockId,
                       set_lastSocketProtocol
                         (table_store (_lastSocketProtocol s1) sockId protocol)
                         s1,
                       w1)
              else Stop (OutOfBounds sockId)
          end
        else Stop BufferOverrun
    | LARA_R6_ERROR_SUCCESS, None => Stop NullPointer
    | _, _ => Ok (-1, s1, w1)
    end
  else Stop BufferOverrun.

(** ** Events as the modem prints them *)

(** [+UUSORD: <socket>,<length>] and [+UUSOCL: <socket>]. *)
Definition read_socket_event (socket length : Z) : list ascii :=
  LARA_R6_READ_SOCKET_URC ++ chars " " ++ sprintf_d socket ++ chars ","
  ++ sprintf_d length.

Definition close_socket_event (socket : Z) : list ascii :=
  LARA_R6_CLOSE_SOCKET_URC ++ chars " " ++ sprintf_d socket.

(** The text goes on with something that is not a digit. *)
Definition no_digit_ahead (tail : list ascii) : Prop :=
  match tail with
  | [] => True
  | c :: _ => digit_of c = None
  end.

(** The digits of a decimal numeral, read from the left. *)
Definition numeral_value (digits : list ascii) (acc : Z) : Z :=
  fold_left (fun a c => match digit_of c with
                        | Some d => a * 10 + d
                        | None => a
                        end) digits acc.

(** [+UUPING: <retry>,<p_size>] and what follows. *)
Definition ping_event (retry p_size : Z) : list ascii :=
  LARA_R6_PING_COMMAND_URC ++ chars " " ++ sprintf_d retry ++ chars ","
  ++ sprintf_d p_size.

(** What follows the numbers of an event: no digit at once, and no other
    URC text, which would begin with a plus sign. *)
Definition ends_the_event (tail : list ascii) : Prop :=
  no_digit_ahead tail /\ ~ In "+"%char tail.
(** ** Where [pruneBacklog] keeps to its arrays

    [_laraResponseBacklog] and [_pruneBuffer] have [_RXBuffSize] bytes
    each.  [strtok_r] reads the backlog as a string, so a NUL must follow
    the bytes written to it: there is one when fewer than [_RXBuffSize]
    were.  [strcat] appends the kept events and then a NUL to
    [_pruneBuffer]: what the loop writes must be shorter than
    [_RXBuffSize] too.  Outside of these bounds the source reads or writes
    past the end of an array, and [pruneBacklog] above only tells which
    bytes it sends there. *)
Definition pruneBacklog_in_bounds (s : LARA_R6) : Prop :=
  strlen (_laraResponseBacklog s) < _RXBuffSize
  /\ strlen (fst (pruneBacklog_loop (events_of (_laraResponseBacklog s)) [] 0))
     < _RXBuffSize.

(** ** The range of [int]

    [sscanf] stores what [%d] converts in an [int]; [scan_integer] keeps
    the value of the numeral, which is the value stored when it lies in
    the range of [int]. *)
Definition is_int (z : Z) : Prop := - 2 ^ 31 <= z < 2 ^ 31.

(** ** Applications used in examples *)




(** ** Vocabulary of the statements on the drain of [sendCommand] *)

(** A test of the window, restarted at [since], that finds it open. *)
Definition window_open (since now : Z) : Prop :=
  (wrap32 (wrap32 now - wrap32 since) <? _rxWindowMillis) = true.
(** ** The matcher of the source against the matcher of the specification *)

Section MatcherRefinement.

Variable pattern : list ascii.


Lemma char_at_nth_error (i : nat) (p : ascii) :
  nth_error pattern i = Some p -> char_at pattern (Z.of_nat i) = p.
Proof.
  unfold char_at. rewrite Nat2Z.id. intros H.
  now apply nth_error_nth.
Qed.

Lemma advance_index_ok (i : nat) (c : ascii) :
  index_ok pattern i ->
  snd (MatcherSpec.advance pattern i c) = false ->
  index_ok pattern (fst (MatcherSpec.advance pattern i c)).
Proof.
  unfold index_ok, MatcherSpec.advance, MatcherSpec.restart.
  intros Hi. destruct (nth_error pattern i) as [p|] eqn:Hn.
  - assert (Hlt : (i < List.length pattern)%nat)
      by (apply nth_error_Some; congruence).
    destruct (Ascii.eqb c p) eqn:Hc; cbn [fst snd].
    + intros Hm. apply Nat.eqb_neq in Hm. left. lia.
    + intros _. destruct pattern as [|p0 rest] eqn:Hp; [now right|].
      destruct (Ascii.eqb c p0) eqn:Hc0; [|now right].
      left. destruct i as [|i'].
      * cbn in Hn. injection Hn as <-. congruence.
      * cbn [List.length] in *. lia.
  - intros _. apply nth_error_None in Hn. cbn [fst].
    destruct Hi as [Hi|Hi]; [lia|]. subst i.
    destruct pattern; [now right|cbn in Hn; lia].
Qed.

(** What one block of the source does to its index and to the flag it may
    raise, against [advance]. *)
Lemma block_advance (i : nat) (c : ascii) :
  index_ok pattern i ->
  let hit := (Z.of_nat i <? strlen pattern)
             && Ascii.eqb c (char_at pattern (Z.of_nat i)) in
  let restart := if (Z.of_nat i <? strlen pattern)
                    && Ascii.eqb c (char_at pattern 0) then 1 else 0 in
  MatcherSpec.advance pattern i c
  = if hit
    then (S i, Z.of_nat i + 1 =? strlen pattern)
    else (Z.to_nat restart, false).
Proof.
  intros Hi. unfold MatcherSpec.advance, strlen. cbv zeta.
  destruct (nth_error pattern i) as [p|] eqn:Hn.
  - assert (Hlt : (i < List.length pattern)%nat)
      by (apply nth_error_Some; congruence).
    assert (Hb : (Z.of_nat i <? Z.of_nat (List.length pattern)) = true)
      by (apply Z.ltb_lt; lia).
    rewrite Hb, (char_at_nth_error _ _ Hn). cbn [andb].
    destruct (Ascii.eqb c p) eqn:Hc.
    + f_equal. destruct (Nat.eqb_spec (S i) (List.length pattern)) as [He|He].
      * symmetry. apply Z.eqb_eq. lia.
      * symmetry. apply Z.eqb_neq. lia.
    + unfold MatcherSpec.restart, char_at. change (Z.to_nat 0) with 0%nat.
      destruct pattern as [|p0 rest]; [destruct i; discriminate|]. cbn [nth].
      destruct (Ascii.eqb c p0); reflexivity.
  - apply nth_error_None in Hn.
    assert (Hb : (Z.of_nat i <? Z.of_nat (List.length pattern)) = false)
      by (apply Z.ltb_ge; lia).
    rewrite Hb. cbn [andb].
    destruct Hi as [Hi|Hi]; [lia|]. subst i.
    destruct pattern; [reflexivity|cbn in Hn; lia].
Qed.

(** The response block of the source computes [advance]. *)
Lemma scan_response_advance (i : nat) (c : ascii) (e : Z) (f er : bool) :
  index_ok pattern i ->
  scan_response pattern (strlen pattern) c (mkScan (Z.of_nat i) e f er)
  = mkScan (Z.of_nat (fst (MatcherSpec.advance pattern i c))) e
           (snd (MatcherSpec.advance pattern i c) || f) er.
Proof.
  intros Hi. rewrite (block_advance _ c Hi). unfold scan_response.
  cbn [responseIndex errorIndex found error].
  destruct ((Z.of_nat i <? strlen pattern)
            && Ascii.eqb c (char_at pattern (Z.of_nat i))).
  - cbn [fst snd]. replace (Z.of_nat (S i)) with (Z.of_nat i + 1) by lia.
    destruct (Z.of_nat i + 1 =? strlen pattern); reflexivity.
  - cbn [fst snd orb].
    destruct ((Z.of_nat i <? strlen pattern) && Ascii.eqb c (char_at pattern 0));
      reflexivity.
Qed.

(** So does the error block, which also raises [error]. *)
Lemma scan_error_advance (i : nat) (c : ascii) (r : Z) (f er : bool) :
  index_ok pattern i ->
  scan_error pattern (strlen pattern) c (mkScan r (Z.of_nat i) f er)
  = mkScan r (Z.of_nat (fst (MatcherSpec.advance pattern i c)))
           (snd (MatcherSpec.advance pattern i c) || f)
           (snd (MatcherSpec.advance pattern i c) || er).
Proof.
  intros Hi. rewrite (block_advance _ c Hi). unfold scan_error.
  cbn [responseIndex errorIndex found error].
  destruct ((Z.of_nat i <? strlen pattern)
            && Ascii.eqb c (char_at pattern (Z.of_nat i))).
  - cbn [fst snd]. replace (Z.of_nat (S i)) with (Z.of_nat i + 1) by lia.
    destruct (Z.of_nat i + 1 =? strlen pattern); reflexivity.
  - cbn [fst snd orb].
    destruct ((Z.of_nat i <? strlen pattern) && Ascii.eqb c (char_at pattern 0));
      reflexivity.
Qed.

End MatcherRefinement.

Section TerminatorMatcher.

Variables expectedResponse expectedError : list ascii.

Lemma waitForResponse_scan_step (st : MatcherSpec.state) (c : ascii) :
  MatcherSpec.matched st = false ->
  index_ok expectedResponse (MatcherSpec.success_index st) ->
  index_ok expectedError (MatcherSpec.error_index st) ->
  waitForResponse_scan expectedResponse expectedError c (scan_of_spec st)
  = scan_of_spec (MatcherSpec.step expectedResponse expectedError c st).
Proof.
  intros Hm Hs He. destruct st as [si ei sm em].
  unfold MatcherSpec.matched in Hm. cbn in Hm, Hs, He.
  apply orb_false_iff in Hm as [-> ->].
  unfold waitForResponse_scan, scan_of_spec, MatcherSpec.step, MatcherSpec.matched.
  cbn [MatcherSpec.success_index MatcherSpec.error_index
       MatcherSpec.success_matched MatcherSpec.error_matched orb].
  rewrite (scan_response_advance _ _ c _ _ _ Hs), (scan_error_advance _ _ c _ _ _ He).
  destruct (MatcherSpec.advance expectedResponse si c) as [si' sm'].
  destruct (MatcherSpec.advance expectedError ei c) as [ei' em'].
  cbn. destruct sm', em'; reflexivity.
Qed.

Lemma sendCommandWithResponse_scan_step (st : MatcherSpec.state) (c : ascii) :
  MatcherSpec.matched st = false ->
  index_ok expectedResponse (MatcherSpec.success_index st) ->
  index_ok expectedError (MatcherSpec.error_index st) ->
  sendCommandWithResponse_scan expectedResponse expectedError c (scan_of_spec st)
  = scan_of_spec (MatcherSpec.step expectedResponse expectedError c st).
Proof.
  intros Hm Hs He. destruct st as [si ei sm em].
  unfold MatcherSpec.matched in Hm. cbn in Hm, Hs, He.
  apply orb_false_iff in Hm as [-> ->].
  unfold sendCommandWithResponse_scan, scan_of_spec, MatcherSpec.step,
    MatcherSpec.matched.
  cbn [MatcherSpec.success_index MatcherSpec.error_index
       MatcherSpec.success_matched MatcherSpec.error_matched orb].
  rewrite (scan_error_advance _ _ c _ _ _ He), (scan_response_advance _ _ c _ _ _ Hs).
  destruct (MatcherSpec.advance expectedResponse si c) as [si' sm'].
  destruct (MatcherSpec.advance expectedError ei c) as [ei' em'].
  cbn. destruct sm', em'; reflexivity.
Qed.

Lemma step_index_ok (st : MatcherSpec.state) (c : ascii) :
  index_ok expectedResponse (MatcherSpec.success_index st) ->
  index_ok expectedError (MatcherSpec.error_index st) ->
  let st' := MatcherSpec.step expectedResponse expectedError c st in
  MatcherSpec.matched st' = false ->
  index_ok expectedResponse (MatcherSpec.success_index st')
  /\ index_ok expectedError (MatcherSpec.error_index st').
Proof.
  intros Hs He. unfold MatcherSpec.step, MatcherSpec.matched.
  pose proof (advance_index_ok _ _ c Hs) as Hs'.
  pose proof (advance_index_ok _ _ c He) as He'.
  destruct (MatcherSpec.advance expectedResponse _ c) as [si' sm'].
  destruct (MatcherSpec.advance expectedError _ c) as [ei' em'].
  cbn in *. intros Hm. apply orb_false_iff in Hm as [-> ->]. auto.
Qed.

(** Any step that agrees with the specification on running states feeds
    like the specification scans. *)
Lemma feed_refines (step : ascii -> Scan -> Scan) :
  (forall st c,
      MatcherSpec.matched st = false ->
      index_ok expectedResponse (MatcherSpec.success_index st) ->
      index_ok expectedError (MatcherSpec.error_index st) ->
      step c (scan_of_spec st)
      = scan_of_spec (MatcherSpec.step expectedResponse expectedError c st)) ->
  forall bytes st,
    (MatcherSpec.matched st = false ->
     index_ok expectedResponse (MatcherSpec.success_index st)
     /\ index_ok expectedError (MatcherSpec.error_index st)) ->
    feed step bytes (scan_of_spec st)
    = scan_of_spec (MatcherSpec.scan expectedResponse expectedError bytes st).
Proof.
  intros Hstep. induction bytes as [|b bytes IH]; intros st Hinv; [reflexivity|].
  cbn [feed MatcherSpec.scan].
  change (found (scan_of_spec st)) with (MatcherSpec.matched st).
  destruct (MatcherSpec.matched st) eqn:Hm; [reflexivity|].
  destruct (Hinv eq_refl) as [Hs He].
  rewrite (Hstep st b Hm Hs He). apply IH.
  intros Hm'. now apply step_index_ok.
Qed.

End TerminatorMatcher.

Lemma waitForResponse_feed (expectedResponse expectedError bytes : list ascii) :
  feed (waitForResponse_scan expectedResponse expectedError) bytes scan_init
  = scan_of_spec
      (MatcherSpec.scan expectedResponse expectedError bytes MatcherSpec.init).
Proof.
  change scan_init with (scan_of_spec MatcherSpec.init).
  apply feed_refines; [|intros; split; right; reflexivity].
  intros. now apply waitForResponse_scan_step.
Qed.

Lemma sendCommandWithResponse_feed
    (expectedResponse expectedError bytes : list ascii) :
  feed (sendCommandWithResponse_scan expectedResponse expectedError) bytes
       scan_init
  = scan_of_spec
      (MatcherSpec.scan expectedResponse expectedError bytes MatcherSpec.init).
Proof.
  change scan_init with (scan_of_spec MatcherSpec.init).
  apply feed_refines; [|intros; split; right; reflexivity].
  intros. now apply sendCommandWithResponse_scan_step.
Qed.

(** C3. The matcher of [waitForResponse] and the matcher of
    [sendCommandWithResponse], fed any bytes for any two patterns, go
    through the indices and reach the verdict of the algorithm the
    specification words: an index per pattern, advanced on a byte equal to
    [pattern[index]], restarted at 1 on a mismatching byte equal to
    [pattern[0]] and at 0 on any other, a match when the index reaches the
    length of the pattern, and the scan over at the first match. *)
Theorem terminator_matcher_is_the_specified_algorithm :
  forall (expectedResponse expectedError bytes : list ascii),
    feed (waitForResponse_scan expectedResponse expectedError) bytes scan_init
    = scan_of_spec
        (MatcherSpec.scan expectedResponse expectedError bytes MatcherSpec.init)
    /\ feed (sendCommandWithResponse_scan expectedResponse expectedError)
            bytes scan_init
       = scan_of_spec
           (MatcherSpec.scan expectedResponse expectedError bytes MatcherSpec.init).
Proof.
  intros R E bytes. split.
  - apply waitForResponse_feed.
  - apply sendCommandWithResponse_feed.
Qed.

(** * The reentrancy guard of [bufferedPoll] *)

(** C6. A call of [bufferedPoll] made while one is running returns
    [false] at once: the backlog, its length, the callbacks and every
    other field of the session are as they were, and nothing was read from
    or written to the world. *)
Theorem bufferedPoll_nested_call_is_inert :
  forall run (s : LARA_R6) (w : World),
    _bufferedPollReentrant s = true ->
    bufferedPoll run s w = Ok (false, s, w).
Proof.
  intros run s w H. unfold bufferedPoll. rewrite H. reflexivity.
Qed.

Lemma bufferedPoll_nested_call_is_inert_witness :
  _bufferedPollReentrant LARA_R6_polling = true
  /\ bufferedPoll idle_upcalls LARA_R6_polling
       (mkWorld [0; 1; 2; 3] [Some "+"%char] [])
     = Ok (false, LARA_R6_polling, mkWorld [0; 1; 2; 3] [Some "+"%char] []).
Proof.
  split; [reflexivity|].
  apply bufferedPoll_nested_call_is_inert. reflexivity.
Defined.

(** * The timeout of [waitForResponse] at the rollover of [millis()] *)

(** C7, at the failing input.  [millis()] is 4294967286 on entry, ten
    milliseconds before it rolls over, and the timeout is 1000.  The sum
    [timeIn + timeout] wraps to 990, which is not above the clock, so the
    loop is left at its first test: with the clock still at its value on
    entry and nothing read, [waitForResponse] returns
    [LARA_R6_ERROR_NO_RESPONSE]. *)
Theorem waitForResponse_gives_up_at_once_near_rollover :
  wrap32 (4294967286 + 1000) = 990
  /\ waitForResponse LARA_R6_RESPONSE_OK LARA_R6_RESPONSE_ERROR 1000
       LARA_R6_new (mkWorld [4294967286; 4294967286; 4294967287] [] [])
     = Ok (LARA_R6_ERROR_NO_RESPONSE, LARA_R6_new,
           mkWorld [4294967287] [] []).
Proof.
  split; reflexivity.
Qed.

(** * The index into [_lastSocketProtocol] *)

(** C10, at the failing input.  The event [+UUSORD: 9,4] parses as two
    integers, and [processURCEvent] reads [_lastSocketProtocol[9]] in an
    array of [LARA_R6_NUM_SOCKETS] = 6 entries, whatever the session and
    the callbacks. *)
Theorem processURCEvent_reads_past_the_socket_table :
  forall run (s : LARA_R6) (w : World),
    sscanf (chars "9,4") fmt_d_d = (2, [V_int 9; V_int 4])
    /\ processURCEvent run (chars "+UUSORD: 9,4") s w = Stop (OutOfBounds 9).
Proof.
  intros run s w. split; reflexivity.
Qed.

(** * The capacity of the backlog *)

(** C4, at the failing input.  On a new session the module sends the
    2055 characters [+CREG:xxx...x] with no line end and then stays
    silent until the timeout.  [waitForResponse] copies them to the
    backlog, 2055 bytes in an array of 2056; [pruneBacklog] keeps the one
    event and writes it back with CR and LF added, 2057 bytes, and sets
    [_laraResponseBacklogLength] to 2057. *)
Theorem pruneBacklog_overruns_the_backlog :
  exists (s' : LARA_R6) (w' : World),
    waitForResponse LARA_R6_RESPONSE_OK LARA_R6_RESPONSE_ERROR 1000
      LARA_R6_new
      (mkWorld (repeat 0 2056 ++ [1000])
               (map Some (chars "+CREG:" ++ repeat "x"%char 2049)) [])
    = Ok (LARA_R6_ERROR_NO_RESPONSE, s', w')
    /\ _laraResponseBacklogLength s' = 2057
    /\ List.length (_laraResponseBacklog s') = 2057%nat
    /\ _laraResponseBacklogLength s' > _RXBuffSize.
Proof.
  eexists. eexists. split; [vm_compute; reflexivity|].
  vm_compute. repeat split.
Qed.

(** * C strings, tokens and lines *)

Lemma c_str_nul_free (l : list ascii) :
  Forall (fun c => c <> NUL) l -> c_str l = l.
Proof.
  induction 1 as [|c l Hc _ IH]; [reflexivity|].
  cbn. destruct (Ascii.eqb_spec c NUL); [contradiction|]. now rewrite IH.
Qed.

Lemma plain_nul_free (l : list ascii) :
  Forall plain_char l -> Forall (fun c => c <> NUL) l.
Proof.
  apply Forall_impl. now intros c [H _].
Qed.

Lemma is_delim_CR : is_delim CR = true.
Proof. reflexivity. Qed.

Lemma is_delim_LF : is_delim LF = true.
Proof. reflexivity. Qed.

Lemma is_delim_not_NUL (c : ascii) : is_delim c = true -> c <> NUL.
Proof. intros H ->. discriminate H. Qed.

Lemma pad_all (l : list ascii) : pad (List.length l) l = l.
Proof.
  unfold pad. rewrite firstn_all, Nat.sub_diag. apply app_nil_r.
Qed.

Lemma memcpy_fresh (src : list ascii) :
  memcpy [] 0 src (Z.of_nat (List.length src)) = src.
Proof.
  unfold memcpy. rewrite Nat2Z.id. change (Z.to_nat 0) with 0%nat.
  cbn [pad firstn Nat.sub repeat app]. rewrite skipn_nil, app_nil_r.
  apply pad_all.
Qed.

(** [token_end] stops at the first delimiter. *)
Lemma token_end_line (line : list ascii) (d : ascii) (rest : list ascii) :
  Forall plain_char line -> is_delim d = true ->
  token_end (line ++ d :: rest) = (line, Some rest).
Proof.
  intros Hl Hd. induction Hl as [|c l [Hc Hcd] _ IH]; cbn.
  - destruct (Ascii.eqb_spec d NUL) as [->|]; [discriminate Hd|].
    now rewrite Hd.
  - destruct (Ascii.eqb_spec c NUL); [contradiction|].
    rewrite Hcd, IH. reflexivity.
Qed.

Lemma strtok_r_line (line : list ascii) (d : ascii) (rest : list ascii) :
  is_line line -> is_delim d = true ->
  strtok_r (Some (line ++ d :: rest)) = Some (line, Some rest).
Proof.
  intros [Hne Hl] Hd. unfold strtok_r.
  destruct line as [|c l]; [contradiction|].
  pose proof (Forall_inv Hl) as [Hc Hcd].
  cbn [app skip_delims]. rewrite Hcd.
  destruct (Ascii.eqb_spec c NUL); [contradiction|].
  change (c :: l ++ d :: rest) with ((c :: l) ++ d :: rest).
  now rewrite token_end_line.
Qed.

Lemma strtok_r_skips_delim (d : ascii) (s : list ascii) :
  is_delim d = true -> strtok_r (Some (d :: s)) = strtok_r (Some s).
Proof.
  intros Hd. unfold strtok_r. cbn [skip_delims]. now rewrite Hd.
Qed.

Lemma strtok_events_skips_delim (fuel : nat) (d : ascii) (s : list ascii) :
  is_delim d = true ->
  strtok_events fuel (Some (d :: s)) = strtok_events fuel (Some s).
Proof.
  intros Hd. destruct fuel; [reflexivity|].
  cbn [strtok_events]. now rewrite strtok_r_skips_delim.
Qed.

(** What [token_end] and [strtok_r] answer is a line, and the saved
    pointer moves on. *)
Lemma token_end_plain (s : list ascii) :
  Forall plain_char (fst (token_end s))
  /\ forall rest, snd (token_end s) = Some rest ->
       (List.length rest < List.length s)%nat.
Proof.
  induction s as [|c s [IH1 IH2]]; cbn; [split; [constructor|discriminate]|].
  destruct (Ascii.eqb_spec c NUL); [split; [constructor|discriminate]|].
  destruct (is_delim c) eqn:Hd.
  { split; [constructor|]. cbn. intros rest H. injection H as <-. lia. }
  destruct (token_end s) as [tok saved]. cbn in *.
  split; [constructor; [split|]; assumption|].
  intros rest H. specialize (IH2 rest H). lia.
Qed.

Lemma skip_delims_length (s : list ascii) :
  (List.length (skip_delims s) <= List.length s)%nat.
Proof.
  induction s as [|c s IH]; cbn; [lia|].
  destruct (is_delim c); cbn; lia.
Qed.

Lemma skip_delims_head (s : list ascii) (c : ascii) (s' : list ascii) :
  skip_delims s = c :: s' -> is_delim c = false.
Proof.
  induction s as [|a s IH]; cbn; [discriminate|].
  destruct (is_delim a) eqn:Ha; [exact IH|].
  intros H. injection H as <- _. exact Ha.
Qed.

Lemma strtok_r_is_line (s event : list ascii) (saved : option (list ascii)) :
  strtok_r (Some s) = Some (event, saved) ->
  is_line event
  /\ forall rest, saved = Some rest -> (List.length rest < List.length s)%nat.
Proof.
  unfold strtok_r. pose proof (skip_delims_length s) as Hlen.
  destruct (skip_delims s) as [|c s'] eqn:Hs; [discriminate|].
  pose proof (skip_delims_head _ _ _ Hs) as Hcd.
  destruct (Ascii.eqb_spec c NUL) as [|Hc]; [discriminate|].
  cbn [token_end].
  destruct (Ascii.eqb_spec c NUL); [contradiction|]. rewrite Hcd.
  pose proof (token_end_plain s') as [Hp Hl].
  destruct (token_end s') as [tok r]. cbn [fst snd] in Hp, Hl.
  intros H. injection H as <- <-. cbn [List.length] in Hlen.
  split.
  - split; [discriminate|]. constructor; [split|]; assumption.
  - intros rest Hr. specialize (Hl rest Hr). lia.
Qed.

Lemma strtok_events_are_lines (fuel : nat) (saved : option (list ascii)) :
  Forall is_line (strtok_events fuel saved).
Proof.
  revert saved. induction fuel as [|fuel IH]; intros saved; cbn [strtok_events];
    [constructor|].
  destruct (strtok_r saved) as [[event rest]|] eqn:H; [|constructor].
  constructor; [|apply IH].
  destruct saved as [s|]; [|discriminate H]. now apply strtok_r_is_line in H.
Qed.


Lemma terminated_cons (line : list ascii) (lines : list (list ascii)) :
  terminated (line :: lines) = line ++ CR :: LF :: terminated lines.
Proof.
  unfold terminated. cbn [map List.concat]. now rewrite <- app_assoc.
Qed.

(** Lines that were ended by CR LF are found again, in order. *)
Lemma strtok_events_terminated (lines : list (list ascii)) :
  Forall is_line lines ->
  forall fuel, (List.length lines < fuel)%nat ->
    strtok_events fuel (Some (terminated lines)) = lines.
Proof.
  induction 1 as [|line lines Hl _ IH]; intros fuel Hf.
  - destruct fuel; [lia|]. reflexivity.
  - destruct fuel as [|fuel]; [cbn in Hf; lia|].
    rewrite terminated_cons. cbn [strtok_events].
    rewrite (strtok_r_line line CR _ Hl is_delim_CR).
    rewrite (strtok_events_skips_delim _ LF _ is_delim_LF).
    f_equal. apply IH. cbn in Hf. lia.
Qed.

Lemma terminated_length (lines : list (list ascii)) :
  (List.length lines <= List.length (terminated lines))%nat.
Proof.
  induction lines as [|l lines IH]; [cbn; lia|].
  rewrite terminated_cons, length_app. cbn [List.length]. lia.
Qed.

Lemma events_of_terminated (lines : list (list ascii)) :
  Forall is_line lines -> events_of (terminated lines) = lines.
Proof.
  intros H. apply strtok_events_terminated; [exact H|].
  pose proof (terminated_length lines). lia.
Qed.

Lemma terminated_nul_free (lines : list (list ascii)) :
  Forall is_line lines -> Forall (fun c => c <> NUL) (terminated lines).
Proof.
  induction 1 as [|l lines [_ Hl] _ IH]; [constructor|].
  rewrite terminated_cons.
  apply Forall_app. split; [now apply plain_nul_free|].
  repeat constructor; try discriminate. exact IH.
Qed.

Lemma terminated_app (l1 l2 : list (list ascii)) :
  terminated (l1 ++ l2) = terminated l1 ++ terminated l2.
Proof.
  unfold terminated. now rewrite map_app, concat_app.
Qed.

(** * [pruneBacklog] *)

Lemma pruneBacklog_loop_lines (events : list (list ascii)) :
  Forall is_line events ->
  forall pruneBuffer backlogLength,
    Forall (fun c => c <> NUL) pruneBuffer ->
    pruneBacklog_loop events pruneBuffer backlogLength
    = (pruneBuffer ++ terminated (filter actionable events),
       backlogLength + strlen (terminated (filter actionable events))).
Proof.
  induction 1 as [|event events [_ Hev] Hevs IH]; intros pb len Hpb.
  - cbn. unfold terminated, strlen. cbn. now rewrite app_nil_r, Z.add_0_r.
  - cbn [pruneBacklog_loop filter].
    destruct (actionable event); [|now apply IH].
    assert (Hpb' : Forall (fun c => c <> NUL) (pb ++ event)).
    { apply Forall_app. split; [exact Hpb|now apply plain_nul_free]. }
    unfold strcat at 1 2. rewrite (c_str_nul_free _ Hpb), (c_str_nul_free _ Hpb').
    rewrite IH.
    + rewrite terminated_cons, <- !app_assoc. cbn [app].
      f_equal. unfold strlen. rewrite !length_app. cbn [List.length]. lia.
    + apply Forall_app. split; [exact Hpb'|].
      repeat constructor; discriminate.
Qed.

(** What [pruneBacklog] leaves, for any content of the backlog. *)
Lemma pruneBacklog_result (s : LARA_R6) :
  let kept := filter actionable (events_of (_laraResponseBacklog s)) in
  pruneBacklog s
  = set_backlog (terminated kept) (strlen (terminated kept))
      (set_pruneBuffer (terminated kept) s).
Proof.
  cbv zeta. unfold pruneBacklog.
  rewrite pruneBacklog_loop_lines;
    [|apply strtok_events_are_lines|constructor].
  cbn [app]. rewrite Z.add_0_l. unfold strlen. now rewrite memcpy_fresh.
Qed.

Lemma filter_actionable_lines (events : list (list ascii)) :
  Forall is_line events -> Forall is_line (filter actionable events).
Proof.
  intros H. apply Forall_forall. intros e He.
  apply filter_In in He as [He _]. revert e He. now apply Forall_forall.
Qed.

Lemma filter_filter (A : Type) (f : A -> bool) (l : list A) :
  filter f (filter f l) = filter f l.
Proof.
  induction l as [|a l IH]; [reflexivity|]. cbn.
  destruct (f a) eqn:Hf; [|exact IH]. cbn. now rewrite Hf, IH.
Qed.

(** [pruneBacklog] keeps to its arrays when the backlog and the lines
    kept of it are both shorter than [_RXBuffSize]. *)
Lemma pruneBacklog_in_bounds_iff (s : LARA_R6) :
  pruneBacklog_in_bounds s
  <-> strlen (_laraResponseBacklog s) < _RXBuffSize
      /\ strlen (terminated
                   (filter actionable (events_of (_laraResponseBacklog s))))
         < _RXBuffSize.
Proof.
  unfold pruneBacklog_in_bounds.
  rewrite pruneBacklog_loop_lines;
    [|apply strtok_events_are_lines|constructor].
  cbn [fst app]. reflexivity.
Qed.

Lemma pruneBacklog_in_bounds_again (s : LARA_R6) :
  pruneBacklog_in_bounds s -> pruneBacklog_in_bounds (pruneBacklog s).
Proof.
  intros H. apply pruneBacklog_in_bounds_iff in H as [_ H].
  apply pruneBacklog_in_bounds_iff.
  rewrite pruneBacklog_result. cbv zeta.
  cbn [_laraResponseBacklog set_backlog set_pruneBuffer].
  rewrite events_of_terminated, filter_filter;
    [auto | apply filter_actionable_lines, strtok_events_are_lines].
Qed.

(** C5.  For every session on which [pruneBacklog] keeps to its arrays
    (the backlog holds fewer than [_RXBuffSize] bytes, and so do the
    lines kept of it with their CR LF), a second [pruneBacklog] keeps to
    them as well and leaves the backlog bytes and the backlog length (and
    every other field) that the first left. *)
Theorem pruneBacklog_idempotent :
  forall s : LARA_R6,
    pruneBacklog_in_bounds s ->
    pruneBacklog_in_bounds (pruneBacklog s)
    /\ pruneBacklog (pruneBacklog s) = pruneBacklog s
    /\ _laraResponseBacklog (pruneBacklog (pruneBacklog s))
       = _laraResponseBacklog (pruneBacklog s)
    /\ _laraResponseBacklogLength (pruneBacklog (pruneBacklog s))
       = _laraResponseBacklogLength (pruneBacklog s).
Proof.
  intros s Hin. split; [apply pruneBacklog_in_bounds_again; exact Hin|].
  assert (H : pruneBacklog (pruneBacklog s) = pruneBacklog s).
  { rewrite (pruneBacklog_result (pruneBacklog s)).
    rewrite (pruneBacklog_result s). cbv zeta.
    cbn [_laraResponseBacklog set_backlog set_pruneBuffer].
    rewrite events_of_terminated, filter_filter; [reflexivity|].
    apply filter_actionable_lines, strtok_events_are_lines. }
  rewrite H. repeat split.
Qed.

Lemma pruneBacklog_idempotent_witness :
  let s := set_backlog
             (chars "AT+CSQ" ++ [CR; CR; LF] ++ chars "+CSQ: 9,1" ++ [CR; LF]
              ++ chars "+UUSOCL: 2" ++ [CR; LF; CR; LF] ++ chars "OK"
              ++ [CR; LF])
             41 LARA_R6_new in
  pruneBacklog_in_bounds s
  /\ _laraResponseBacklog (pruneBacklog s) = chars "+UUSOCL: 2" ++ [CR; LF]
  /\ pruneBacklog (pruneBacklog s) = pruneBacklog s.
Proof.
  intros s.
  assert (Hin : pruneBacklog_in_bounds s) by (split; reflexivity).
  split; [exact Hin|]. split; [reflexivity|].
  exact (proj1 (proj2 (pruneBacklog_idempotent s Hin))).
Defined.

(** * Which lines [pruneBacklog] keeps *)

Lemma starts_with_iff (needle s : list ascii) :
  starts_with needle s = true <-> exists after, s = needle ++ after.
Proof.
  revert s. induction needle as [|n needle IH]; intros s; cbn.
  - split; [intros _; now exists s|reflexivity].
  - destruct s as [|c s].
    + split; [discriminate|intros [after H]; discriminate H].
    + rewrite andb_true_iff, IH. split.
      * intros [Hn [after ->]]. apply Ascii.eqb_eq in Hn as ->. now exists after.
      * intros [after H]. injection H as -> ->.
        split; [apply Ascii.eqb_refl|now exists after].
Qed.

Lemma strstr_occurs_in (haystack needle : list ascii) :
  is_some (strstr haystack needle) = true <-> occurs_in needle haystack.
Proof.
  unfold occurs_in. induction haystack as [|c haystack IH]; cbn.
  - destruct (starts_with needle []) eqn:Hs.
    + apply starts_with_iff in Hs as [after Hs]. split; [|reflexivity].
      intros _. now exists [], after.
    + split; [discriminate|]. intros [before [after H]].
      destruct before; [|discriminate H]. cbn in H.
      assert (Ht : starts_with needle [] = true)
        by (apply starts_with_iff; now exists after).
      congruence.
  - destruct (starts_with needle (c :: haystack)) eqn:Hs.
    + apply starts_with_iff in Hs as [after Hs]. split; [|reflexivity].
      intros _. now exists [], after.
    + rewrite IH. split.
      * intros [before [after ->]]. now exists (c :: before), after.
      * intros [before [after H]]. destruct before as [|b before].
        -- cbn in H.
           assert (Ht : starts_with needle (c :: haystack) = true)
             by (apply starts_with_iff; now exists after).
           congruence.
        -- injection H as _ ->. now exists before, after.
Qed.

Lemma actionable_existsb (event : list ascii) :
  actionable event
  = existsb (fun urc => is_some (strstr event urc)) notification_prefixes.
Proof.
  unfold actionable, notification_prefixes. cbn [existsb].
  now rewrite orb_false_r, !orb_assoc.
Qed.

Lemma actionable_iff (event : list ascii) :
  actionable event = true
  <-> exists urc, In urc notification_prefixes /\ occurs_in urc event.
Proof.
  rewrite actionable_existsb, existsb_exists.
  split; intros [urc [Hin H]]; exists urc; (split; [exact Hin|]);
    now apply strstr_occurs_in.
Qed.

(** C8, amended.  Where [pruneBacklog] keeps to its arrays, it cuts the
    backlog into the lines [strtok_r] finds between CR and LF characters,
    keeps a line if and only if one of the recognized URC texts occurs
    somewhere in it, writes the kept lines back in their order, each
    followed by CR LF, and sets the backlog length to the number of bytes
    written.  Lines that each end in CR LF are the lines [strtok_r]
    finds. *)
Theorem pruneBacklog_keeps_the_lines_holding_a_urc :
  forall (s : LARA_R6) (lines : list (list ascii)),
    pruneBacklog_in_bounds s ->
    Forall is_line lines ->
    let kept := filter actionable (events_of (_laraResponseBacklog s)) in
    Forall is_line (events_of (_laraResponseBacklog s))
    /\ (forall line, In line kept <->
          In line (events_of (_laraResponseBacklog s))
          /\ exists urc, In urc notification_prefixes /\ occurs_in urc line)
    /\ _laraResponseBacklog (pruneBacklog s) = terminated kept
    /\ _laraResponseBacklogLength (pruneBacklog s) = strlen (terminated kept)
    /\ _laraResponseBacklogLength (pruneBacklog s) < _RXBuffSize
    /\ events_of (terminated lines) = lines.
Proof.
  intros s lines Hin Hlines kept. split; [apply strtok_events_are_lines|].
  split.
  { intros line. unfold kept. rewrite filter_In, actionable_iff. reflexivity. }
  apply pruneBacklog_in_bounds_iff in Hin as [_ Hin]. fold kept in Hin.
  rewrite pruneBacklog_result. cbv zeta.
  cbn [_laraResponseBacklog _laraResponseBacklogLength set_backlog].
  fold kept. repeat split; [exact Hin|]. now apply events_of_terminated.
Qed.

Lemma pruneBacklog_keeps_the_lines_holding_a_urc_witness :
  let lines := [chars "+CREG: 1"; chars "OK"; chars "x+UUSOCL: 2"] in
  let s := set_backlog (terminated lines) 29 LARA_R6_new in
  pruneBacklog_in_bounds s
  /\ Forall is_line lines
  /\ _laraResponseBacklog (pruneBacklog s)
     = terminated [chars "+CREG: 1"; chars "x+UUSOCL: 2"]
  /\ _laraResponseBacklogLength (pruneBacklog s) = 23
  /\ events_of (terminated lines) = lines.
Proof.
  cbv zeta.
  assert (H : Forall is_line [chars "+CREG: 1"; chars "OK"; chars "x+UUSOCL: 2"]).
  { repeat constructor; try discriminate. }
  assert (Hin : pruneBacklog_in_bounds
                  (set_backlog
                     (terminated
                        [chars "+CREG: 1"; chars "OK"; chars "x+UUSOCL: 2"])
                     29 LARA_R6_new))
    by (split; reflexivity).
  split; [exact Hin|]. split; [exact H|].
  pose proof (pruneBacklog_keeps_the_lines_holding_a_urc
                (set_backlog
                   (terminated [chars "+CREG: 1"; chars "OK"; chars "x+UUSOCL: 2"])
                   29 LARA_R6_new) _ Hin H) as (_ & _ & Hb & Hl & _ & He).
  split; [exact Hb|]. split; [exact Hl|exact He].
Defined.

(** C8 as stated fails.  The line [X+CREG: 1] does not begin with a
    recognized prefix, and [pruneBacklog] keeps it. *)
Lemma pruneBacklog_keeps_a_line_that_begins_otherwise :
  ~ (In (chars "X+CREG: 1")
        (events_of
           (_laraResponseBacklog
              (pruneBacklog
                 (set_backlog (chars "X+CREG: 1" ++ [CR; LF]) 11 LARA_R6_new))))
     <-> begins_with_notification_prefix (chars "X+CREG: 1") = true).
Proof.
  intros [H _].
  assert (Hin : In (chars "X+CREG: 1")
                  (events_of
                     (_laraResponseBacklog
                        (pruneBacklog
                           (set_backlog (chars "X+CREG: 1" ++ [CR; LF]) 11
                              LARA_R6_new)))))
    by (left; reflexivity).
  specialize (H Hin). discriminate H.
Qed.

(** * The wait loops *)

Lemma feed_cons_running (step : ascii -> Scan -> Scan) (c : ascii)
    (bytes : list ascii) (m : Scan) :
  found m = false -> feed step (c :: bytes) m = feed step bytes (step c m).
Proof.
  intros H. cbn. now rewrite H.
Qed.

(** Once the clock script holds a reading at or past the deadline, the
    loop of [waitForResponse] ends; it has read some bytes, fed each to the
    matcher and copied each to the backlog. *)
Lemma waitForResponse_loop_runs (R E : list ascii) (deadline : Z)
    (pre : list Z) (t : Z) (post : list Z) :
  (deadline >? wrap32 t) = false ->
  forall uart io m s,
  exists m' s' w' bytes,
    waitForResponse_loop R E deadline (pre ++ t :: post) uart io m s
    = Ok (m', s', w')
    /\ wire w' = io ++ map Rx bytes
    /\ m' = feed (waitForResponse_scan R E) bytes m
    /\ s' = fold_left (fun s c => mirror c s) bytes s
    /\ (List.length bytes <= List.length uart)%nat.
Proof.
  intros Ht. induction pre as [|p pre IH]; intros uart io m s.
  - cbn [app waitForResponse_loop]. rewrite Ht.
    exists m, s. destruct (found m);
      eexists; exists []; cbn; rewrite app_nil_r; repeat split; lia.
  - cbn [app waitForResponse_loop].
    destruct (found m) eqn:Hf.
    { exists m, s. eexists. exists []. cbn. rewrite app_nil_r, ?Hf.
      repeat split; lia. }
    destruct (deadline >? wrap32 p).
    2:{ exists m, s. eexists. exists []. cbn. rewrite app_nil_r.
        repeat split; lia. }
    destruct uart as [|[c|] uart]; cbn [hwAvailable readChar].
    + destruct (IH [] io m s) as (m' & s' & w' & bytes & H1 & H2 & H3 & H4 & H5).
      exists m', s', w', bytes. repeat split; assumption.
    + destruct (IH uart (io ++ [Rx c]) (waitForResponse_scan R E c m) (mirror c s))
        as (m' & s' & w' & bytes & H1 & H2 & H3 & H4 & H5).
      exists m', s', w', (c :: bytes). rewrite H1, H2.
      cbn [map fold_left List.length]. rewrite <- app_assoc.
      rewrite feed_cons_running by exact Hf.
      repeat split; try assumption. lia.
    + destruct (IH uart io m s) as (m' & s' & w' & bytes & H1 & H2 & H3 & H4 & H5).
      exists m', s', w', bytes. repeat split; try assumption.
      cbn [List.length]. lia.
Qed.

(** The same for the loop of [sendCommandWithResponse], which also fills
    the caller's buffer and counts the bytes. *)
Lemma sendCommandWithResponse_loop_runs (R E : list ascii)
    (deadline destSize : Z) (pre : list Z) (t : Z) (post : list Z) :
  (deadline >? wrap32 t) = false ->
  forall uart io m k s,
  exists m' k' s' w' bytes,
    sendCommandWithResponse_loop R E deadline destSize (pre ++ t :: post)
      uart io m k s
    = Ok (m', k', s', w')
    /\ wire w' = io ++ map Rx bytes
    /\ m' = feed (sendCommandWithResponse_scan R E) bytes m
    /\ k' = fold_left (fun k c => capture destSize c k) bytes k
    /\ s' = fold_left (fun s c => mirror c s) bytes s
    /\ (List.length bytes <= List.length uart)%nat.
Proof.
  intros Ht. induction pre as [|p pre IH]; intros uart io m k s.
  - cbn [app sendCommandWithResponse_loop]. rewrite Ht.
    exists m, k, s. destruct (found m);
      eexists; exists []; cbn; rewrite app_nil_r; repeat split; lia.
  - cbn [app sendCommandWithResponse_loop].
    destruct (found m) eqn:Hf.
    { exists m, k, s. eexists. exists []. cbn. rewrite app_nil_r, ?Hf.
      repeat split; lia. }
    destruct (deadline >? wrap32 p).
    2:{ exists m, k, s. eexists. exists []. cbn. rewrite app_nil_r.
        repeat split; lia. }
    destruct uart as [|[c|] uart]; cbn [hwAvailable readChar].
    + destruct (IH [] io m k s)
        as (m' & k' & s' & w' & bytes & H1 & H2 & H3 & H4 & H5 & H6).
      exists m', k', s', w', bytes. repeat split; assumption.
    + destruct (IH uart (io ++ [Rx c])
                  (sendCommandWithResponse_scan R E c m)
                  (capture destSize c k) (mirror c s))
        as (m' & k' & s' & w' & bytes & H1 & H2 & H3 & H4 & H5 & H6).
      exists m', k', s', w', (c :: bytes). rewrite H1, H2.
      cbn [map fold_left List.length]. rewrite <- app_assoc.
      rewrite feed_cons_running by exact Hf.
      repeat split; try assumption. lia.
    + destruct (IH uart io m k s)
        as (m' & k' & s' & w' & bytes & H1 & H2 & H3 & H4 & H5 & H6).
      exists m', k', s', w', bytes. repeat split; try assumption.
      cbn [List.length]. lia.
Qed.

Lemma wrap32_idem (x : Z) : wrap32 (wrap32 x) = wrap32 x.
Proof. unfold wrap32. apply Z.mod_mod. lia. Qed.

Lemma wrap32_small (x : Z) : 0 <= x < 2 ^ 32 -> wrap32 x = x.
Proof. intros H. unfold wrap32. now apply Z.mod_small. Qed.

Lemma charsRead_capture (destSize : Z) (c : ascii) (k : Capture) :
  charsRead (capture destSize c k) = wrap32 (charsRead k + 1).
Proof.
  unfold capture. destruct (dest k); reflexivity.
Qed.

Lemma charsRead_counts (destSize : Z) (bytes : list ascii) :
  forall k, wrap32 (charsRead k) = charsRead k ->
    charsRead (fold_left (fun k c => capture destSize c k) bytes k)
    = wrap32 (charsRead k + Z.of_nat (List.length bytes)).
Proof.
  induction bytes as [|c bytes IH]; intros k Hk.
  - cbn. now rewrite Z.add_0_r.
  - cbn [fold_left]. rewrite IH, charsRead_capture.
    + unfold wrap32. rewrite Zplus_mod_idemp_l. f_equal.
      cbn [List.length]. lia.
    + rewrite charsRead_capture. apply wrap32_idem.
Qed.

(** * What the two waits return *)

Lemma verdict_cases (sm em : bool) (r : LARA_R6_error_t) (other : LARA_R6_error_t) :
  other <> LARA_R6_ERROR_SUCCESS -> other <> LARA_R6_ERROR_ERROR ->
  r = (if sm || em
       then if em then LARA_R6_ERROR_ERROR else LARA_R6_ERROR_SUCCESS
       else other) ->
  (r = LARA_R6_ERROR_SUCCESS <-> sm = true /\ em = false)
  /\ (r = LARA_R6_ERROR_ERROR <-> em = true)
  /\ (r = other <-> sm || em = false).
Proof.
  intros H1 H2 ->. destruct sm, em; cbn; repeat split;
    try discriminate; try congruence; intros [? ?]; congruence.
Qed.

Lemma await_verdict_cases (sm em : bool) (bytes : list ascii)
    (r : LARA_R6_error_t) :
  r = (if sm || em
       then if em then LARA_R6_ERROR_ERROR else LARA_R6_ERROR_SUCCESS
       else if Z.of_nat (List.length bytes) =? 0
            then LARA_R6_ERROR_NO_RESPONSE
            else LARA_R6_ERROR_UNEXPECTED_RESPONSE) ->
  (r = LARA_R6_ERROR_SUCCESS <-> sm = true /\ em = false)
  /\ (r = LARA_R6_ERROR_ERROR <-> em = true)
  /\ (r = LARA_R6_ERROR_NO_RESPONSE <-> sm || em = false /\ bytes = [])
  /\ (r = LARA_R6_ERROR_UNEXPECTED_RESPONSE <->
      sm || em = false /\ bytes <> []).
Proof.
  intros ->. destruct sm, em, bytes as [|b bytes]; cbn;
    repeat split; try discriminate; try congruence;
    try (intros [? ?]; congruence); try (intros [? ?]; discriminate).
Qed.

(** C2, amended.  Let the clock script hold a reading at or past the
    deadline of each wait, and let fewer than [2^32] polls of the port be
    scripted.  Then both waits return.  With [bytes] the bytes read and
    the specification's matcher run over them: both return Success exactly
    when the success pattern matched and the error pattern did not, and
    ProtocolError exactly when the error pattern matched;
    [sendCommandWithResponse] returns NoResponse exactly when nothing
    matched and no byte was read, and UnexpectedResponse exactly when
    nothing matched and some byte was read; [waitForResponse] returns
    NoResponse exactly when nothing matched, whether bytes were read or
    not. *)
Theorem wait_results :
  forall (expectedResponse expectedError : list ascii)
         (expectedOrNull responseDest : option (list ascii))
         (timeout commandTimeout destSize : Z) (s : LARA_R6) (w : World)
         (t0 : Z) (pre : list Z) (t : Z) (post : list Z),
    clock w = t0 :: pre ++ t :: post ->
    wrap32 (wrap32 t0 + timeout mod 2 ^ 16) <= wrap32 t ->
    wrap32 (wrap32 t0 + wrap32 commandTimeout) <= wrap32 t ->
    Z.of_nat (List.length (uart w)) < 2 ^ 32 ->
    (exists r s' w' bytes,
        waitForResponse expectedResponse expectedError timeout s w
        = Ok (r, s', w')
        /\ wire w' = wire w ++ map Rx bytes
        /\ let st := MatcherSpec.scan expectedResponse expectedError bytes
                       MatcherSpec.init in
           (r = LARA_R6_ERROR_SUCCESS <->
            MatcherSpec.success_matched st = true
            /\ MatcherSpec.error_matched st = false)
           /\ (r = LARA_R6_ERROR_ERROR <-> MatcherSpec.error_matched st = true)
           /\ (r = LARA_R6_ERROR_NO_RESPONSE <-> MatcherSpec.matched st = false))
    /\ (exists r dest' s' w' bytes,
        sendCommandWithResponse_await expectedOrNull responseDest
          commandTimeout destSize s w
        = Ok (r, dest', s', w')
        /\ wire w' = wire w ++ map Rx bytes
        /\ let st := MatcherSpec.scan (fst (expected expectedOrNull))
                       (snd (expected expectedOrNull)) bytes
                       MatcherSpec.init in
           (r = LARA_R6_ERROR_SUCCESS <->
            MatcherSpec.success_matched st = true
            /\ MatcherSpec.error_matched st = false)
           /\ (r = LARA_R6_ERROR_ERROR <-> MatcherSpec.error_matched st = true)
           /\ (r = LARA_R6_ERROR_NO_RESPONSE <->
               MatcherSpec.matched st = false /\ bytes = [])
           /\ (r = LARA_R6_ERROR_UNEXPECTED_RESPONSE <->
               MatcherSpec.matched st = false /\ bytes <> [])).
Proof.
  intros R E Ropt responseDest timeout commandTimeout destSize s w t0 pre t
         post Hclock Hlate Hlate' Huart.
  assert (Hgt : (wrap32 (wrap32 t0 + timeout mod 2 ^ 16) >? wrap32 t) = false).
  { rewrite Z.gtb_ltb. apply Z.ltb_ge. exact Hlate. }
  assert (Hgt' : (wrap32 (wrap32 t0 + wrap32 commandTimeout) >? wrap32 t)
                 = false).
  { rewrite Z.gtb_ltb. apply Z.ltb_ge. exact Hlate'. }
  split.
  - unfold waitForResponse. rewrite Hclock.
    destruct (waitForResponse_loop_runs R E _ pre t post Hgt (uart w) (wire w)
                scan_init s)
      as (m' & s' & w' & bytes & H1 & H2 & H3 & _ & _).
    rewrite H1. cbn [bind]. rewrite waitForResponse_feed in H3.
    set (st := MatcherSpec.scan R E bytes MatcherSpec.init) in *.
    exists (if found m'
            then if error m' then LARA_R6_ERROR_ERROR else LARA_R6_ERROR_SUCCESS
            else LARA_R6_ERROR_NO_RESPONSE), (pruneBacklog s'), w', bytes.
    split; [destruct (found m'); reflexivity|]. split; [exact H2|].
    subst m'. unfold scan_of_spec, MatcherSpec.matched.
    cbn [found error].
    apply verdict_cases; [discriminate|discriminate|reflexivity].
  - unfold sendCommandWithResponse_await. rewrite Hclock.
    destruct (sendCommandWithResponse_loop_runs (fst (expected Ropt))
                (snd (expected Ropt)) _ destSize pre t post Hgt' (uart w) (wire w)
                scan_init (mkCapture responseDest 0 0) s)
      as (m' & k' & s' & w' & bytes & H1 & H2 & H3 & H4 & _ & H6).
    rewrite H1. cbn [bind]. rewrite sendCommandWithResponse_feed in H3.
    set (st := MatcherSpec.scan (fst (expected Ropt)) (snd (expected Ropt))
                 bytes MatcherSpec.init) in *.
    assert (Hcount : charsRead k' = Z.of_nat (List.length bytes)).
    { subst k'. rewrite charsRead_counts by reflexivity.
      cbn [charsRead]. apply wrap32_small. lia. }
    exists (if found m'
            then if error m' then LARA_R6_ERROR_ERROR else LARA_R6_ERROR_SUCCESS
            else if charsRead k' =? 0 then LARA_R6_ERROR_NO_RESPONSE
                 else LARA_R6_ERROR_UNEXPECTED_RESPONSE),
      (dest k'), (pruneBacklog s'), w', bytes.
    split; [destruct (found m'); [|destruct (charsRead k' =? 0)]; reflexivity|].
    split; [exact H2|].
    subst m'. unfold scan_of_spec, MatcherSpec.matched.
    cbn [found error]. rewrite Hcount.
    apply await_verdict_cases. reflexivity.
Qed.

Lemma wait_results_witness :
  wrap32 (wrap32 0 + 1000 mod 2 ^ 16) <= wrap32 2000
  /\ wrap32 (wrap32 0 + wrap32 1000) <= wrap32 2000
  /\ exists r s' w' bytes,
       sendCommandWithResponse_await None None 1000 0 LARA_R6_new
         (mkWorld [0; 1; 2000] [Some "X"%char] [])
       = Ok (r, None, s', w')
       /\ wire w' = map Rx bytes
       /\ (r = LARA_R6_ERROR_UNEXPECTED_RESPONSE <->
           MatcherSpec.matched
             (MatcherSpec.scan LARA_R6_RESPONSE_OK LARA_R6_RESPONSE_ERROR
                bytes MatcherSpec.init) = false
           /\ bytes <> []).
Proof.
  assert (H1 : wrap32 (wrap32 0 + 1000 mod 2 ^ 16) <= wrap32 2000)
    by (vm_compute; discriminate).
  assert (H2 : wrap32 (wrap32 0 + wrap32 1000) <= wrap32 2000)
    by (vm_compute; discriminate).
  assert (H3 : Z.of_nat (List.length [Some "X"%char]) < 2 ^ 32) by (cbn; lia).
  split; [exact H1|]. split; [exact H2|].
  destruct (wait_results LARA_R6_RESPONSE_OK LARA_R6_RESPONSE_ERROR None None
              1000 1000 0 LARA_R6_new (mkWorld [0; 1; 2000] [Some "X"%char] [])
              0 [1] 2000 [] eq_refl H1 H2 H3)
    as [_ (r & dest' & s' & w' & bytes & Hrun & Hwire & _ & _ & _ & Hun)].
  exists r, s', w', bytes.
  assert (Hd : dest' = None).
  { vm_compute in Hrun. injection Hrun as _ Hd _ _. now symmetry. }
  rewrite Hd in Hrun. split; [exact Hrun|]. split; [exact Hwire|exact Hun].
Defined.

(** C2 as stated fails for [waitForResponse].  One byte is read, neither
    pattern matches before the timeout, and the result is NoResponse, not
    UnexpectedResponse. *)
Lemma waitForResponse_no_response_after_a_byte :
  exists (s' : LARA_R6) (w' : World),
    waitForResponse LARA_R6_RESPONSE_OK LARA_R6_RESPONSE_ERROR 1000
      LARA_R6_new (mkWorld [0; 1; 2; 2000] [Some "X"%char] [])
    = Ok (LARA_R6_ERROR_NO_RESPONSE, s', w')
    /\ received (wire w') = ["X"%char]
    /\ received (wire w') <> []
    /\ LARA_R6_ERROR_NO_RESPONSE <> LARA_R6_ERROR_UNEXPECTED_RESPONSE.
Proof.
  eexists. eexists. split; [vm_compute; reflexivity|].
  cbn. repeat split; discriminate.
Qed.

(** * [sendCommand] *)

Lemma store_at_end (buf : list ascii) (c : ascii) :
  store buf (Z.of_nat (List.length buf)) c = buf ++ [c].
Proof.
  unfold store. rewrite Nat2Z.id, pad_all, skipn_all2 by lia. reflexivity.
Qed.

Lemma set_backlog_same (s : LARA_R6) :
  set_backlog (_laraResponseBacklog s ++ [])
    (_laraResponseBacklogLength s + Z.of_nat 0) s = s.
Proof.
  destruct s. unfold set_backlog. cbn. now rewrite app_nil_r, Z.add_0_r.
Qed.

(** The drain ends at a test of the window that finds it over, at the
    latest at the reading [t1] or, when [t1] was taken on reading a byte,
    at [t2].  The bytes it read are at the end of the backlog. *)
Lemma sendCommand_drain_runs (t1 t2 : Z) (post : list Z) :
  window_over t1 t2 ->
  forall (n : nat) (pre : list Z), (List.length pre <= n)%nat ->
  forall (since : Z) uart io s,
    Forall (fun t => window_over t t1) (since :: pre) ->
    backlog_ok s ->
    exists s' w' drained,
      sendCommand_drain (wrap32 since) (pre ++ t1 :: t2 :: post) uart io s
      = Ok (s', w')
      /\ wire w' = io ++ map Rx drained
      /\ s' = set_backlog
                (_laraResponseBacklog s ++ map nul_to_zero drained)
                (_laraResponseBacklogLength s + Z.of_nat (List.length drained))
                s
      /\ _laraResponseBacklogLength s'
         <= Z.max (_laraResponseBacklogLength s) _RXBuffSize
      /\ (List.length post <= List.length (clock w'))%nat.
Proof.
  intros H12. induction n as [|n IH]; intros pre Hn since uart io s Hlate Hok.
  - destruct pre; [|cbn in Hn; lia]. cbn [app sendCommand_drain].
    pose proof (Forall_inv Hlate) as H1. unfold window_over in H1.
    rewrite H1. cbn [andb].
    exists s, (mkWorld (t2 :: post) uart io), [].
    cbn [map List.length clock wire].
    rewrite app_nil_r, set_backlog_same. repeat split; lia.
  - destruct pre as [|p pre].
    { apply (IH [] (Nat.le_0_l n) since uart io s Hlate Hok). }
    cbn [app sendCommand_drain].
    destruct ((wrap32 (wrap32 p - wrap32 since) <? _rxWindowMillis)
              && (_laraResponseBacklogLength s <? _RXBuffSize)) eqn:Hcond.
    2:{ exists s, (mkWorld (pre ++ t1 :: t2 :: post) uart io), [].
        cbn [map List.length clock wire].
        rewrite app_nil_r, set_backlog_same, length_app. cbn [List.length].
        repeat split; lia. }
    apply andb_true_iff in Hcond as [_ Hroom]. apply Z.ltb_lt in Hroom.
    assert (Hlate' : Forall (fun t => window_over t t1) (since :: pre)).
    { inversion Hlate as [|? ? Hs Hrest]; subst.
      inversion Hrest; subst. now constructor. }
    cbn in Hn. pose proof Hok as HL. unfold backlog_ok in HL.
    destruct uart as [|[c|] uart]; cbn [hwAvailable readChar].
    + apply (IH pre ltac:(lia) since [] io s Hlate' Hok).
    + set (s1 := set_backlog
                   (store (_laraResponseBacklog s) (_laraResponseBacklogLength s)
                          (nul_to_zero c))
                   (_laraResponseBacklogLength s + 1) s).
      assert (Hs1 : s1 = set_backlog (_laraResponseBacklog s ++ [nul_to_zero c])
                           (_laraResponseBacklogLength s + 1) s).
      { unfold s1. rewrite HL at 1. now rewrite store_at_end. }
      assert (Hok1 : backlog_ok s1).
      { rewrite Hs1. unfold backlog_ok. cbn. rewrite length_app, HL.
        cbn [List.length]. lia. }
      destruct pre as [|p' pre].
      * cbn [app sendCommand_drain]. unfold window_over in H12.
        rewrite H12. cbn [andb].
        exists s1, (mkWorld post uart (io ++ [Rx c])), [c].
        cbn [map List.length clock wire].
        rewrite Hs1. cbn [_laraResponseBacklogLength set_backlog].
        repeat split; lia.
      * cbn [app].
        assert (Hlate1 : Forall (fun t => window_over t t1) (p' :: pre)).
        { inversion Hlate'; subst. assumption. }
        destruct (IH pre ltac:(cbn in Hn; lia) p' uart (io ++ [Rx c]) s1
                    Hlate1 Hok1)
          as (s' & w' & drained & Hrun & Hwire & Hs' & Hcap & Hclock).
        exists s', w', (c :: drained). rewrite Hrun, Hwire.
        cbn [map List.length]. rewrite <- app_assoc.
        split; [reflexivity|]. split; [reflexivity|].
        split.
        { rewrite Hs', Hs1. unfold set_backlog. cbn. rewrite <- app_assoc.
          f_equal. lia. }
        split; [|exact Hclock].
        rewrite Hs1 in Hcap. cbn [_laraResponseBacklogLength set_backlog] in Hcap.
        lia.
    + destruct (IH pre ltac:(lia) since uart io s Hlate' Hok)
        as (s' & w' & drained & Hrun & Hrest).
      exists s', w', drained. split; [exact Hrun|exact Hrest].
Qed.

Lemma wire_hwPrint_command (command : list ascii) (at_ : bool) (w : World) :
  wire (if at_
        then hwPrint [CR; LF] (hwPrint command (hwPrint LARA_R6_COMMAND_AT w))
        else hwPrint command w)
  = wire w ++ map Tx (command_line command at_)
  /\ clock (if at_
            then hwPrint [CR; LF] (hwPrint command (hwPrint LARA_R6_COMMAND_AT w))
            else hwPrint command w)
     = clock w.
Proof.
  unfold command_line, hwPrint. destruct at_; cbn [wire clock].
  - now rewrite !map_app, <- !app_assoc.
  - split; reflexivity.
Qed.

(** Let the clock script hold a reading [t1] at which the inactivity
    window is over and a reading [t2] at which it is over again should
    [t1] have been taken on reading a byte.  Then [sendCommand] returns,
    whatever the port holds: what it read, it read before it wrote and
    put at the end of the backlog, which grew to [_RXBuffSize] at most;
    the drain took no clock reading past [t2]. *)
Lemma sendCommand_returns_at_a_late_reading :
  forall (command : list ascii) (at_ : bool) (s : LARA_R6) (w : World)
         (t0 : Z) (pre : list Z) (t1 t2 : Z) (post : list Z),
    clock w = t0 :: pre ++ t1 :: t2 :: post ->
    Forall (fun t => window_over t t1) (t0 :: pre) ->
    window_over t1 t2 ->
    backlog_ok s ->
    exists s' w' drained,
      sendCommand command at_ s w = Ok (s', w')
      /\ wire w'
         = wire w ++ map Rx drained ++ map Tx (command_line command at_)
      /\ s' = set_backlog
                (_laraResponseBacklog s ++ map nul_to_zero drained)
                (_laraResponseBacklogLength s + Z.of_nat (List.length drained))
                s
      /\ _laraResponseBacklogLength s'
         <= Z.max (_laraResponseBacklogLength s) _RXBuffSize
      /\ (List.length post <= List.length (clock w'))%nat.
Proof.
  intros command at_ s w t0 pre t1 t2 post Hclock Hlate H12 Hok.
  unfold sendCommand. rewrite Hclock.
  assert (Hidle : forall u,
    exists s' w' drained,
      (if at_
       then Ok (s, hwPrint [CR; LF]
                     (hwPrint command
                        (hwPrint LARA_R6_COMMAND_AT
                           (mkWorld (pre ++ t1 :: t2 :: post) u (wire w)))))
       else Ok (s, hwPrint command
                     (mkWorld (pre ++ t1 :: t2 :: post) u (wire w))))
      = Ok (s', w')
      /\ wire w'
         = wire w ++ map Rx drained ++ map Tx (command_line command at_)
      /\ s' = set_backlog
                (_laraResponseBacklog s ++ map nul_to_zero drained)
                (_laraResponseBacklogLength s + Z.of_nat (List.length drained))
                s
      /\ _laraResponseBacklogLength s'
         <= Z.max (_laraResponseBacklogLength s) _RXBuffSize
      /\ (List.length post <= List.length (clock w'))%nat).
  { intros u.
    destruct (wire_hwPrint_command command at_
                (mkWorld (pre ++ t1 :: t2 :: post) u (wire w))) as [Hw Hc].
    exists s.
    exists (if at_
            then hwPrint [CR; LF]
                   (hwPrint command
                      (hwPrint LARA_R6_COMMAND_AT
                         (mkWorld (pre ++ t1 :: t2 :: post) u (wire w))))
            else hwPrint command (mkWorld (pre ++ t1 :: t2 :: post) u (wire w))).
    exists []. rewrite Hw, Hc. cbn [map List.length clock wire app].
    rewrite set_backlog_same, length_app. cbn [List.length].
    split; [destruct at_; reflexivity|]. repeat split; lia. }
  destruct (uart w) as [|[c|] u] eqn:Huart; cbn [hwAvailable bind].
  - apply Hidle.
  - destruct (sendCommand_drain_runs t1 t2 post H12 (List.length pre) pre
                (le_n _) t0 (Some c :: u) (wire w) s Hlate Hok)
      as (s' & w1 & drained & Hrun & Hwire & Hs' & Hcap & Hpost).
    rewrite Hrun. cbn [bind].
    destruct (wire_hwPrint_command command at_ w1) as [Hw Hc].
    exists s'.
    exists (if at_
            then hwPrint [CR; LF]
                   (hwPrint command (hwPrint LARA_R6_COMMAND_AT w1))
            else hwPrint command w1).
    exists drained. rewrite Hw, Hc, Hwire, <- app_assoc.
    split; [destruct at_; reflexivity|]. repeat split; assumption.
  - apply Hidle.
Qed.

(** C9 as stated fails when the flag is clear: the command is written
    with no CR LF after it. *)
Lemma sendCommand_without_prefix_writes_no_line_end :
  exists (s' : LARA_R6) (w' : World),
    sendCommand (chars "hello") false LARA_R6_new (mkWorld [0; 5] [] [])
    = Ok (s', w')
    /\ sent (wire w') = chars "hello"
    /\ sent (wire w') <> chars "hello" ++ [CR; LF].
Proof.
  eexists. eexists. split; [vm_compute; reflexivity|].
  cbn. split; [reflexivity|discriminate].
Qed.

(** * A notification that arrives during a transaction *)


Lemma plain_char_not_LF (c : ascii) : plain_char c -> c <> LF.
Proof.
  intros [_ H] ->. discriminate H.
Qed.

(** Bytes that find room go to the end of the backlog. *)
Lemma mirror_all (bytes : list ascii) :
  forall s : LARA_R6,
    backlog_ok s ->
    _laraResponseBacklogLength s + Z.of_nat (List.length bytes) <= _RXBuffSize ->
    fold_left (fun s c => mirror c s) bytes s
    = set_backlog (_laraResponseBacklog s ++ map nul_to_zero bytes)
        (_laraResponseBacklogLength s + Z.of_nat (List.length bytes)) s.
Proof.
  induction bytes as [|c bytes IH]; intros s Hok Hroom.
  - cbn [fold_left map List.length]. symmetry. apply set_backlog_same.
  - cbn [fold_left]. cbn [List.length] in Hroom.
    assert (Hm : mirror c s
                 = set_backlog (_laraResponseBacklog s ++ [nul_to_zero c])
                     (_laraResponseBacklogLength s + 1) s).
    { unfold mirror.
      assert (Hlt : (_laraResponseBacklogLength s <? _RXBuffSize) = true)
        by (apply Z.ltb_lt; lia).
      rewrite Hlt. unfold backlog_ok in Hok. rewrite Hok at 1.
      now rewrite store_at_end. }
    rewrite Hm, IH.
    + unfold set_backlog. cbn. rewrite <- app_assoc. cbn [app List.length].
      f_equal. lia.
    + unfold backlog_ok in *. cbn. rewrite length_app, Hok. cbn. lia.
    + cbn. lia.
Qed.

Lemma nul_to_zero_nul_free (bytes : list ascii) :
  Forall (fun c => c <> NUL) bytes -> map nul_to_zero bytes = bytes.
Proof.
  induction 1 as [|c bytes Hc _ IH]; [reflexivity|]. cbn. rewrite IH.
  unfold nul_to_zero. destruct (Ascii.eqb_spec c NUL); [contradiction|reflexivity].
Qed.

Lemma begins_with_is_actionable (line : list ascii) :
  begins_with_notification_prefix line = true -> actionable line = true.
Proof.
  unfold begins_with_notification_prefix. rewrite actionable_existsb.
  rewrite !existsb_exists. intros [urc [Hin Hs]]. exists urc.
  split; [exact Hin|]. destruct line; cbn; now rewrite Hs.
Qed.

(** With nothing on the port, the read loop of [bufferedPoll] ends at a
    reading that finds the window over and leaves the buffer as it was. *)
Lemma bufferedPoll_read_quiet (since t1 : Z) (more : list Z) (io : list IO)
    (laraRXBuffer : list ascii) (avail : Z) :
  window_over since t1 ->
  forall (pre : list Z) (quiet : list (option ascii)),
    Forall (eq None) quiet ->
    exists clock' quiet',
      bufferedPoll_read (wrap32 since) (pre ++ t1 :: more) quiet io
        laraRXBuffer avail
      = Ok (laraRXBuffer, avail, mkWorld clock' quiet' io)
      /\ Forall (eq None) quiet'.
Proof.
  intros Hover. induction pre as [|p pre IH]; intros quiet Hq.
  - cbn [app bufferedPoll_read]. unfold window_over in Hover.
    rewrite Hover. cbn [andb]. now exists more, quiet.
  - cbn [app bufferedPoll_read].
    destruct ((wrap32 (wrap32 p - wrap32 since) <? _rxWindowMillis)
              && (avail <? _RXBuffSize)).
    2:{ now exists (pre ++ t1 :: more), quiet. }
    destruct quiet as [|[c|] quiet]; cbn [hwAvailable].
    + apply IH. constructor.
    + inversion Hq as [|? ? Hc _]. discriminate Hc.
    + apply IH. now inversion Hq.
Qed.

Lemma bufferedPoll_events_skips_delim run (fuel : nat) (d : ascii)
    (preservedEvent : list ascii) (avail : Z) (handled : bool)
    (s : LARA_R6) (w : World) :
  is_delim d = true ->
  bufferedPoll_events run fuel (Some (d :: preservedEvent)) avail handled s w
  = bufferedPoll_events run fuel (Some preservedEvent) avail handled s w.
Proof.
  intros Hd. destruct fuel; [reflexivity|].
  cbn [bufferedPoll_events]. now rewrite strtok_r_skips_delim.
Qed.



Lemma Forall_firstn_plain (k : nat) (line : list ascii) :
  Forall plain_char line -> Forall plain_char (firstn k line).
Proof.
  intros H. revert k. induction H as [|c line Hc _ IH]; intros k.
  - rewrite firstn_nil. constructor.
  - destruct k; cbn; [constructor|]. constructor; [exact Hc|apply IH].
Qed.

Lemma events_of_line_then_OK (line : list ascii) :
  is_line line ->
  events_of (line ++ [CR; LF] ++ LARA_R6_RESPONSE_OK) = [line; chars "OK"].
Proof.
  intros Hl. unfold events_of.
  change (line ++ [CR; LF] ++ LARA_R6_RESPONSE_OK)
    with (line ++ CR :: LF :: LF :: terminated [chars "OK"]).
  cbn [strtok_events]. rewrite (strtok_r_line line CR _ Hl is_delim_CR).
  rewrite !(strtok_events_skips_delim _ LF _ is_delim_LF).
  rewrite strtok_events_terminated.
  - reflexivity.
  - repeat constructor; discriminate.
  - rewrite length_app. cbn. lia.
Qed.


(** * Side conditions of the failing inputs *)

(** Away from the rollover, [waitForResponse] with a silent port leaves at
    the first reading that is not before the deadline, and that reading is
    at least [timeout] after the reading on entry. *)
Lemma waitForResponse_silent (R E : list ascii) (timeout : Z) (s : LARA_R6)
    (t0 : Z) (pre : list Z) (t : Z) (post : list Z) (io : list IO) :
  Forall (before_deadline t0 timeout) pre ->
  ~ before_deadline t0 timeout t ->
  waitForResponse R E timeout s (mkWorld (t0 :: pre ++ t :: post) [] io)
  = Ok (LARA_R6_ERROR_NO_RESPONSE, pruneBacklog s, mkWorld post [] io)
  /\ (wrap32 t0 + timeout mod 2 ^ 16 < 2 ^ 32 ->
      timeout mod 2 ^ 16 <= wrap32 t - wrap32 t0).
Proof.
  intros Hpre Ht. unfold before_deadline in Ht.
  apply not_true_is_false in Ht. split.
  - unfold waitForResponse. cbn [clock uart wire].
    assert (Hloop : forall m s,
      found m = false ->
      waitForResponse_loop R E (wrap32 (wrap32 t0 + timeout mod 2 ^ 16))
        (pre ++ t :: post) [] io m s
      = Ok (m, s, mkWorld post [] io)).
    { induction Hpre as [|p pre Hp _ IH]; intros m s' Hm.
      - cbn [app waitForResponse_loop]. now rewrite Hm, Ht.
      - cbn [app waitForResponse_loop hwAvailable].
        unfold before_deadline in Hp. rewrite Hm, Hp. now apply IH. }
    rewrite Hloop by reflexivity. reflexivity.
  - intros Hno. rewrite Z.gtb_ltb in Ht. apply Z.ltb_ge in Ht.
    assert (H0 : 0 <= wrap32 t0 < 2 ^ 32) by (apply Z.mod_pos_bound; lia).
    assert (H16 : 0 <= timeout mod 2 ^ 16) by (apply Z.mod_pos_bound; lia).
    rewrite (wrap32_small (wrap32 t0 + timeout mod 2 ^ 16)) in Ht by lia.
    lia.
Qed.

(** The copy of a byte to the backlog never takes the length past
    [_RXBuffSize], and drops the byte when the backlog is full. *)
Lemma mirror_bounded (c : ascii) (s : LARA_R6) :
  _laraResponseBacklogLength (mirror c s)
  <= Z.max (_laraResponseBacklogLength s) _RXBuffSize
  /\ (_RXBuffSize <= _laraResponseBacklogLength s -> mirror c s = s).
Proof.
  unfold mirror.
  destruct (Z.ltb_spec (_laraResponseBacklogLength s) _RXBuffSize) as [H|H].
  - cbn [_laraResponseBacklogLength set_backlog]. split; lia.
  - split; [lia|reflexivity].
Qed.

(** The backlog keeps holding as many bytes as its length says. *)
Lemma backlog_ok_new : backlog_ok LARA_R6_new.
Proof. reflexivity. Qed.

Lemma backlog_ok_mirror (c : ascii) (s : LARA_R6) :
  backlog_ok s -> backlog_ok (mirror c s).
Proof.
  intros Hok. unfold mirror.
  destruct (_laraResponseBacklogLength s <? _RXBuffSize); [|exact Hok].
  unfold backlog_ok in *. cbn [_laraResponseBacklog _laraResponseBacklogLength
                                set_backlog].
  pose proof (store_at_end (_laraResponseBacklog s) (nul_to_zero c)) as Hs.
  rewrite <- Hok in Hs. rewrite Hs, length_app, Hok. cbn. lia.
Qed.

Lemma backlog_ok_pruneBacklog (s : LARA_R6) : backlog_ok (pruneBacklog s).
Proof.
  rewrite pruneBacklog_result. reflexivity.
Qed.

(** * The same notification during [sendCommandWithResponse] *)

Lemma sendCommandWithResponse_loop_found (R E : list ascii)
    (deadline destSize : Z) (clock : list Z) (uart : list (option ascii))
    (io : list IO) (m : Scan) (k : Capture) (s : LARA_R6) :
  found m = true ->
  sendCommandWithResponse_loop R E deadline destSize clock uart io m k s
  = Ok (m, k, s, mkWorld clock uart io).
Proof.
  intros H. destruct clock; cbn [sendCommandWithResponse_loop]; now rewrite H.
Qed.

Lemma sendCommandWithResponse_loop_reads (R E : list ascii)
    (deadline destSize : Z) (rest : list Z) (uart : list (option ascii))
    (bytes : list ascii) :
  forall (ticks : list Z) (io : list IO) (m : Scan) (k : Capture)
         (s : LARA_R6),
    List.length ticks = List.length bytes ->
    Forall (fun t => (deadline >? wrap32 t) = true) ticks ->
    (forall n, (n < List.length bytes)%nat ->
       found (fold_left (fun m c => sendCommandWithResponse_scan R E c m)
                        (firstn n bytes) m) = false) ->
    sendCommandWithResponse_loop R E deadline destSize (ticks ++ rest)
      (map Some bytes ++ uart) io m k s
    = sendCommandWithResponse_loop R E deadline destSize rest uart
        (io ++ map Rx bytes)
        (fold_left (fun m c => sendCommandWithResponse_scan R E c m) bytes m)
        (fold_left (fun k c => capture destSize c k) bytes k)
        (fold_left (fun s c => mirror c s) bytes s).
Proof.
  induction bytes as [|c bytes IH]; intros ticks io m k s Hlen Hticks Hrun.
  - destruct ticks; [|discriminate Hlen]. cbn. now rewrite app_nil_r.
  - destruct ticks as [|t ticks]; [discriminate Hlen|].
    inversion Hticks as [|? ? Ht Hticks']; subst.
    pose proof (Hrun 0%nat ltac:(cbn; lia)) as Hf. cbn in Hf.
    cbn [app map fold_left sendCommandWithResponse_loop hwAvailable readChar].
    rewrite Hf, Ht. rewrite IH.
    + now rewrite <- app_assoc.
    + cbn in Hlen. lia.
    + exact Hticks'.
    + intros n Hn. apply (Hrun (S n)). cbn. lia.
Qed.

Lemma sendCommandWithResponse_scan_stays (c : ascii) :
  c <> LF ->
  sendCommandWithResponse_scan LARA_R6_RESPONSE_OK LARA_R6_RESPONSE_ERROR c
    scan_init
  = scan_init.
Proof.
  intros Hc. apply Ascii.eqb_neq in Hc.
  assert (He : scan_error LARA_R6_RESPONSE_ERROR
                 (strlen LARA_R6_RESPONSE_ERROR) c scan_init = scan_init).
  { unfold scan_error, scan_init. cbn [responseIndex errorIndex found error].
    change (char_at LARA_R6_RESPONSE_ERROR 0) with LF.
    rewrite Hc, !andb_false_r. reflexivity. }
  unfold sendCommandWithResponse_scan. rewrite He.
  unfold scan_response, scan_init. cbn [responseIndex errorIndex found error].
  change (char_at LARA_R6_RESPONSE_OK 0) with LF.
  rewrite Hc, !andb_false_r. reflexivity.
Qed.

Lemma sendCommandWithResponse_scan_line (line : list ascii) :
  Forall plain_char line ->
  fold_left (fun m c => sendCommandWithResponse_scan LARA_R6_RESPONSE_OK
                          LARA_R6_RESPONSE_ERROR c m) line scan_init
  = scan_init.
Proof.
  induction 1 as [|c line Hc _ IH]; [reflexivity|].
  cbn [fold_left]. rewrite sendCommandWithResponse_scan_stays; [exact IH|].
  now apply plain_char_not_LF.
Qed.

Lemma sendCommandWithResponse_scan_line_then_OK (line : list ascii) :
  Forall plain_char line ->
  let step := fun m c => sendCommandWithResponse_scan LARA_R6_RESPONSE_OK
                           LARA_R6_RESPONSE_ERROR c m in
  let bytes := line ++ [CR; LF] ++ LARA_R6_RESPONSE_OK in
  fold_left step bytes scan_init = mkScan 5 1 true false
  /\ forall n, (n < List.length bytes)%nat ->
       found (fold_left step (firstn n bytes) scan_init) = false.
Proof.
  intros Hl step bytes. split.
  - unfold bytes. rewrite fold_left_app.
    unfold step at 2. rewrite sendCommandWithResponse_scan_line by exact Hl.
    reflexivity.
  - intros n Hn. unfold bytes in *. rewrite firstn_app, fold_left_app.
    unfold step at 2. rewrite sendCommandWithResponse_scan_line
      by (apply Forall_firstn_plain; exact Hl).
    rewrite length_app in Hn.
    change (List.length ([CR; LF] ++ LARA_R6_RESPONSE_OK)) with 7%nat in Hn.
    remember (n - List.length line)%nat as j eqn:Hj.
    assert (Hj7 : (j < 7)%nat) by lia. clear Hj Hn.
    do 7 (destruct j as [|j]; [reflexivity|]). lia.
Qed.

(** The wait of [sendCommandWithResponse] for OK or ERROR, when one
    notification line, its CR LF and the OK terminator arrive on an empty
    backlog: it returns Success and leaves the session and the world
    that [waitForResponse] leaves there. *)
Lemma notification_during_sendCommandWithResponse
    (line : list ascii) (s : LARA_R6) (responseDest : option (list ascii))
    (commandTimeout destSize t0 : Z) (ticks rest : list Z)
    (quiet : list (option ascii)) (io : list IO) :
  is_line line ->
  begins_with_notification_prefix line = true ->
  strlen line + 7 < _RXBuffSize ->
  _laraResponseBacklog s = [] ->
  _laraResponseBacklogLength s = 0 ->
  List.length ticks = List.length (line ++ [CR; LF] ++ LARA_R6_RESPONSE_OK) ->
  Forall (before_command_deadline t0 commandTimeout) ticks ->
  exists dest',
    sendCommandWithResponse_await None responseDest commandTimeout destSize s
      (mkWorld (t0 :: ticks ++ rest)
         (map Some (line ++ [CR; LF] ++ LARA_R6_RESPONSE_OK) ++ quiet) io)
    = Ok (LARA_R6_ERROR_SUCCESS, dest',
          set_backlog (line ++ [CR; LF]) (strlen line + 2)
            (set_pruneBuffer (line ++ [CR; LF]) s),
          mkWorld rest quiet
            (io ++ map Rx (line ++ [CR; LF] ++ LARA_R6_RESPONSE_OK))).
Proof.
  intros Hline Hurc Hroom Hb HL Hticks Hbefore.
  pose proof Hline as [Hne Hplain].
  pose proof (sendCommandWithResponse_scan_line_then_OK line Hplain)
    as [Hm Hrun].
  cbv zeta in Hm, Hrun.
  assert (Hlen : Z.of_nat (List.length (line ++ [CR; LF] ++ LARA_R6_RESPONSE_OK))
                 = strlen line + 7).
  { rewrite length_app. unfold strlen. cbn. lia. }
  assert (Hlen2 : strlen line + 2 = Z.of_nat (List.length (line ++ [CR; LF]))).
  { rewrite length_app. unfold strlen. cbn. lia. }
  unfold sendCommandWithResponse_await. cbn [clock uart wire expected fst snd].
  rewrite sendCommandWithResponse_loop_reads;
    [|exact Hticks|exact Hbefore|exact Hrun].
  rewrite Hm. rewrite sendCommandWithResponse_loop_found by reflexivity.
  cbn [bind found error]. eexists. f_equal. f_equal. f_equal.
  rewrite mirror_all; [|unfold backlog_ok; now rewrite Hb, HL|rewrite HL; lia].
  rewrite Hb, HL. cbn [app].
  rewrite nul_to_zero_nul_free.
  2:{ apply Forall_app. split; [now apply plain_nul_free|].
      repeat constructor; discriminate. }
  rewrite pruneBacklog_result. cbv zeta.
  cbn [_laraResponseBacklog set_backlog].
  rewrite events_of_line_then_OK by exact Hline.
  cbn [filter]. rewrite (begins_with_is_actionable line Hurc).
  change (actionable (chars "OK")) with false. cbv iota.
  unfold terminated. cbn [map List.concat]. rewrite app_nil_r.
  unfold set_backlog, set_pruneBuffer. cbn. f_equal. exact (eq_sym Hlen2).
Qed.

(** * The matcher finds the first occurrence of a restart-safe pattern *)

Lemma ends_with_iff (pattern text : list ascii) :
  ends_with pattern text = true
  <-> pattern <> [] /\ exists before, text = before ++ pattern.
Proof.
  unfold ends_with. destruct pattern as [|p0 pattern'].
  - split; [discriminate | intros [H _]; congruence].
  - rewrite starts_with_iff. split.
    + intros [after H]. split; [discriminate|]. exists (rev after).
      rewrite <- (rev_involutive text), H, rev_app_distr, rev_involutive.
      reflexivity.
    + intros [_ [before H]]. exists (rev before).
      rewrite H, rev_app_distr. reflexivity.
Qed.

Lemma suffix_skipn (A : Type) (before u text : list A) :
  text = before ++ u -> u = skipn (List.length text - List.length u) text.
Proof.
  intros ->. rewrite length_app.
  replace (List.length before + List.length u - List.length u)%nat
    with (List.length before + 0)%nat by lia.
  rewrite skipn_app, Nat.add_0_r, skipn_all.
  replace (List.length before - List.length before)%nat with 0%nat by lia.
  reflexivity.
Qed.

(** Of two endings of the same text the shorter ends the longer. *)
Lemma suffix_of_suffix (A : Type) (b1 b2 u v : list A) :
  b1 ++ u = b2 ++ v -> (List.length u <= List.length v)%nat ->
  u = skipn (List.length v - List.length u) v.
Proof.
  intros H Hle.
  rewrite (suffix_skipn A b1 u (b1 ++ u) eq_refl) at 1.
  rewrite H at 2. rewrite H at 1.
  rewrite length_app.
  replace (List.length b2 + List.length v - List.length u)%nat
    with (List.length b2 + (List.length v - List.length u))%nat by lia.
  rewrite skipn_app, skipn_all2 by lia.
  replace (List.length b2 + (List.length v - List.length u) - List.length b2)%nat
    with (List.length v - List.length u)%nat by lia.
  reflexivity.
Qed.

Lemma firstn_S_nth_error (A : Type) (l : list A) (i : nat) (x : A) :
  nth_error l i = Some x -> firstn (S i) l = firstn i l ++ [x].
Proof.
  revert i. induction l as [|a l IH]; intros [|i] H; simpl in *;
    try discriminate.
  - congruence.
  - rewrite (IH i H). reflexivity.
Qed.

Lemma restart_safe_spec (pattern : list ascii) (i j : nat) (a b : ascii) :
  restart_safe pattern = true ->
  (2 <= j)%nat -> (j <= i)%nat -> (i < List.length pattern)%nat ->
  firstn (j - 1) pattern = firstn (j - 1) (skipn (i - (j - 1)) pattern) ->
  nth_error pattern (j - 1) = Some a -> nth_error pattern i = Some b ->
  a = b.
Proof.
  intros Hsafe Hj Hji Hi Hborder Ha Hb.
  unfold restart_safe in Hsafe. rewrite forallb_forall in Hsafe.
  assert (Hin : In i (seq 0 (List.length pattern))) by (apply in_seq; lia).
  specialize (Hsafe i Hin). rewrite forallb_forall in Hsafe.
  assert (Hinj : In j (seq 2 (i - 1))) by (apply in_seq; lia).
  specialize (Hsafe j Hinj). unfold restart_safe_at, same_chars in Hsafe.
  rewrite Ha, Hb in Hsafe.
  destruct (list_eq_dec ascii_dec _ _) as [_|Hne]; [|contradiction].
  simpl in Hsafe. apply Ascii.eqb_eq. exact Hsafe.
Qed.

Lemma tracks_nil_text (pattern : list ascii) : tracks pattern [] 0.
Proof.
  destruct pattern as [|p0 pattern']; [left; reflexivity|]. right.
  split; [simpl; lia|]. split; [exists []; reflexivity|].
  intros j Hj [before H]. destruct j; [lia|].
  destruct before; simpl in H; discriminate.
Qed.

(** One byte: the pattern is reported when the text comes to end with it,
    and else the index goes on tracking. *)
Lemma advance_exact (pattern text : list ascii) (i : nat) (c : ascii) :
  restart_safe pattern = true ->
  tracks pattern text i ->
  snd (MatcherSpec.advance pattern i c) = ends_with pattern (text ++ [c])
  /\ (ends_with pattern (text ++ [c]) = false ->
      tracks pattern (text ++ [c]) (fst (MatcherSpec.advance pattern i c))).
Proof.
  intros Hsafe [Hnil | (Hi & [before Ha] & Hb)].
  { subst pattern. unfold MatcherSpec.advance. destruct i; simpl;
      (split; [reflexivity | intros _; left; reflexivity]). }
  assert (Hne : pattern <> []) by (destruct pattern; simpl in Hi; [lia|discriminate]).
  destruct (nth_error pattern i) as [x|] eqn:Hx;
    [|apply nth_error_None in Hx; lia].
  (* what a longer ending of the new text says about the old *)
  assert (Hpred : forall j, (S j <= List.length pattern)%nat ->
            (exists before', text ++ [c] = before' ++ firstn (S j) pattern) ->
            nth_error pattern j = Some c /\ (j <= i)%nat).
  { intros j Hj [before' H].
    destruct (nth_error pattern j) as [y|] eqn:Hy;
      [|apply nth_error_None in Hy; lia].
    rewrite (firstn_S_nth_error _ _ _ _ Hy), app_assoc in H.
    apply app_inj_tail in H. destruct H as [H ->].
    split; [reflexivity|]. apply Hb; [lia|]. exists before'. exact H. }
  unfold MatcherSpec.advance. rewrite Hx.
  destruct (Ascii.eqb c x) eqn:Hcx.
  - apply Ascii.eqb_eq in Hcx. subst x. cbn [fst snd].
    assert (Hnew : text ++ [c] = before ++ firstn (S i) pattern).
    { rewrite (firstn_S_nth_error _ _ _ _ Hx), app_assoc, <- Ha. reflexivity. }
    assert (Hhit : Nat.eqb (S i) (List.length pattern)
                   = ends_with pattern (text ++ [c])).
    { destruct (Nat.eqb (S i) (List.length pattern)) eqn:Hn.
      - apply Nat.eqb_eq in Hn. symmetry. apply ends_with_iff.
        split; [exact Hne|]. exists before.
        rewrite Hnew, Hn, firstn_all. reflexivity.
      - apply Nat.eqb_neq in Hn. symmetry.
        destruct (ends_with pattern (text ++ [c])) eqn:He; [|reflexivity].
        apply ends_with_iff in He. destruct He as [_ [before' H]].
        destruct (List.length pattern) as [|n] eqn:Hlen; [lia|].
        assert (n <= i)%nat; [|lia].
        apply (Hpred n); [lia|]. exists before'.
        rewrite <- Hlen, firstn_all. exact H. }
    split; [exact Hhit|]. intros He. rewrite He in Hhit.
    apply Nat.eqb_neq in Hhit. right. split; [lia|].
    split; [exists before; exact Hnew|].
    intros j Hj Hsuf. destruct j; [lia|].
    destruct (Hpred j Hj Hsuf) as [_ Hle]. lia.
  - assert (Hcx' : c <> x) by (intros ->; rewrite Ascii.eqb_refl in Hcx; discriminate).
    cbn [fst snd].
    (* no prefix longer than one character ends the new text *)
    assert (Hshort : forall j, (j <= List.length pattern)%nat ->
              (exists before', text ++ [c] = before' ++ firstn j pattern) ->
              (j <= 1)%nat).
    { intros j Hj Hsuf. destruct j as [|[|j]]; [lia|lia|]. exfalso.
      destruct (Hpred (S j) Hj Hsuf) as [Hc Hle].
      assert (Hlt : (S j < i)%nat).
      { destruct (Nat.eq_dec (S j) i) as [e|]; [subst i; congruence|lia]. }
      destruct Hsuf as [before' H].
      rewrite (firstn_S_nth_error _ _ _ _ Hc), app_assoc in H.
      apply app_inj_tail in H. destruct H as [H _].
      rewrite Ha in H.
      assert (Hborder : firstn (S j) pattern
                        = firstn (S j) (skipn (i - S j) pattern)).
      { pose proof (suffix_of_suffix _ before' before (firstn (S j) pattern)
                      (firstn i pattern) (eq_sym H)) as Hs.
        rewrite !length_firstn in Hs.
        replace (Nat.min (S j) (List.length pattern)) with (S j) in Hs by lia.
        replace (Nat.min i (List.length pattern)) with i in Hs by lia.
        rewrite Hs at 1 by lia.
        rewrite skipn_firstn_comm.
        replace (i - (i - S j))%nat with (S j) by lia. reflexivity. }
      apply Hcx'.
      apply (restart_safe_spec pattern i (S (S j)) c x Hsafe); try lia.
      - replace (S (S j) - 1)%nat with (S j) by lia. exact Hborder.
      - replace (S (S j) - 1)%nat with (S j) by lia. exact Hc.
      - exact Hx. }
    assert (Hmiss : ends_with pattern (text ++ [c]) = false).
    { destruct (ends_with pattern (text ++ [c])) eqn:He; [|reflexivity].
      apply ends_with_iff in He. destruct He as [_ [before' H]].
      destruct (List.length pattern) as [|n] eqn:Hlen; [lia|].
      assert (Hn : nth_error pattern n = Some c /\ (n <= i)%nat).
      { apply Hpred; [lia|]. exists before'.
        rewrite <- Hlen, firstn_all. exact H. }
      destruct Hn as [Hn Hni]. assert (n = i) by lia. subst n. congruence. }
    split; [symmetry; exact Hmiss|]. intros _. right.
    destruct pattern as [|p0 pattern']; [congruence|].
    unfold MatcherSpec.restart. destruct (Ascii.eqb c p0) eqn:Hc0.
    + apply Ascii.eqb_eq in Hc0. subst p0.
      split.
      { destruct i; [simpl in Hx; congruence|]. lia. }
      split; [exists text; reflexivity|]. exact Hshort.
    + split; [simpl; lia|].
      split; [exists (text ++ [c]); rewrite app_nil_r; reflexivity|].
      intros j Hj Hsuf. pose proof (Hshort j Hj Hsuf) as H1.
      destruct j as [|[|j]]; [lia| |lia]. exfalso.
      destruct Hsuf as [before' H]. simpl in H.
      apply app_inj_tail in H. destruct H as [_ H]. subst c.
      rewrite Ascii.eqb_refl in Hc0. discriminate.
Qed.

Lemma scan_exact (success errorp : list ascii) :
  restart_safe success = true -> restart_safe errorp = true ->
  forall (bytes text : list ascii) (c : ascii) (st : MatcherSpec.state),
    MatcherSpec.matched st = false ->
    tracks success text (MatcherSpec.success_index st) ->
    tracks errorp text (MatcherSpec.error_index st) ->
    (forall k, (1 <= k <= List.length bytes)%nat ->
       ends_with success (text ++ firstn k bytes) = false
       /\ ends_with errorp (text ++ firstn k bytes) = false) ->
    let st' := MatcherSpec.scan success errorp (bytes ++ [c]) st in
    MatcherSpec.success_matched st' = ends_with success (text ++ bytes ++ [c])
    /\ MatcherSpec.error_matched st' = ends_with errorp (text ++ bytes ++ [c])
    /\ MatcherSpec.matched (MatcherSpec.scan success errorp bytes st) = false.
Proof.
  intros Hs He. induction bytes as [|b bytes IH]; intros text c st Hm Hts Hte Hq.
  - cbn [app MatcherSpec.scan]. rewrite Hm.
    unfold MatcherSpec.step.
    destruct (advance_exact success text (MatcherSpec.success_index st) c Hs Hts)
      as [H1 _].
    destruct (advance_exact errorp text (MatcherSpec.error_index st) c He Hte)
      as [H2 _].
    destruct (MatcherSpec.advance success _ c) as [si sm].
    destruct (MatcherSpec.advance errorp _ c) as [ei em].
    cbn [fst snd] in *. cbn. auto.
  - cbn [app MatcherSpec.scan]. rewrite Hm.
    destruct (Hq 1%nat) as [Hq1 Hq2]; [simpl; lia|]. cbn [firstn] in Hq1, Hq2.
    destruct (advance_exact success text (MatcherSpec.success_index st) b Hs Hts)
      as [H1 H1'].
    destruct (advance_exact errorp text (MatcherSpec.error_index st) b He Hte)
      as [H2 H2'].
    specialize (H1' Hq1). specialize (H2' Hq2).
    rewrite Hq1 in H1. rewrite Hq2 in H2.
    unfold MatcherSpec.step.
    destruct (MatcherSpec.advance success _ b) as [si sm].
    destruct (MatcherSpec.advance errorp _ b) as [ei em].
    cbn [fst snd] in *. subst sm em.
    specialize (IH (text ++ [b]) c (MatcherSpec.mk si ei false false)
                  eq_refl H1' H2').
    rewrite <- !app_assoc in IH. cbn [app] in IH. apply IH.
    intros k Hk. specialize (Hq (S k)). cbn [firstn] in Hq.
    rewrite <- app_assoc. cbn [app]. apply Hq. simpl. lia.
Qed.

Lemma library_terminators_restart_safe :
  forallb restart_safe library_terminators = true.
Proof. vm_compute. reflexivity. Qed.

(** At the byte where one of two restart-safe patterns first ends the
    stream the scan stops, and not before. *)
Lemma feed_first_occurrence (R E before : list ascii) (c : ascii)
    (step : ascii -> Scan -> Scan) :
  restart_safe R = true -> restart_safe E = true ->
  (forall k, (k <= List.length before)%nat ->
     ends_with R (firstn k before) = false
     /\ ends_with E (firstn k before) = false) ->
  step = waitForResponse_scan R E \/ step = sendCommandWithResponse_scan R E ->
  found (feed step before scan_init) = false
  /\ found (feed step (before ++ [c]) scan_init)
     = ends_with R (before ++ [c]) || ends_with E (before ++ [c])
  /\ error (feed step (before ++ [c]) scan_init) = ends_with E (before ++ [c]).
Proof.
  intros HR HE Hq Hstep.
  assert (Hfeed : forall bytes,
            feed step bytes scan_init
            = scan_of_spec (MatcherSpec.scan R E bytes MatcherSpec.init)).
  { intros bytes. destruct Hstep as [-> | ->];
      [apply waitForResponse_feed | apply sendCommandWithResponse_feed]. }
  rewrite !Hfeed.
  destruct (scan_exact R E HR HE before [] c MatcherSpec.init eq_refl
              (tracks_nil_text R) (tracks_nil_text E)) as (H1 & H2 & H3).
  { intros k Hk. cbn [app]. apply Hq. lia. }
  cbn [app] in H1, H2.
  unfold scan_of_spec. cbn [found error]. unfold MatcherSpec.matched at 2.
  rewrite H1, H2, H3. auto.
Qed.

(** X1.  A pattern is restart-safe when restarting at 0 or 1 after a
    mismatch cannot skip a match; every terminator the library waits for
    is.  For such patterns the matcher of [waitForResponse] and of
    [sendCommandWithResponse] sets [found] at the byte where the response
    or the error pattern first ends the stream, not before, and sets
    [error] exactly when it is the error pattern that ends there. *)
Theorem matcher_reports_the_first_occurrence :
  forallb restart_safe library_terminators = true
  /\ forall (expectedResponse expectedError before : list ascii) (c : ascii),
       restart_safe expectedResponse = true ->
       restart_safe expectedError = true ->
       (forall k, (k <= List.length before)%nat ->
          ends_with expectedResponse (firstn k before) = false
          /\ ends_with expectedError (firstn k before) = false) ->
       forall step,
         step = waitForResponse_scan expectedResponse expectedError
         \/ step = sendCommandWithResponse_scan expectedResponse expectedError ->
         found (feed step before scan_init) = false
         /\ found (feed step (before ++ [c]) scan_init)
            = ends_with expectedResponse (before ++ [c])
              || ends_with expectedError (before ++ [c])
         /\ error (feed step (before ++ [c]) scan_init)
            = ends_with expectedError (before ++ [c]).
Proof.
  split; [exact library_terminators_restart_safe|].
  intros R E before c HR HE Hq step Hstep.
  exact (feed_first_occurrence R E before c step HR HE Hq Hstep).
Qed.

Lemma matcher_reports_the_first_occurrence_witness :
  let before := [CR; LF] ++ chars "+CSQ: 9,1" ++ [CR; LF; CR; LF]
                ++ chars "OK" ++ [CR] in
  found (feed (sendCommandWithResponse_scan LARA_R6_RESPONSE_OK
                 LARA_R6_RESPONSE_ERROR) before scan_init) = false
  /\ found (feed (sendCommandWithResponse_scan LARA_R6_RESPONSE_OK
                    LARA_R6_RESPONSE_ERROR) (before ++ [LF]) scan_init)
     = true
  /\ error (feed (sendCommandWithResponse_scan LARA_R6_RESPONSE_OK
                    LARA_R6_RESPONSE_ERROR) (before ++ [LF]) scan_init)
     = false.
Proof.
  intros before.
  destruct matcher_reports_the_first_occurrence as [_ Hfirst].
  destruct (Hfirst LARA_R6_RESPONSE_OK LARA_R6_RESPONSE_ERROR before LF
              eq_refl eq_refl) with
    (step := sendCommandWithResponse_scan LARA_R6_RESPONSE_OK
               LARA_R6_RESPONSE_ERROR) as (H1 & H2 & H3).
  - intros k Hk.
    do 19 (destruct k as [|k]; [split; reflexivity|]).
    simpl in Hk. lia.
  - right. reflexivity.
  - split; [exact H1|]. split.
    + rewrite H2. reflexivity.
    + rewrite H3. reflexivity.
Defined.

(** * What the pruner drops, the decoders ignore *)





(** * Whatever a wait returns *)

Lemma feed_found (step : ascii -> Scan -> Scan) (bytes : list ascii) (m : Scan) :
  found m = true -> feed step bytes m = m.
Proof.
  intros H. destruct bytes; cbn; [reflexivity | now rewrite H].
Qed.

Lemma feed_app (step : ascii -> Scan -> Scan) (a b : list ascii) :
  forall m, feed step (a ++ b) m = feed step b (feed step a m).
Proof.
  induction a as [|c a IH]; intros m; [reflexivity|].
  cbn [app feed]. destruct (found m) eqn:Hf; [|apply IH].
  symmetry. apply feed_found. exact Hf.
Qed.

(** While [found] stays unset the matcher has seen every byte. *)
Lemma feed_fold_left (step : ascii -> Scan -> Scan) (bytes : list ascii) :
  forall m, found (feed step bytes m) = false ->
    feed step bytes m = fold_left (fun m c => step c m) bytes m.
Proof.
  induction bytes as [|c bytes IH]; intros m H; [reflexivity|].
  cbn [feed fold_left] in *. destruct (found m) eqn:Hf; [congruence|].
  apply IH. exact H.
Qed.

Lemma feed_prefix_unfound (step : ascii -> Scan -> Scan) (bytes : list ascii)
    (m : Scan) (n : nat) :
  found (feed step bytes m) = false ->
  found (fold_left (fun m c => step c m) (firstn n bytes) m) = false.
Proof.
  intros H. rewrite <- (firstn_skipn n bytes), feed_app in H.
  destruct (found (feed step (firstn n bytes) m)) eqn:Hf.
  - rewrite feed_found in H by exact Hf. congruence.
  - rewrite <- feed_fold_left by exact Hf. exact Hf.
Qed.

(** However the loop of [waitForResponse] ends, it has read some bytes,
    fed each to the matcher and offered each to the backlog. *)
Lemma waitForResponse_loop_returns (R E : list ascii) (deadline : Z)
    (clock : list Z) :
  forall uart io m s m' s' w',
    waitForResponse_loop R E deadline clock uart io m s = Ok (m', s', w') ->
    exists bytes,
      wire w' = io ++ map Rx bytes
      /\ m' = feed (waitForResponse_scan R E) bytes m
      /\ s' = fold_left (fun s c => mirror c s) bytes s.
Proof.
  induction clock as [|now clock IH]; intros uart io m s m' s' w' H;
    cbn [waitForResponse_loop] in H.
  - destruct (found m); [|discriminate]. injection H as <- <- <-.
    exists []. cbn. now rewrite app_nil_r.
  - destruct (found m) eqn:Hf.
    { injection H as <- <- <-. exists []. cbn. now rewrite app_nil_r. }
    destruct (deadline >? wrap32 now).
    2:{ injection H as <- <- <-. exists []. cbn. now rewrite app_nil_r. }
    destruct uart as [|[c|] uart]; cbn [hwAvailable readChar] in H.
    + apply IH in H. exact H.
    + apply IH in H. destruct H as (bytes & H1 & H2 & H3).
      exists (c :: bytes). cbn [map fold_left].
      rewrite feed_cons_running by exact Hf.
      rewrite H1, <- app_assoc. auto.
    + apply IH in H. exact H.
Qed.

Lemma sendCommandWithResponse_loop_returns (R E : list ascii)
    (deadline destSize : Z) (clock : list Z) :
  forall uart io m k s m' k' s' w',
    sendCommandWithResponse_loop R E deadline destSize clock uart io m k s
    = Ok (m', k', s', w') ->
    exists bytes,
      wire w' = io ++ map Rx bytes
      /\ m' = feed (sendCommandWithResponse_scan R E) bytes m
      /\ k' = fold_left (fun k c => capture destSize c k) bytes k
      /\ s' = fold_left (fun s c => mirror c s) bytes s.
Proof.
  induction clock as [|now clock IH]; intros uart io m k s m' k' s' w' H;
    cbn [sendCommandWithResponse_loop] in H.
  - destruct (found m); [|discriminate]. injection H as <- <- <- <-.
    exists []. cbn. now rewrite app_nil_r.
  - destruct (found m) eqn:Hf.
    { injection H as <- <- <- <-. exists []. cbn. now rewrite app_nil_r. }
    destruct (deadline >? wrap32 now).
    2:{ injection H as <- <- <- <-. exists []. cbn. now rewrite app_nil_r. }
    destruct uart as [|[c|] uart]; cbn [hwAvailable readChar] in H.
    + apply IH in H. exact H.
    + apply IH in H. destruct H as (bytes & H1 & H2 & H3 & H4).
      exists (c :: bytes). cbn [map fold_left].
      rewrite feed_cons_running by exact Hf.
      rewrite H1, <- app_assoc. auto.
    + apply IH in H. exact H.
Qed.

Lemma pruneBacklog_frame (s : LARA_R6) :
  _lastSocketProtocol (pruneBacklog s) = _lastSocketProtocol s
  /\ callbacks (pruneBacklog s) = callbacks s
  /\ _bufferedPollReentrant (pruneBacklog s) = _bufferedPollReentrant s.
Proof. rewrite pruneBacklog_result. cbn. auto. Qed.

Lemma waitForResponse_returns (R E : list ascii) (timeout : Z) (s : LARA_R6)
    (w : World) (r : LARA_R6_error_t) (s' : LARA_R6) (w' : World) :
  waitForResponse R E timeout s w = Ok (r, s', w') ->
  exists bytes,
    wire w' = wire w ++ map Rx bytes
    /\ s' = pruneBacklog (fold_left (fun s c => mirror c s) bytes s).
Proof.
  unfold waitForResponse. destruct (clock w) as [|t0 clock1]; [discriminate|].
  intros H. unfold bind in H.
  destruct (waitForResponse_loop _ _ _ _ _ _ _ _) as [[[m s1] w1]|] eqn:Hloop;
    [|discriminate].
  apply waitForResponse_loop_returns in Hloop.
  destruct Hloop as (bytes & H1 & _ & H3). exists bytes.
  destruct (found m); injection H as <- <- <-; subst s1; auto.
Qed.

Lemma map_Rx_inj (a b : list ascii) : map Rx a = map Rx b -> a = b.
Proof.
  revert b. induction a as [|x a IH]; intros [|y b] H; try discriminate H.
  - reflexivity.
  - cbn [map] in H. injection H as -> H. f_equal. now apply IH.
Qed.

(** X3.  Whatever [waitForResponse] answers, the bytes it read went to
    the backlog behind what it held, NUL stored as the digit 0.  Where
    that text leaves room for the NUL that ends it (it is shorter than
    [_RXBuffSize]) and the lines kept of it, each with its CR LF, do so
    as well, [pruneBacklog] keeps to its arrays and the backlog left
    holds the lines of that text in which a URC text occurs, each ended
    by CR LF, and nothing else; the length field agrees with it, it holds
    no NUL, and the socket table, the callbacks and the guard of
    [bufferedPoll] are untouched. *)
Theorem waitForResponse_leaves_the_notification_lines :
  forall (expectedResponse expectedError : list ascii) (timeout : Z)
         (s : LARA_R6) (w : World)
         (r : LARA_R6_error_t) (s' : LARA_R6) (w' : World),
    waitForResponse expectedResponse expectedError timeout s w
    = Ok (r, s', w') ->
    backlog_ok s ->
    exists bytes,
      wire w' = wire w ++ map Rx bytes
      /\ let text := _laraResponseBacklog s ++ map nul_to_zero bytes in
         let kept := filter actionable (events_of text) in
         strlen text < _RXBuffSize ->
         strlen (terminated kept) < _RXBuffSize ->
         Forall is_line kept
         /\ _laraResponseBacklog s' = terminated kept
         /\ _laraResponseBacklogLength s' = strlen (terminated kept)
         /\ Forall (fun c => c <> NUL) (_laraResponseBacklog s')
         /\ _lastSocketProtocol s' = _lastSocketProtocol s
         /\ callbacks s' = callbacks s
         /\ _bufferedPollReentrant s' = _bufferedPollReentrant s.
Proof.
  intros R E timeout s w r s' w' H Hok.
  apply waitForResponse_returns in H. destruct H as (bytes & Hw & Hs).
  exists bytes. split; [exact Hw|]. intros text kept Htext _.
  assert (Hroom : _laraResponseBacklogLength s + Z.of_nat (List.length bytes)
                  <= _RXBuffSize).
  { unfold text, strlen in Htext. rewrite length_app, length_map in Htext.
    unfold backlog_ok in Hok. lia. }
  rewrite (mirror_all bytes s Hok Hroom) in Hs.
  assert (Hlines : Forall is_line kept).
  { apply filter_actionable_lines, strtok_events_are_lines. }
  subst s'. rewrite pruneBacklog_result.
  cbn [_laraResponseBacklog _laraResponseBacklogLength set_backlog
       set_pruneBuffer _pruneBuffer _bufferedPollReentrant
       _lastSocketProtocol callbacks].
  fold text. fold kept. repeat split; try reflexivity; try exact Hlines.
  apply terminated_nul_free. exact Hlines.
Qed.

Lemma waitForResponse_leaves_the_notification_lines_witness :
  let w := mkWorld [0; 1; 2; 3; 4; 5; 6; 7; 8; 9; 10; 11; 12; 13; 14; 2000]
             (map Some (chars "+CREG: 5" ++ [CR; LF] ++ chars "RING"
                        ++ [CR; LF])) [] in
  backlog_ok LARA_R6_new
  /\ exists s' w',
       waitForResponse LARA_R6_RESPONSE_OK LARA_R6_RESPONSE_ERROR 1000
         LARA_R6_new w
       = Ok (LARA_R6_ERROR_NO_RESPONSE, s', w')
       /\ wire w' = map Rx (chars "+CREG: 5" ++ [CR; LF] ++ chars "RING")
       /\ _laraResponseBacklog s' = terminated [chars "+CREG: 5"]
       /\ _laraResponseBacklogLength s' = 10.
Proof.
  intros w. split; [reflexivity|].
  evar (s' : LARA_R6). evar (w' : World).
  assert (Hrun : waitForResponse LARA_R6_RESPONSE_OK LARA_R6_RESPONSE_ERROR 1000
                   LARA_R6_new w = Ok (LARA_R6_ERROR_NO_RESPONSE, s', w'))
    by (vm_compute; reflexivity).
  exists s', w'. split; [exact Hrun|].
  destruct (waitForResponse_leaves_the_notification_lines
              LARA_R6_RESPONSE_OK LARA_R6_RESPONSE_ERROR 1000 LARA_R6_new w
              _ _ _ Hrun eq_refl)
    as (bytes & Hw & Hb).
  assert (Hbytes : bytes = chars "+CREG: 5" ++ [CR; LF] ++ chars "RING").
  { apply map_Rx_inj. symmetry. exact Hw. }
  subst bytes. split; [exact Hw|].
  cbv zeta in Hb.
  match type of Hb with
  | ?P -> ?Q -> _ =>
      assert (H1 : P) by (vm_compute; reflexivity);
      assert (H2 : Q) by (vm_compute; reflexivity)
  end.
  destruct (Hb H1 H2) as (_ & Hb1 & Hb2 & _).
  rewrite Hb1, Hb2. split; vm_compute; reflexivity.
Defined.

(** * Whatever [sendCommandWithResponse] returns *)

Lemma sendCommand_drain_returns (n : nat) :
  forall (clock : list Z), (List.length clock <= n)%nat ->
  forall (timeIn : Z) uart io s s' w',
    sendCommand_drain timeIn clock uart io s = Ok (s', w') ->
    backlog_ok s ->
    exists drained,
      wire w' = io ++ map Rx drained
      /\ s' = set_backlog
                (_laraResponseBacklog s ++ map nul_to_zero drained)
                (_laraResponseBacklogLength s + Z.of_nat (List.length drained))
                s
      /\ _laraResponseBacklogLength s'
         <= Z.max (_laraResponseBacklogLength s) _RXBuffSize.
Proof.
  induction n as [|n IH]; intros clock Hn timeIn uart io s s' w' H Hok.
  { destruct clock; [discriminate | cbn in Hn; lia]. }
  destruct clock as [|now clock1]; [discriminate|].
  cbn [sendCommand_drain] in H. cbn in Hn.
  destruct ((wrap32 (wrap32 now - timeIn) <? _rxWindowMillis)
            && (_laraResponseBacklogLength s <? _RXBuffSize)) eqn:Hcond.
  2:{ injection H as <- <-. exists []. cbn [map List.length wire].
      rewrite app_nil_r, set_backlog_same. repeat split; lia. }
  apply andb_true_iff in Hcond as [_ Hroom]. apply Z.ltb_lt in Hroom.
  pose proof Hok as HL. unfold backlog_ok in HL.
  destruct uart as [|[c|] uart]; cbn [hwAvailable readChar] in H.
  - apply (IH clock1 ltac:(lia)) in H; assumption.
  - destruct clock1 as [|now' clock2]; [discriminate|]. cbn in Hn.
    set (s1 := set_backlog
                 (store (_laraResponseBacklog s) (_laraResponseBacklogLength s)
                        (nul_to_zero c))
                 (_laraResponseBacklogLength s + 1) s) in *.
    assert (Hs1 : s1 = set_backlog (_laraResponseBacklog s ++ [nul_to_zero c])
                         (_laraResponseBacklogLength s + 1) s).
    { unfold s1. rewrite HL at 1. now rewrite store_at_end. }
    assert (Hok1 : backlog_ok s1).
    { rewrite Hs1. unfold backlog_ok. cbn. rewrite length_app, HL.
      cbn [List.length]. lia. }
    apply (IH clock2 ltac:(lia)) in H; [|exact Hok1].
    destruct H as (drained & H1 & H2 & H3). exists (c :: drained).
    rewrite H1. cbn [map List.length]. rewrite <- app_assoc.
    split; [reflexivity|]. rewrite Hs1 in H2, H3.
    cbn [_laraResponseBacklog _laraResponseBacklogLength set_backlog] in H2, H3.
    rewrite <- app_assoc in H2. cbn [app] in H2.
    split.
    + rewrite H2. unfold set_backlog.
      cbn [_pruneBuffer _bufferedPollReentrant _lastSocketProtocol callbacks].
      f_equal. lia.
    + lia.
  - apply (IH clock1 ltac:(lia)) in H; assumption.
Qed.

Lemma sendCommand_returns (command : list ascii) (at_ : bool) (s : LARA_R6)
    (w : World) (s' : LARA_R6) (w' : World) :
  sendCommand command at_ s w = Ok (s', w') ->
  backlog_ok s ->
  exists drained,
    wire w' = wire w ++ map Rx drained ++ map Tx (command_line command at_)
    /\ s' = set_backlog
              (_laraResponseBacklog s ++ map nul_to_zero drained)
              (_laraResponseBacklogLength s + Z.of_nat (List.length drained))
              s
    /\ _laraResponseBacklogLength s'
       <= Z.max (_laraResponseBacklogLength s) _RXBuffSize.
Proof.
  unfold sendCommand. destruct (clock w) as [|t0 clock1]; [discriminate|].
  intros H Hok.
  assert (Hdrain : exists s1 w1 drained,
            (let '(avail, uart1) := hwAvailable (uart w) in
             if avail
             then sendCommand_drain (wrap32 t0) clock1 uart1 (wire w) s
             else Ok (s, mkWorld clock1 uart1 (wire w))) = Ok (s1, w1)
            /\ s' = s1
            /\ wire w' = wire w1 ++ map Tx (command_line command at_)
            /\ wire w1 = wire w ++ map Rx drained
            /\ s1 = set_backlog
                      (_laraResponseBacklog s ++ map nul_to_zero drained)
                      (_laraResponseBacklogLength s
                       + Z.of_nat (List.length drained)) s
            /\ _laraResponseBacklogLength s1
               <= Z.max (_laraResponseBacklogLength s) _RXBuffSize).
  { destruct (hwAvailable (uart w)) as [avail uart1].
    unfold bind in H.
    destruct (if avail then _ else _) as [[s1 w1]|] eqn:Hd; [|discriminate].
    exists s1, w1.
    assert (Hw : s' = s1
                 /\ wire w' = wire w1 ++ map Tx (command_line command at_)).
    { pose proof (wire_hwPrint_command command at_ w1) as [Hp _].
      destruct at_; injection H as <- <-; auto. }
    destruct avail.
    - apply (sendCommand_drain_returns _ _ (le_n _)) in Hd; [|exact Hok].
      destruct Hd as (drained & H1 & H2 & H3). exists drained.
      destruct Hw. auto 10.
    - injection Hd as <- <-. exists []. cbn [map List.length wire].
      rewrite app_nil_r, set_backlog_same. destruct Hw.
      repeat split; auto; lia. }
  destruct Hdrain as (s1 & w1 & drained & _ & -> & Hw & Hw1 & Hs & Hb).
  exists drained. rewrite Hw, Hw1, <- app_assoc. auto.
Qed.

Lemma backlog_ok_appended (s : LARA_R6) (bytes : list ascii) :
  backlog_ok s ->
  backlog_ok (set_backlog (_laraResponseBacklog s ++ bytes)
                (_laraResponseBacklogLength s + Z.of_nat (List.length bytes)) s).
Proof.
  unfold backlog_ok. cbn. intros ->. rewrite length_app. lia.
Qed.

Lemma sendCommandWithResponse_await_returns
    (expectedResponse responseDest : option (list ascii))
    (commandTimeout destSize : Z) (s : LARA_R6) (w : World)
    (r : LARA_R6_error_t) (dest' : option (list ascii)) (s' : LARA_R6)
    (w' : World) :
  sendCommandWithResponse_await expectedResponse responseDest commandTimeout
    destSize s w = Ok (r, dest', s', w') ->
  exists bytes,
    wire w' = wire w ++ map Rx bytes
    /\ s' = pruneBacklog (fold_left (fun s c => mirror c s) bytes s)
    /\ dest' = dest (fold_left (fun k c => capture destSize c k) bytes
                       (mkCapture responseDest 0 0))
    /\ let m := feed (sendCommandWithResponse_scan
                        (fst (expected expectedResponse))
                        (snd (expected expectedResponse))) bytes scan_init in
       r = if found m
           then if error m then LARA_R6_ERROR_ERROR else LARA_R6_ERROR_SUCCESS
           else if charsRead (fold_left (fun k c => capture destSize c k) bytes
                                (mkCapture responseDest 0 0)) =? 0
                then LARA_R6_ERROR_NO_RESPONSE
                else LARA_R6_ERROR_UNEXPECTED_RESPONSE.
Proof.
  unfold sendCommandWithResponse_await.
  destruct (clock w) as [|t0 clock1]; [discriminate|].
  intros H. unfold bind in H.
  destruct (sendCommandWithResponse_loop _ _ _ _ _ _ _ _ _ _)
    as [[[[m k] s1] w1]|] eqn:Hloop; [|discriminate].
  apply sendCommandWithResponse_loop_returns in Hloop.
  destruct Hloop as (bytes & H1 & H2 & H3 & H4). exists bytes.
  cbv zeta. rewrite <- H2, <- H3.
  destruct (found m); [|destruct (charsRead k =? 0)];
    injection H as <- <- <- <-; subst s1; auto.
Qed.

(** X4.  Whatever [sendCommandWithResponse] returns, the port saw, in
    this order: bytes read before anything was written, which went to the
    backlog; the command, with AT before it and CR LF after it when [at]
    is set; the reply then read, which went to the backlog as well.
    Where the old backlog and all these bytes leave room for the NUL
    that ends them (they are fewer than [_RXBuffSize]) and the lines
    kept of them, each with its CR LF, do so as well, the backlog left
    holds the lines of that text in which a URC text occurs, and its
    length field agrees with it. *)
Theorem sendCommandWithResponse_exchange :
  forall (command : list ascii) (expectedResponse responseDest : option (list ascii))
         (commandTimeout destSize : Z) (at_ : bool) (s : LARA_R6) (w : World)
         (r : LARA_R6_error_t) (dest' : option (list ascii)) (s' : LARA_R6)
         (w' : World),
    sendCommandWithResponse command expectedResponse responseDest
      commandTimeout destSize at_ s w = Ok (r, dest', s', w') ->
    backlog_ok s ->
    exists before reply,
      wire w'
      = wire w ++ map Rx before ++ map Tx (command_line command at_)
        ++ map Rx reply
      /\ let text := _laraResponseBacklog s
                     ++ map nul_to_zero (before ++ reply) in
         let kept := filter actionable (events_of text) in
         strlen text < _RXBuffSize ->
         strlen (terminated kept) < _RXBuffSize ->
         _laraResponseBacklog s' = terminated kept
         /\ _laraResponseBacklogLength s' = strlen (terminated kept).
Proof.
  intros command expectedResponse responseDest commandTimeout destSize at_
    s w r dest' s' w' H Hok.
  unfold sendCommandWithResponse, bind in H.
  destruct (sendCommand command at_ s w) as [[s1 w1]|] eqn:Hsend;
    [|discriminate].
  apply sendCommand_returns in Hsend; [|exact Hok].
  destruct Hsend as (drained & Hw1 & Hs1 & Hb1).
  apply sendCommandWithResponse_await_returns in H.
  destruct H as (reply & Hw & Hs & _).
  exists drained, reply.
  split. { rewrite Hw, Hw1, <- !app_assoc. reflexivity. }
  intros text kept Htext _.
  assert (Hok1 : backlog_ok s1).
  { rewrite Hs1, <- (length_map nul_to_zero drained).
    apply backlog_ok_appended. exact Hok. }
  assert (Hroom : _laraResponseBacklogLength s1 + Z.of_nat (List.length reply)
                  <= _RXBuffSize).
  { unfold text, strlen in Htext.
    rewrite length_app, length_map, length_app in Htext.
    rewrite Hs1. cbn [_laraResponseBacklogLength set_backlog].
    unfold backlog_ok in Hok. lia. }
  rewrite (mirror_all reply s1 Hok1 Hroom) in Hs.
  subst s'. rewrite pruneBacklog_result.
  cbn [_laraResponseBacklog _laraResponseBacklogLength set_backlog
       set_pruneBuffer].
  assert (Hb : _laraResponseBacklog s1 ++ map nul_to_zero reply = text).
  { rewrite Hs1. cbn [_laraResponseBacklog set_backlog].
    unfold text. rewrite map_app, app_assoc. reflexivity. }
  rewrite Hb. fold kept. split; reflexivity.
Qed.

Lemma sendCommandWithResponse_exchange_witness :
  let w := mkWorld (repeat 0 22 ++ repeat 5 7)
             (map Some (chars "+CREG: 5" ++ [CR; LF]) ++ [None]
              ++ map Some (LARA_R6_RESPONSE_OK)) [] in
  backlog_ok LARA_R6_new
  /\ exists dest' s' w',
       sendCommandWithResponse (chars "+CSQ") None None 1000 128 true
         LARA_R6_new w
       = Ok (LARA_R6_ERROR_SUCCESS, dest', s', w')
       /\ exists before reply,
            wire w'
            = map Rx before ++ map Tx (chars "AT+CSQ" ++ [CR; LF])
              ++ map Rx reply
            /\ (strlen (map nul_to_zero (before ++ reply)) < _RXBuffSize ->
                strlen (terminated
                          (filter actionable
                             (events_of (map nul_to_zero (before ++ reply)))))
                < _RXBuffSize ->
                _laraResponseBacklog s'
                = terminated
                    (filter actionable
                       (events_of (map nul_to_zero (before ++ reply)))))
            /\ _laraResponseBacklog s' = terminated [chars "+CREG: 5"].
Proof.
  intros w. split; [reflexivity|].
  evar (dest' : option (list ascii)). evar (s' : LARA_R6). evar (w' : World).
  assert (Hrun : sendCommandWithResponse (chars "+CSQ") None None 1000 128 true
                   LARA_R6_new w = Ok (LARA_R6_ERROR_SUCCESS, dest', s', w'))
    by (vm_compute; reflexivity).
  exists dest', s', w'. split; [exact Hrun|].
  destruct (sendCommandWithResponse_exchange (chars "+CSQ") None None 1000 128
              true LARA_R6_new w _ _ _ _ Hrun eq_refl)
    as (before & reply & Hw & Hb).
  exists before, reply. split; [exact Hw|]. split; [|reflexivity].
  intros H1 H2. exact (proj1 (Hb H1 H2)).
Defined.

(** * The caller's buffer *)

Lemma capture_fold (destSize : Z) (d0 : list ascii) (bytes : list ascii) :
  forall (seen : list ascii) (n : Z),
    let D := Z.to_nat destSize in
    dest (fold_left (fun k c => capture destSize c k) bytes
            (mkCapture
               (Some (firstn D seen ++ skipn (Nat.min D (List.length seen)) d0))
               (Z.of_nat (List.length seen)) n))
    = Some (firstn D (seen ++ bytes)
            ++ skipn (Nat.min D (List.length (seen ++ bytes))) d0).
Proof.
  induction bytes as [|c bytes IH]; intros seen n; cbv zeta.
  - cbn [fold_left dest]. rewrite app_nil_r. reflexivity.
  - cbn [fold_left]. unfold capture at 2. cbn [dest destIndex charsRead].
    replace (seen ++ c :: bytes) with ((seen ++ [c]) ++ bytes)
      by (rewrite <- app_assoc; reflexivity).
    specialize (IH (seen ++ [c])). cbv zeta in IH.
    set (D := Z.to_nat destSize) in *.
    assert (Hlen : Z.of_nat (List.length seen) + 1
                   = Z.of_nat (List.length (seen ++ [c])))
      by (rewrite length_app; cbn [List.length]; lia).
    rewrite Hlen.
    destruct (Z.of_nat (List.length seen) <? destSize) eqn:Hroom.
    + apply Z.ltb_lt in Hroom.
      assert (HD : (List.length seen < D)%nat) by (unfold D; lia).
      rewrite <- (IH (wrap32 (n + 1))). do 3 f_equal.
      rewrite (firstn_all2 (n := D) seen) by lia.
      rewrite (firstn_all2 (n := D) (seen ++ [c]))
        by (rewrite length_app; cbn [List.length]; lia).
      rewrite length_app. cbn [List.length].
      replace (Nat.min D (List.length seen)) with (List.length seen) by lia.
      replace (Nat.min D (List.length seen + 1)) with (S (List.length seen))
        by lia.
      unfold store, pad. rewrite Nat2Z.id.
      rewrite firstn_app, firstn_all, Nat.sub_diag, firstn_O, app_nil_r.
      rewrite length_app.
      replace (List.length seen - (List.length seen + _))%nat with 0%nat by lia.
      cbn [repeat]. rewrite app_nil_r.
      rewrite skipn_app, skipn_all2 by lia.
      replace (S (List.length seen) - List.length seen)%nat with 1%nat by lia.
      rewrite skipn_skipn. cbn [app]. rewrite <- app_assoc. cbn [app].
      do 2 f_equal.
    + apply Z.ltb_ge in Hroom.
      assert (HD : (D <= List.length seen)%nat) by (unfold D; lia).
      rewrite <- (IH (wrap32 (n + 1))). do 3 f_equal.
      rewrite firstn_app.
      replace (D - List.length seen)%nat with 0%nat by lia.
      rewrite firstn_O, app_nil_r, length_app. cbn [List.length].
      do 3 f_equal. lia.
Qed.

Lemma capture_fold_null (destSize : Z) (bytes : list ascii) :
  forall (i n : Z),
    dest (fold_left (fun k c => capture destSize c k) bytes
            (mkCapture None i n)) = None.
Proof.
  induction bytes as [|c bytes IH]; intros i n; [reflexivity|].
  cbn [fold_left]. unfold capture at 2. cbn [dest destIndex charsRead].
  apply IH.
Qed.

(** X5.  Whatever [sendCommandWithResponse] returns, the caller's
    [responseDest] holds the first [destSize] bytes of the reply, as they
    were received, followed by what the array held before beyond them: no
    byte is stored at or past [destSize], and no terminating NUL is
    written.  An array that was zeroed thus ends as the first [destSize]
    bytes of the reply; a null [responseDest] stays null. *)
Theorem sendCommandWithResponse_fills_responseDest :
  forall (expectedResponse responseDest : option (list ascii))
         (commandTimeout destSize : Z) (s : LARA_R6) (w : World)
         (r : LARA_R6_error_t) (dest' : option (list ascii)) (s' : LARA_R6)
         (w' : World),
    sendCommandWithResponse_await expectedResponse responseDest commandTimeout
      destSize s w = Ok (r, dest', s', w') ->
    exists reply,
      wire w' = wire w ++ map Rx reply
      /\ let D := Z.to_nat destSize in
         dest' = option_map
                   (fun d => firstn D reply
                             ++ skipn (Nat.min D (List.length reply)) d)
                   responseDest
         /\ (responseDest = Some [] ->
             dest' = Some (firstn D reply)
             /\ forall d, dest' = Some d -> strlen d <= Z.max 0 destSize).
Proof.
  intros expectedResponse responseDest commandTimeout destSize s w r dest'
    s' w' H.
  apply sendCommandWithResponse_await_returns in H.
  destruct H as (reply & Hw & _ & Hd & _). exists reply.
  split; [exact Hw|]. intros D.
  assert (Hdest : dest' = option_map
                    (fun d => firstn D reply
                              ++ skipn (Nat.min D (List.length reply)) d)
                    responseDest).
  { rewrite Hd. destruct responseDest as [d0|]; cbn [option_map].
    - pose proof (capture_fold destSize d0 reply [] 0) as Hc.
      cbn [List.length app Z.of_nat] in Hc.
      rewrite firstn_nil, Nat.min_0_r in Hc. cbn [app skipn] in Hc.
      exact Hc.
    - apply capture_fold_null. }
  split; [exact Hdest|]. intros ->. cbn [option_map] in Hdest.
  destruct (Nat.min D (List.length reply)); cbn [skipn] in Hdest;
    rewrite app_nil_r in Hdest.
  all: split; [exact Hdest|]; intros d Hd'; rewrite Hdest in Hd';
    injection Hd' as <-; unfold strlen; rewrite length_firstn; unfold D; lia.
Qed.

Lemma sendCommandWithResponse_fills_responseDest_witness :
  let w := mkWorld [0; 1; 2; 3; 4; 5; 6; 7; 8; 9; 10; 11; 12]
             (map Some (chars "+CSQ: 9" ++ LARA_R6_RESPONSE_OK)) [] in
  exists r dest' s' w',
    sendCommandWithResponse_await None (Some (chars "stale data")) 1000 4
      LARA_R6_new w
    = Ok (r, dest', s', w')
    /\ exists reply,
         wire w' = map Rx reply
         /\ dest' = Some (firstn 4 reply
                          ++ skipn (Nat.min 4 (List.length reply))
                               (chars "stale data")).
Proof.
  intros w.
  evar (r : LARA_R6_error_t). evar (dest' : option (list ascii)).
  evar (s' : LARA_R6). evar (w' : World).
  assert (Hrun : sendCommandWithResponse_await None (Some (chars "stale data"))
                   1000 4 LARA_R6_new w = Ok (r, dest', s', w'))
    by (vm_compute; reflexivity).
  exists r, dest', s', w'. split; [exact Hrun|].
  destruct (sendCommandWithResponse_fills_responseDest None
              (Some (chars "stale data")) 1000 4 LARA_R6_new w _ _ _ _ Hrun)
    as (reply & Hw & Hd & _).
  exists reply. split; [exact Hw | exact Hd].
Defined.

(** * The calls [processURCEvent] makes *)








(** * The verdict of a wait, by what arrived *)

Lemma ends_with_nil (pattern : list ascii) : ends_with pattern [] = false.
Proof.
  destruct (ends_with pattern []) eqn:H; [|reflexivity].
  apply ends_with_iff in H. destruct H as [Hne [before H]].
  symmetry in H. apply app_eq_nil in H. tauto.
Qed.

Lemma arrives_iff (pattern text : list ascii) :
  arrives pattern text
  <-> exists k, (k <= List.length text)%nat
                /\ ends_with pattern (firstn k text) = true.
Proof.
  split.
  - intros [Hne (before & after & H)].
    exists (List.length (before ++ pattern)). split.
    + rewrite H, !length_app. lia.
    + apply ends_with_iff. split; [exact Hne|]. exists before.
      rewrite H, app_assoc, firstn_app, firstn_all, Nat.sub_diag, firstn_O.
      apply app_nil_r.
  - intros (k & _ & H). apply ends_with_iff in H.
    destruct H as [Hne [before H]]. split; [exact Hne|].
    exists before, (skipn k text).
    rewrite app_assoc, <- H. symmetry. apply firstn_skipn.
Qed.

(** The scan of a stream stops at the first place where one of two
    restart-safe patterns ends it, if there is one. *)
Lemma feed_first_hit (R E : list ascii) (step : ascii -> Scan -> Scan) :
  restart_safe R = true -> restart_safe E = true ->
  step = waitForResponse_scan R E \/ step = sendCommandWithResponse_scan R E ->
  forall bytes,
    let m := feed step bytes scan_init in
    (found m = false
     /\ forall k, (k <= List.length bytes)%nat ->
          ends_with R (firstn k bytes) = false
          /\ ends_with E (firstn k bytes) = false)
    \/ (found m = true
        /\ exists k, (k <= List.length bytes)%nat
             /\ ends_with R (firstn k bytes) || ends_with E (firstn k bytes)
                = true
             /\ error m = ends_with E (firstn k bytes)).
Proof.
  intros HR HE Hstep bytes. induction bytes as [|c b IH] using rev_ind.
  - left. cbn. split; [reflexivity|]. intros k Hk.
    rewrite firstn_nil, !ends_with_nil. auto.
  - cbv zeta in *. destruct IH as [[Hf Hq] | [Hf (k & Hk & Hhit & Herr)]].
    + destruct (feed_first_occurrence R E b c step HR HE Hq Hstep)
        as (_ & H2 & H3).
      destruct (ends_with R (b ++ [c]) || ends_with E (b ++ [c])) eqn:Hhit.
      * right. split; [exact H2|]. exists (List.length (b ++ [c])).
        rewrite firstn_all. split; [lia|]. split; [exact Hhit | exact H3].
      * left. split; [exact H2|]. intros k Hk.
        rewrite length_app in Hk. cbn [List.length] in Hk.
        destruct (Nat.eq_dec k (List.length b + 1)) as [->|Hne].
        -- replace (List.length b + 1)%nat with (List.length (b ++ [c]))
             by (rewrite length_app; reflexivity).
           rewrite firstn_all. apply orb_false_iff. exact Hhit.
        -- rewrite firstn_app.
           replace (k - List.length b)%nat with 0%nat by lia.
           rewrite firstn_O, app_nil_r. apply Hq. lia.
    + right. rewrite feed_app, (feed_found step [c]) by exact Hf.
      split; [exact Hf|]. exists k. rewrite length_app, firstn_app.
      replace (k - List.length b)%nat with 0%nat by lia.
      rewrite firstn_O, app_nil_r. split; [lia|]. split; assumption.
Qed.

Lemma verdict_by_arrival (R E : list ascii) (step : ascii -> Scan -> Scan)
    (bytes : list ascii) :
  restart_safe R = true -> restart_safe E = true ->
  step = waitForResponse_scan R E \/ step = sendCommandWithResponse_scan R E ->
  let m := feed step bytes scan_init in
  (found m = true <-> arrives R bytes \/ arrives E bytes)
  /\ (found m = true -> error m = false -> arrives R bytes)
  /\ (error m = true -> arrives E bytes).
Proof.
  intros HR HE Hstep m.
  assert (Herror : found m = false -> error m = false).
  { unfold m. destruct Hstep as [-> | ->];
      [rewrite waitForResponse_feed | rewrite sendCommandWithResponse_feed];
      unfold scan_of_spec, MatcherSpec.matched; cbn [found error];
      intros H; apply orb_false_iff in H; tauto. }
  destruct (feed_first_hit R E step HR HE Hstep bytes)
    as [[Hf Hq] | [Hf (k & Hk & Hhit & Herr)]]; fold m in Hf.
  - assert (Hno : forall p, p = R \/ p = E -> ~ arrives p bytes).
    { intros p Hp Ha. apply arrives_iff in Ha. destruct Ha as (k & Hk & Ha).
      destruct (Hq k Hk) as [H1 H2]. destruct Hp; subst p; congruence. }
    split; [split|split].
    + congruence.
    + intros [Ha | Ha]; exfalso; [apply (Hno R) | apply (Hno E)]; auto.
    + congruence.
    + intros He. rewrite Herror in He by exact Hf. discriminate.
  - fold m in Herr. split; [split|split].
    + intros _. apply orb_true_iff in Hhit. destruct Hhit as [H | H];
        [left | right]; apply arrives_iff; exists k; auto.
    + intros _. exact Hf.
    + intros _ He. rewrite He in Herr. rewrite <- Herr in Hhit.
      rewrite orb_false_r in Hhit. apply arrives_iff. exists k. auto.
    + intros He. rewrite He in Herr. apply arrives_iff. exists k. auto.
Qed.

Lemma expected_restart_safe (expectedResponse : option (list ascii)) :
  (forall r, expectedResponse = Some r -> restart_safe r = true) ->
  restart_safe (fst (expected expectedResponse)) = true
  /\ restart_safe (snd (expected expectedResponse)) = true.
Proof.
  destruct expectedResponse as [r|]; cbn [expected fst snd]; intros H.
  - split; [apply H; reflexivity | reflexivity].
  - split; vm_compute; reflexivity.
Qed.

(** X7.  Whatever [sendCommandWithResponse] answers, it goes by what
    arrived: for a restart-safe terminator (every one the library uses is),
    the answer is success or error exactly when the expected response or,
    for [LARA_R6_RESPONSE_OK_OR_ERROR], the text of ERROR occurs in the
    reply it read; success implies that the expected response occurs in
    it, error that ERROR does.  With a terminator given by name there is no
    error pattern: the answer is never [LARA_R6_ERROR_ERROR], and a reply
    of ERROR counts as an unexpected response. *)
Theorem sendCommandWithResponse_answers_by_what_arrived :
  forall (expectedResponse responseDest : option (list ascii))
         (commandTimeout destSize : Z) (s : LARA_R6) (w : World)
         (r : LARA_R6_error_t) (dest' : option (list ascii)) (s' : LARA_R6)
         (w' : World),
    sendCommandWithResponse_await expectedResponse responseDest commandTimeout
      destSize s w = Ok (r, dest', s', w') ->
    (forall t, expectedResponse = Some t -> restart_safe t = true) ->
    exists reply,
      wire w' = wire w ++ map Rx reply
      /\ (r = LARA_R6_ERROR_SUCCESS \/ r = LARA_R6_ERROR_ERROR <->
          arrives (fst (expected expectedResponse)) reply
          \/ arrives (snd (expected expectedResponse)) reply)
      /\ (r = LARA_R6_ERROR_SUCCESS ->
          arrives (fst (expected expectedResponse)) reply)
      /\ (r = LARA_R6_ERROR_ERROR ->
          expectedResponse = None /\ arrives LARA_R6_RESPONSE_ERROR reply).
Proof.
  intros expectedResponse responseDest commandTimeout destSize s w r dest'
    s' w' H Hsafe.
  apply sendCommandWithResponse_await_returns in H.
  destruct H as (reply & Hw & _ & _ & Hr). exists reply.
  split; [exact Hw|]. cbv zeta in Hr.
  destruct (expected_restart_safe expectedResponse Hsafe) as [HR HE].
  destruct (verdict_by_arrival _ _ _ reply HR HE (or_intror eq_refl))
    as (Hfound & Hsuccess & Herror).
  set (m := feed _ reply scan_init) in *.
  assert (Hcases :
            (found m = true /\ error m = true /\ r = LARA_R6_ERROR_ERROR)
            \/ (found m = true /\ error m = false
                /\ r = LARA_R6_ERROR_SUCCESS)
            \/ (found m = false /\ r <> LARA_R6_ERROR_SUCCESS
                /\ r <> LARA_R6_ERROR_ERROR)).
  { destruct (found m); [destruct (error m)|]; [auto | auto |].
    right; right. split; [reflexivity|].
    destruct (charsRead _ =? 0); subst r; split; discriminate. }
  assert (Hnone : arrives (snd (expected expectedResponse)) reply ->
                  expectedResponse = None
                  /\ arrives LARA_R6_RESPONSE_ERROR reply).
  { destruct expectedResponse as [t|]; cbn [expected snd]; [|auto].
    intros [Hne _]. congruence. }
  destruct Hcases as [(Hf & He & ->) | [(Hf & He & ->) | (Hf & Hn1 & Hn2)]].
  - split; [split|split].
    + intros _. apply Hfound. exact Hf.
    + auto.
    + discriminate.
    + intros _. apply Hnone, Herror, He.
  - split; [split|split].
    + intros _. apply Hfound. exact Hf.
    + auto.
    + intros _. apply Hsuccess; assumption.
    + discriminate.
  - split; [split|split].
    + intros [->| ->]; congruence.
    + intros Ha. apply Hfound in Ha. congruence.
    + congruence.
    + congruence.
Qed.

Lemma sendCommandWithResponse_answers_by_what_arrived_witness :
  let w := mkWorld (repeat 0 10 ++ [2000])
             (map Some LARA_R6_RESPONSE_ERROR) [] in
  exists dest' s' w',
    sendCommandWithResponse_await (Some LARA_R6_RESPONSE_OK) None 1000 128
      LARA_R6_new w
    = Ok (LARA_R6_ERROR_UNEXPECTED_RESPONSE, dest', s', w')
    /\ exists reply,
         wire w' = map Rx reply
         /\ (LARA_R6_ERROR_UNEXPECTED_RESPONSE = LARA_R6_ERROR_SUCCESS
             \/ LARA_R6_ERROR_UNEXPECTED_RESPONSE = LARA_R6_ERROR_ERROR <->
             arrives LARA_R6_RESPONSE_OK reply \/ arrives [] reply).
Proof.
  intros w.
  evar (dest' : option (list ascii)). evar (s' : LARA_R6). evar (w' : World).
  assert (Hrun : sendCommandWithResponse_await (Some LARA_R6_RESPONSE_OK) None
                   1000 128 LARA_R6_new w
                 = Ok (LARA_R6_ERROR_UNEXPECTED_RESPONSE, dest', s', w'))
    by (vm_compute; reflexivity).
  exists dest', s', w'. split; [exact Hrun|].
  destruct (sendCommandWithResponse_answers_by_what_arrived
              (Some LARA_R6_RESPONSE_OK) None 1000 128 LARA_R6_new w
              _ _ _ _ Hrun) as (reply & Hw & Hiff & _).
  - intros t Ht. injection Ht as <-. vm_compute. reflexivity.
  - exists reply. split; [exact Hw | exact Hiff].
Defined.

(** * A silent port, and a reply that ends with the terminator *)

Lemma waitForResponse_loop_quiet (R E : list ascii) (deadline t : Z)
    (post : list Z) (io : list IO) (m : Scan) (s : LARA_R6) :
  found m = false ->
  (deadline >? wrap32 t) = false ->
  forall (pre : list Z) (quiet : list (option ascii)),
    Forall (fun t => (deadline >? wrap32 t) = true) pre ->
    Forall (eq None) quiet ->
    waitForResponse_loop R E deadline (pre ++ t :: post) quiet io m s
    = Ok (m, s, mkWorld post (skipn (List.length pre) quiet) io).
Proof.
  intros Hf Ht. induction pre as [|p pre IH]; intros quiet Hpre Hq;
    cbn [app waitForResponse_loop]; rewrite Hf.
  - rewrite Ht. reflexivity.
  - inversion Hpre as [|? ? Hp Hpre']; subst. rewrite Hp.
    destruct quiet as [|[c|] quiet]; cbn [hwAvailable readChar List.length skipn].
    + rewrite (IH [] Hpre' Hq). now rewrite skipn_nil.
    + inversion Hq; subst. discriminate.
    + inversion Hq; subst. apply IH; assumption.
Qed.

Lemma sendCommandWithResponse_loop_quiet (R E : list ascii)
    (deadline destSize t : Z) (post : list Z) (io : list IO) (m : Scan)
    (k : Capture) (s : LARA_R6) :
  found m = false ->
  (deadline >? wrap32 t) = false ->
  forall (pre : list Z) (quiet : list (option ascii)),
    Forall (fun t => (deadline >? wrap32 t) = true) pre ->
    Forall (eq None) quiet ->
    sendCommandWithResponse_loop R E deadline destSize (pre ++ t :: post)
      quiet io m k s
    = Ok (m, k, s, mkWorld post (skipn (List.length pre) quiet) io).
Proof.
  intros Hf Ht. induction pre as [|p pre IH]; intros quiet Hpre Hq;
    cbn [app sendCommandWithResponse_loop]; rewrite Hf.
  - rewrite Ht. reflexivity.
  - inversion Hpre as [|? ? Hp Hpre']; subst. rewrite Hp.
    destruct quiet as [|[c|] quiet]; cbn [hwAvailable readChar List.length skipn].
    + rewrite (IH [] Hpre' Hq). now rewrite skipn_nil.
    + inversion Hq; subst. discriminate.
    + inversion Hq; subst. apply IH; assumption.
Qed.

Lemma not_true_false (b : bool) : b <> true -> b = false.
Proof. destruct b; congruence. Qed.

(** X8.  On a port where nothing arrives, a wait polls the port once at
    every reading of the clock that is before its deadline and gives up
    at the first reading that is not, with [LARA_R6_ERROR_NO_RESPONSE]:
    the backlog is pruned, the caller's buffer is untouched, and, when
    the deadline did not wrap around, at least the timeout has passed. *)
Theorem waits_run_their_timeout_on_a_silent_port :
  forall (expectedResponse expectedError : list ascii)
         (expectedOrNull responseDest : option (list ascii))
         (timeout commandTimeout destSize : Z) (s : LARA_R6)
         (t0 : Z) (pre : list Z) (t : Z) (post : list Z)
         (quiet : list (option ascii)) (io : list IO),
    Forall (eq None) quiet ->
    let w := mkWorld (t0 :: pre ++ t :: post) quiet io in
    let w' := mkWorld post (skipn (List.length pre) quiet) io in
    (Forall (before_deadline t0 timeout) pre ->
     ~ before_deadline t0 timeout t ->
     waitForResponse expectedResponse expectedError timeout s w
     = Ok (LARA_R6_ERROR_NO_RESPONSE, pruneBacklog s, w')
     /\ (wrap32 t0 + timeout mod 2 ^ 16 < 2 ^ 32 ->
         timeout mod 2 ^ 16 <= wrap32 t - wrap32 t0))
    /\ (Forall (before_command_deadline t0 commandTimeout) pre ->
        ~ before_command_deadline t0 commandTimeout t ->
        sendCommandWithResponse_await expectedOrNull responseDest
          commandTimeout destSize s w
        = Ok (LARA_R6_ERROR_NO_RESPONSE, responseDest, pruneBacklog s, w')
        /\ (wrap32 t0 + wrap32 commandTimeout < 2 ^ 32 ->
            wrap32 commandTimeout <= wrap32 t - wrap32 t0)).
Proof.
  intros R E e responseDest timeout commandTimeout destSize s t0 pre t post
    quiet io Hq w w'.
  assert (H32 : 0 <= wrap32 t0 < 2 ^ 32)
    by (unfold wrap32; apply Z.mod_pos_bound; lia).
  split; intros Hpre Ht.
  - unfold before_deadline in Hpre, Ht. apply not_true_false in Ht.
    split.
    + unfold waitForResponse, w. cbn [clock uart wire].
      rewrite (waitForResponse_loop_quiet R E _ t post io scan_init s
                 eq_refl Ht pre quiet Hpre Hq).
      reflexivity.
    + intros Hno. rewrite wrap32_small in Ht.
      * rewrite Z.gtb_ltb in Ht. apply Z.ltb_ge in Ht. lia.
      * pose proof (Z.mod_pos_bound timeout (2 ^ 16) ltac:(lia)). lia.
  - unfold before_command_deadline in Hpre, Ht. apply not_true_false in Ht.
    split.
    + unfold sendCommandWithResponse_await, w. cbn [clock uart wire].
      rewrite (sendCommandWithResponse_loop_quiet _ _ _ destSize t post io
                 scan_init (mkCapture responseDest 0 0) s eq_refl Ht pre
                 quiet Hpre Hq).
      reflexivity.
    + intros Hno. rewrite wrap32_small in Ht.
      * rewrite Z.gtb_ltb in Ht. apply Z.ltb_ge in Ht. lia.
      * pose proof (Z.mod_pos_bound commandTimeout (2 ^ 32) ltac:(lia)).
        unfold wrap32 at 2. lia.
Qed.

Lemma waits_run_their_timeout_on_a_silent_port_witness :
  Forall (eq None) [None; None; None] (A := option ascii)
  /\ Forall (before_deadline 5 1000) [6; 500; 1004]
  /\ ~ before_deadline 5 1000 1005
  /\ waitForResponse LARA_R6_RESPONSE_OK LARA_R6_RESPONSE_ERROR 1000
       LARA_R6_new (mkWorld [5; 6; 500; 1004; 1005; 1006] [None; None; None] [])
     = Ok (LARA_R6_ERROR_NO_RESPONSE, pruneBacklog LARA_R6_new,
           mkWorld [1006] [] [])
  /\ 1000 mod 2 ^ 16 <= wrap32 1005 - wrap32 5.
Proof.
  assert (Hq : Forall (eq None) [None; None; None] (A := option ascii))
    by (repeat constructor).
  assert (Hpre : Forall (before_deadline 5 1000) [6; 500; 1004])
    by (repeat constructor).
  assert (Ht : ~ before_deadline 5 1000 1005) by (vm_compute; discriminate).
  destruct (waits_run_their_timeout_on_a_silent_port LARA_R6_RESPONSE_OK
              LARA_R6_RESPONSE_ERROR None None 1000 1000 128 LARA_R6_new
              5 [6; 500; 1004] 1005 [1006] [None; None; None] [] Hq)
    as [Hwait _].
  destruct (Hwait Hpre Ht) as [Hrun Hlate].
  repeat split; try assumption.
  apply Hlate. vm_compute. reflexivity.
Defined.

(** * A command and its reply *)

(** The loop of [sendCommandWithResponse] on a reply that the scan takes
    to its last byte. *)
Lemma sendCommandWithResponse_await_reads
    (expectedResponse responseDest : option (list ascii))
    (commandTimeout destSize : Z) (s : LARA_R6) (t1 : Z) (ticks rest : list Z)
    (before : list ascii) (c : ascii) (more : list (option ascii))
    (io : list IO) :
  let step := sendCommandWithResponse_scan (fst (expected expectedResponse))
                (snd (expected expectedResponse)) in
  let reply := before ++ [c] in
  List.length ticks = List.length reply ->
  Forall (before_command_deadline t1 commandTimeout) ticks ->
  found (feed step before scan_init) = false ->
  found (feed step reply scan_init) = true ->
  sendCommandWithResponse_await expectedResponse responseDest commandTimeout
    destSize s (mkWorld (t1 :: ticks ++ rest) (map Some reply ++ more) io)
  = Ok (if error (feed step reply scan_init)
        then LARA_R6_ERROR_ERROR else LARA_R6_ERROR_SUCCESS,
        dest (fold_left (fun k c => capture destSize c k) reply
                (mkCapture responseDest 0 0)),
        pruneBacklog (fold_left (fun s c => mirror c s) reply s),
        mkWorld rest more (io ++ map Rx reply)).
Proof.
  intros step reply Hlen Hticks Hbefore Hfound.
  unfold sendCommandWithResponse_await. cbn [clock uart wire].
  assert (Hfold : fold_left (fun m c => step c m) reply scan_init
                  = feed step reply scan_init).
  { unfold reply. rewrite fold_left_app, feed_app. cbn [fold_left].
    rewrite <- (feed_fold_left step before scan_init Hbefore).
    cbn [feed]. rewrite Hbefore. reflexivity. }
  rewrite (sendCommandWithResponse_loop_reads _ _ _ destSize rest more reply
             ticks io scan_init (mkCapture responseDest 0 0) s Hlen).
  - fold step. rewrite Hfold.
    rewrite sendCommandWithResponse_loop_found by exact Hfound.
    cbn [bind]. rewrite Hfound. reflexivity.
  - exact Hticks.
  - intros n Hn. fold step.
    assert (Hpre : firstn n reply = firstn n before).
    { unfold reply in *. rewrite length_app in Hn. cbn [List.length] in Hn.
      rewrite firstn_app.
      replace (n - List.length before)%nat with 0%nat by lia.
      rewrite firstn_O. apply app_nil_r. }
    rewrite Hpre. apply feed_prefix_unfound. exact Hbefore.
Qed.

Lemma sendCommand_on_a_quiet_port (command : list ascii) (at_ : bool)
    (s : LARA_R6) (t0 : Z) (clock1 : list Z) (uart1 : list (option ascii))
    (io : list IO) :
  sendCommand command at_ s (mkWorld (t0 :: clock1) (None :: uart1) io)
  = Ok (s, mkWorld clock1 uart1 (io ++ map Tx (command_line command at_))).
Proof.
  unfold sendCommand. cbn [clock uart wire hwAvailable bind].
  destruct at_; unfold hwPrint, command_line; cbn [clock uart wire];
    rewrite ?map_app, <- ?app_assoc; reflexivity.
Qed.

(** A command on a quiet port and a reply that ends with the terminator. *)
Lemma sendCommandWithResponse_transaction :
  forall (command : list ascii) (expectedResponse responseDest : option (list ascii))
         (commandTimeout destSize : Z) (at_ : bool) (s : LARA_R6)
         (t0 t1 : Z) (ticks rest : list Z) (before : list ascii) (c : ascii)
         (more : list (option ascii)) (io : list IO),
    let R := fst (expected expectedResponse) in
    let E := snd (expected expectedResponse) in
    let reply := before ++ [c] in
    (forall t, expectedResponse = Some t -> restart_safe t = true) ->
    (forall k, (k <= List.length before)%nat ->
       ends_with R (firstn k before) = false
       /\ ends_with E (firstn k before) = false) ->
    ends_with R reply || ends_with E reply = true ->
    List.length ticks = List.length reply ->
    Forall (before_command_deadline t1 commandTimeout) ticks ->
    sendCommandWithResponse command expectedResponse responseDest
      commandTimeout destSize at_ s
      (mkWorld (t0 :: t1 :: ticks ++ rest) (None :: map Some reply ++ more) io)
    = Ok (if ends_with E reply
          then LARA_R6_ERROR_ERROR else LARA_R6_ERROR_SUCCESS,
          option_map
            (fun d => firstn (Z.to_nat destSize) reply
                      ++ skipn (Nat.min (Z.to_nat destSize) (List.length reply))
                           d)
            responseDest,
          pruneBacklog (fold_left (fun s c => mirror c s) reply s),
          mkWorld rest more
            (io ++ map Tx (command_line command at_) ++ map Rx reply)).
Proof.
  intros command e responseDest commandTimeout destSize at_ s t0 t1 ticks
    rest before c more io R E reply Hsafe Hq Hhit Hlen Hticks.
  destruct (expected_restart_safe e Hsafe) as [HR HE].
  destruct (feed_first_occurrence R E before c
              (sendCommandWithResponse_scan R E) HR HE Hq (or_intror eq_refl))
    as (H1 & H2 & H3).
  fold reply in H2, H3. rewrite Hhit in H2.
  unfold sendCommandWithResponse.
  rewrite sendCommand_on_a_quiet_port. cbn [bind].
  rewrite (sendCommandWithResponse_await_reads e responseDest commandTimeout
             destSize s t1 ticks rest before c more _ Hlen Hticks H1 H2).
  fold R E reply. rewrite H3, <- app_assoc. do 4 f_equal.
  destruct responseDest as [d0|]; cbn [option_map].
  - pose proof (capture_fold destSize d0 reply [] 0) as Hc.
    cbn [List.length app Z.of_nat] in Hc.
    rewrite firstn_nil, Nat.min_0_r in Hc. cbn [app skipn] in Hc.
    exact Hc.
  - apply capture_fold_null.
Qed.

(** X9.  A command is sent on a quiet port.  The reply comes to end with
    the expected response (or with ERROR, for
    [LARA_R6_RESPONSE_OK_OR_ERROR]), neither having ended it before; a
    terminator given by name is restart-safe, as every terminator of the
    library is (for one that is not, such as [aab] on the reply [aaab],
    the matcher misses the occurrence); a byte of the reply waits at
    every poll of the wait, and every poll is before the deadline.  Then
    [sendCommandWithResponse] writes the command, reads the reply up to
    its last byte and returns at once, with success or protocol error
    according to which pattern ended the reply.  The clock readings and
    the bytes that follow are left for the caller; the reply went to the
    caller's buffer and, through the backlog, to the pruner. *)
Theorem sendCommandWithResponse_returns_at_the_terminator :
  forall (command : list ascii) (expectedResponse responseDest : option (list ascii))
         (commandTimeout destSize : Z) (at_ : bool) (s : LARA_R6)
         (t0 t1 : Z) (ticks rest : list Z) (before : list ascii) (c : ascii)
         (more : list (option ascii)) (io : list IO),
    let R := fst (expected expectedResponse) in
    let E := snd (expected expectedResponse) in
    let reply := before ++ [c] in
    (forall t, expectedResponse = Some t -> restart_safe t = true) ->
    (forall k, (k <= List.length before)%nat ->
       ends_with R (firstn k before) = false
       /\ ends_with E (firstn k before) = false) ->
    ends_with R reply || ends_with E reply = true ->
    List.length ticks = List.length reply ->
    Forall (before_command_deadline t1 commandTimeout) ticks ->
    sendCommandWithResponse command expectedResponse responseDest
      commandTimeout destSize at_ s
      (mkWorld (t0 :: t1 :: ticks ++ rest) (None :: map Some reply ++ more) io)
    = Ok (if ends_with E reply
          then LARA_R6_ERROR_ERROR else LARA_R6_ERROR_SUCCESS,
          option_map
            (fun d => firstn (Z.to_nat destSize) reply
                      ++ skipn (Nat.min (Z.to_nat destSize) (List.length reply))
                           d)
            responseDest,
          pruneBacklog (fold_left (fun s c => mirror c s) reply s),
          mkWorld rest more
            (io ++ map Tx (command_line command at_) ++ map Rx reply)).
Proof.
  intros command e responseDest commandTimeout destSize at_ s t0 t1 ticks
    rest before c more io R E reply Hsafe Hq Hhit Hlen Hticks.
  exact (sendCommandWithResponse_transaction command e responseDest
           commandTimeout destSize at_ s t0 t1 ticks rest before c more io
           Hsafe Hq Hhit Hlen Hticks).
Qed.

Lemma sendCommandWithResponse_returns_at_the_terminator_witness :
  let before := [CR; LF] ++ chars "+CSQ: 9,1" ++ [CR; LF; CR; LF]
                ++ chars "OK" ++ [CR] in
  sendCommandWithResponse (chars "+CSQ") None (Some []) 1000 128 true
    LARA_R6_new
    (mkWorld (0 :: 1 :: repeat 2 19 ++ [7; 8])
       (None :: map Some (before ++ [LF]) ++ [Some "+"%char]) [])
  = Ok (LARA_R6_ERROR_SUCCESS, Some (before ++ [LF]),
        pruneBacklog (fold_left (fun s c => mirror c s) (before ++ [LF])
                        LARA_R6_new),
        mkWorld [7; 8] [Some "+"%char]
          (map Tx (chars "AT+CSQ" ++ [CR; LF]) ++ map Rx (before ++ [LF]))).
Proof.
  intros before.
  pose proof (sendCommandWithResponse_returns_at_the_terminator (chars "+CSQ")
                None (Some []) 1000 128 true LARA_R6_new 0 1 (repeat 2 19)
                [7; 8] before LF [Some "+"%char] []) as H.
  cbv zeta in H. rewrite H.
  - reflexivity.
  - intros t Ht. discriminate Ht.
  - intros k Hk.
    do 19 (destruct k as [|k]; [split; reflexivity|]).
    simpl in Hk. lia.
  - reflexivity.
  - reflexivity.
  - repeat constructor.
Defined.

(** X10.  Whatever [at()] answers, what it wrote is AT CR LF and nothing
    else, written after whatever it read first and before the reply it
    read; it gave no buffer; and it answers
    success exactly when the text of OK occurs in the reply it read,
    never [LARA_R6_ERROR_ERROR]: for [at()] a reply of ERROR is an
    unexpected response. *)
Theorem at_answers_success_only_for_OK :
  forall (s : LARA_R6) (w : World) (r : LARA_R6_error_t)
         (dest' : option (list ascii)) (s' : LARA_R6) (w' : World),
    LARA_R6_at s w = Ok (r, dest', s', w') ->
    backlog_ok s ->
    exists drained reply,
      wire w'
      = wire w ++ map Rx drained ++ map Tx (chars "AT" ++ [CR; LF])
        ++ map Rx reply
      /\ sent (wire w') = sent (wire w) ++ chars "AT" ++ [CR; LF]
      /\ dest' = None
      /\ (r = LARA_R6_ERROR_SUCCESS <-> arrives LARA_R6_RESPONSE_OK reply)
      /\ r <> LARA_R6_ERROR_ERROR.
Proof.
  intros s w r dest' s' w' H Hok.
  unfold LARA_R6_at, sendCommandWithResponse, bind in H.
  destruct (sendCommand [] true s w) as [[s1 w1]|] eqn:Hsend; [|discriminate].
  apply sendCommand_returns in Hsend; [|exact Hok].
  destruct Hsend as (drained & Hw1 & _ & _).
  pose proof (sendCommandWithResponse_await_returns _ _ _ _ _ _ _ _ _ _ H)
    as (reply & Hw & _ & Hd & Hr).
  exists drained, reply.
  assert (Hwire : wire w'
                  = wire w ++ map Rx drained ++ map Tx (chars "AT" ++ [CR; LF])
                    ++ map Rx reply).
  { rewrite Hw, Hw1, <- !app_assoc. reflexivity. }
  split; [exact Hwire|].
  assert (Hsent : forall l1 l2, sent (l1 ++ l2) = sent l1 ++ sent l2).
  { induction l1 as [|[x|x] l1 IH]; intros l2; cbn [app sent];
      rewrite ?IH; reflexivity. }
  assert (Hrx : forall l, sent (map Rx l) = []).
  { induction l as [|x l IH]; cbn; auto. }
  assert (Htx : forall l, sent (map Tx l) = l).
  { induction l as [|x l IH]; cbn; [|rewrite IH]; auto. }
  split.
  { rewrite Hwire, !Hsent, !Hrx, Htx, app_nil_r. reflexivity. }
  split.
  { rewrite Hd. apply capture_fold_null. }
  cbv zeta in Hr. cbn [expected fst snd] in Hr.
  destruct (verdict_by_arrival LARA_R6_RESPONSE_OK [] _ reply eq_refl eq_refl
              (or_intror eq_refl)) as (Hfound & Hsuccess & Herror).
  set (m := feed _ reply scan_init) in *.
  assert (He : error m = false).
  { destruct (error m) eqn:He; [|reflexivity].
    destruct (Herror eq_refl) as [Hne _]. congruence. }
  rewrite He in Hr.
  destruct (found m) eqn:Hf.
  - subst r. split; [|discriminate]. split; [|reflexivity].
    intros _. apply Hsuccess; [reflexivity | exact He].
  - assert (Hn : ~ arrives LARA_R6_RESPONSE_OK reply).
    { intros Ha. assert (false = true); [|discriminate]. apply Hfound. auto. }
    destruct (charsRead _ =? 0); subst r;
      (split; [split; [discriminate | intros Ha; contradiction]
              | discriminate]).
Qed.

Lemma at_answers_success_only_for_OK_witness :
  let w := mkWorld (repeat 0 11 ++ [2000])
             (None :: map Some LARA_R6_RESPONSE_ERROR) [] in
  backlog_ok LARA_R6_new
  /\ exists s' w',
       LARA_R6_at LARA_R6_new w
       = Ok (LARA_R6_ERROR_UNEXPECTED_RESPONSE, None, s', w')
       /\ sent (wire w') = chars "AT" ++ [CR; LF].
Proof.
  intros w. split; [reflexivity|].
  evar (s' : LARA_R6). evar (w' : World).
  assert (Hrun : LARA_R6_at LARA_R6_new w
                 = Ok (LARA_R6_ERROR_UNEXPECTED_RESPONSE, None, s', w'))
    by (vm_compute; reflexivity).
  exists s', w'. split; [exact Hrun|].
  destruct (at_answers_success_only_for_OK LARA_R6_new w _ _ _ _ Hrun eq_refl)
    as (drained & reply & _ & Hsent & _).
  exact Hsent.
Defined.

(** * [bufferedPoll]: the backlog first, then the port *)

Lemma last_cons (A : Type) (l : list A) :
  forall a d : A, last (a :: l) d = last l a.
Proof.
  induction l as [|b l IH]; intros a d; [reflexivity|].
  change (last (a :: b :: l) d) with (last (b :: l) d).
  rewrite (IH b d), (IH b a). reflexivity.
Qed.

Lemma bufferedPoll_read_reads (bytes : list ascii) :
  forall (since : Z) (burst : list (Z * Z)) (rest : list Z)
         (uart : list (option ascii)) (io : list IO) (laraRXBuffer : list ascii),
    List.length burst = List.length bytes ->
    within_window since burst ->
    Z.of_nat (List.length laraRXBuffer) + Z.of_nat (List.length bytes)
    <= _RXBuffSize ->
    bufferedPoll_read (wrap32 since) (readings burst ++ rest)
      (map Some bytes ++ uart) io laraRXBuffer
      (Z.of_nat (List.length laraRXBuffer))
    = bufferedPoll_read (wrap32 (last_reading since burst)) rest uart
        (io ++ map Rx bytes) (laraRXBuffer ++ map nul_to_zero bytes)
        (Z.of_nat (List.length laraRXBuffer)
         + Z.of_nat (List.length bytes)).
Proof.
  induction bytes as [|c bytes IH];
    intros since burst rest uart io buf Hlen Hwin Hroom.
  - destruct burst; [|discriminate]. cbn [readings map app List.length].
    unfold last_reading. cbn [map last]. rewrite !app_nil_r, Z.add_0_r.
    reflexivity.
  - destruct burst as [|[test restart] burst]; [discriminate|].
    cbn [readings map app List.length] in *. destruct Hwin as [Hopen Hwin].
    cbn [bufferedPoll_read hwAvailable readChar]. rewrite Hopen.
    assert (Hlt : (Z.of_nat (List.length buf) <? _RXBuffSize) = true)
      by (apply Z.ltb_lt; lia).
    rewrite Hlt. cbn [andb].
    rewrite store_at_end.
    replace (Z.of_nat (List.length buf) + 1)
      with (Z.of_nat (List.length (buf ++ [nul_to_zero c])))
      by (rewrite length_app; cbn [List.length]; lia).
    rewrite IH; [|congruence|exact Hwin|
                 rewrite length_app; cbn [List.length]; lia].
    rewrite <- !app_assoc. cbn [app]. rewrite length_app. cbn [List.length].
    f_equal.
    + unfold last_reading. cbn [map snd]. rewrite last_cons. reflexivity.
    + lia.
Qed.

Lemma processURCEvent_leaves_no_backlog run (event : list ascii)
    (s : LARA_R6) (w : World) (h : bool) (s' : LARA_R6) (w' : World) :
  leaves_no_backlog run ->
  processURCEvent run event s w = Ok (h, s', w') ->
  _laraResponseBacklogLength s <= 0 -> _laraResponseBacklogLength s' <= 0.
Proof.
  intros Hrun H HL. unfold processURCEvent, bind in H.
  destruct (first_return (decoders s) event) as [[|[call|]]|]; try discriminate.
  - injection H as <- <- <-. exact HL.
  - destruct (run call s w) as [[s1 w1]|] eqn:Hcall; [|discriminate].
    injection H as <- <- <-. exact (Hrun call s w s1 w1 Hcall HL).
  - injection H as <- <- <-. exact HL.
Qed.

(** The loop over the events, when no decoder leaves a backlog. *)
Lemma bufferedPoll_events_dispatch run (lines : list (list ascii)) :
  leaves_no_backlog run ->
  Forall is_line lines ->
  forall (fuel : nat) (avail : Z) (handled : bool) (s : LARA_R6) (w : World),
    (List.length lines < fuel)%nat ->
    _laraResponseBacklogLength s <= 0 ->
    bufferedPoll_events run fuel (Some (terminated lines)) avail handled s w
    = dispatch run lines handled s w.
Proof.
  intros Hrun Hlines. induction Hlines as [|line lines Hline Hlines IH];
    intros fuel avail handled s w Hfuel HL.
  - destruct fuel; [cbn in Hfuel; lia|]. reflexivity.
  - destruct fuel; [cbn in Hfuel; lia|]. cbn [List.length] in Hfuel.
    rewrite terminated_cons. cbn [bufferedPoll_events dispatch].
    rewrite (strtok_r_line line CR _ Hline is_delim_CR).
    destruct (processURCEvent run line s w) as [[[h s1] w1]|f] eqn:Hp;
      [|reflexivity].
    cbn [bind].
    pose proof (processURCEvent_leaves_no_backlog run line s w h s1 w1 Hrun
                  Hp HL) as HL1.
    assert (Hz : (_laraResponseBacklogLength s1 >? 0) = false).
    { rewrite Z.gtb_ltb. apply Z.ltb_ge. exact HL1. }
    rewrite Hz. cbn [andb].
    rewrite (bufferedPoll_events_skips_delim run _ LF _ _ _ _ _ is_delim_LF).
    rewrite IH by (assumption || lia).
    destruct h; reflexivity.
Qed.

Lemma terminated_length_ge (lines : list (list ascii)) :
  lines <> [] -> (0 < List.length (terminated lines))%nat.
Proof.
  destruct lines as [|line lines]; [congruence|]. intros _.
  rewrite terminated_cons, length_app. cbn [List.length]. lia.
Qed.

(** X11.  [bufferedPoll] takes the lines of the backlog, then the lines
    that arrive on the port in one burst, the whole fitting in
    [_laraRXBuffer] with its terminating NUL; once the port is quiet and
    a reading of the clock finds the window over, it hands every line to
    [processURCEvent] once, in that order, the backlog emptied
    beforehand and the guard set; it answers whether any of them was
    handled and releases the guard.  The helpers and callbacks are taken
    to leave no backlog of their own. *)
Theorem bufferedPoll_dispatches_every_line_once :
  forall run (backlogged arriving : list (list ascii)) (s : LARA_R6)
         (t0 : Z) (burst : list (Z * Z)) (pre : list Z) (t1 : Z)
         (more : list Z) (quiet : list (option ascii)) (io : list IO),
    leaves_no_backlog run ->
    Forall is_line backlogged -> Forall is_line arriving ->
    _laraResponseBacklog s = terminated backlogged ->
    backlog_ok s ->
    _bufferedPollReentrant s = false ->
    strlen (terminated backlogged) + strlen (terminated arriving)
    < _RXBuffSize ->
    List.length burst = List.length (terminated arriving) ->
    within_window t0 burst ->
    window_over (last_reading t0 burst) t1 ->
    Forall (eq None) quiet ->
    exists w1,
      wire w1 = io ++ map Rx (terminated arriving)
      /\ bufferedPoll run s
           (mkWorld (t0 :: readings burst ++ pre ++ t1 :: more)
                    (map Some (terminated arriving) ++ quiet) io)
         = ('(handled, s', w') <-
              dispatch run (backlogged ++ arriving) false
                (set_backlog [] 0 (set_bufferedPollReentrant true s)) w1 ;;
            Ok (handled, set_bufferedPollReentrant false s', w')).
Proof.
  intros run backlogged arriving s t0 burst pre t1 more quiet io
    Hrun Hb Ha Hbacklog Hok Hre Hroom Hburst Hwin Hover Hquiet.
  pose proof Hok as HL. unfold backlog_ok in HL. rewrite Hbacklog in HL.
  assert (Hnul : map nul_to_zero (terminated arriving) = terminated arriving).
  { apply nul_to_zero_nul_free, terminated_nul_free. exact Ha. }
  assert (Hall : Forall is_line (backlogged ++ arriving)).
  { apply Forall_app. auto. }
  assert (Hfuel : (List.length (backlogged ++ arriving)
                   < S (Z.to_nat _RXBuffSize))%nat).
  { pose proof (terminated_length (backlogged ++ arriving)) as Hle.
    rewrite terminated_app, !length_app in Hle. rewrite length_app.
    pose proof Hroom as Hr. unfold strlen, _RXBuffSize in Hr |- *. lia. }
  (* the empty buffer and the copy of the backlog are the same array *)
  assert (Hcopy :
    (if _laraResponseBacklogLength (set_bufferedPollReentrant true s) >? 0
     then (memcpy [] 0 (_laraResponseBacklog (set_bufferedPollReentrant true s))
                  (_laraResponseBacklogLength (set_bufferedPollReentrant true s)),
           _laraResponseBacklogLength (set_bufferedPollReentrant true s),
           set_backlog [] 0 (set_bufferedPollReentrant true s))
     else ([], 0, set_bufferedPollReentrant true s))
    = (terminated backlogged, Z.of_nat (List.length (terminated backlogged)),
       set_backlog [] 0 (set_bufferedPollReentrant true s))).
  { cbn [_laraResponseBacklogLength _laraResponseBacklog
         set_bufferedPollReentrant].
    rewrite Hbacklog, HL.
    destruct (Z.of_nat (List.length (terminated backlogged)) >? 0) eqn:Hpos.
    - rewrite memcpy_fresh. reflexivity.
    - rewrite Z.gtb_ltb in Hpos. apply Z.ltb_ge in Hpos.
      assert (Hnil : terminated backlogged = []).
      { destruct (terminated backlogged); [reflexivity | cbn in Hpos; lia]. }
      rewrite Hnil. cbn [List.length Z.of_nat].
      unfold set_backlog, set_bufferedPollReentrant.
      cbn [_pruneBuffer _bufferedPollReentrant _lastSocketProtocol callbacks
           _laraResponseBacklog _laraResponseBacklogLength].
      rewrite Hbacklog, Hnil. do 2 f_equal.
      f_equal. rewrite HL, Hnil. reflexivity. }
  assert (Hs0 : _laraResponseBacklogLength
                  (set_backlog [] 0 (set_bufferedPollReentrant true s)) <= 0)
    by (cbn; lia).
  (* what the port shows at the first test, and the stream from then on *)
  assert (Hav : exists quiet1,
            Forall (eq None) quiet1
            /\ (arriving <> [] ->
                hwAvailable (map Some (terminated arriving) ++ quiet)
                = (true, map Some (terminated arriving) ++ quiet))
            /\ (arriving = [] ->
                hwAvailable (map Some (terminated arriving) ++ quiet)
                = (false, quiet1))).
  { destruct arriving as [|line arriving].
    - cbn [terminated map List.concat app].
      destruct quiet as [|[c|] q].
      + exists []. repeat split; auto; congruence.
      + inversion Hquiet as [|? ? Hc _]. discriminate Hc.
      + exists q. inversion Hquiet; subst. repeat split; auto; congruence.
    - exists quiet. split; [exact Hquiet|]. split; [|discriminate].
      intros _. rewrite terminated_cons.
      inversion Ha as [|? ? [Hne _] _]; subst.
      destruct line as [|c line]; [congruence|]. reflexivity. }
  destruct Hav as (quiet1 & Hquiet1 & Hsome & Hnone).
  unfold bufferedPoll. rewrite Hre. cbn [clock uart wire].
  rewrite Hcopy.
  destruct arriving as [|line0 arriving0] eqn:Harr.
  - (* nothing arrives: only the backlog, if any *)
    rewrite (Hnone eq_refl). cbn [orb].
    destruct burst; [|discriminate]. cbn [readings app].
    cbn [terminated map List.concat app]. rewrite app_nil_r.
    cbn [_laraResponseBacklogLength set_bufferedPollReentrant].
    rewrite HL.
    destruct (Z.of_nat (List.length (terminated backlogged)) >? 0) eqn:Hpos.
    + unfold last_reading in Hover. cbn [map last] in Hover.
      destruct (bufferedPoll_read_quiet t0 t1 more io (terminated backlogged)
                  (Z.of_nat (List.length (terminated backlogged))) Hover pre
                  quiet1 Hquiet1) as (clock' & quiet' & Hread & _).
      rewrite Hread. cbn [bind].
      exists (mkWorld clock' quiet' io). split; [reflexivity|].
      rewrite (bufferedPoll_events_dispatch run backlogged Hrun Hb)
        by (rewrite app_nil_r in Hfuel; assumption || exact Hs0).
      rewrite app_nil_r. reflexivity.
    + rewrite Z.gtb_ltb in Hpos. apply Z.ltb_ge in Hpos.
      assert (Hnil : backlogged = []).
      { destruct backlogged as [|l ls]; [reflexivity|].
        pose proof (terminated_length_ge (l :: ls) ltac:(discriminate)). lia. }
      subst backlogged. cbn [app dispatch bind].
      eexists. split; [|reflexivity]. reflexivity.
  - (* a burst arrives *)
    rewrite (Hsome ltac:(discriminate)). cbn [orb].
    replace (readings burst ++ pre ++ t1 :: more)
      with (readings burst ++ (pre ++ t1 :: more)) by reflexivity.
    rewrite (bufferedPoll_read_reads (terminated (line0 :: arriving0)) t0 burst
               (pre ++ t1 :: more) quiet io (terminated backlogged) Hburst Hwin)
      by (unfold strlen in Hroom; lia).
    rewrite Hnul.
    destruct (bufferedPoll_read_quiet (last_reading t0 burst) t1 more
                (io ++ map Rx (terminated (line0 :: arriving0)))
                (terminated backlogged ++ terminated (line0 :: arriving0))
                (Z.of_nat (List.length (terminated backlogged))
                 + Z.of_nat (List.length (terminated (line0 :: arriving0))))
                Hover pre quiet Hquiet) as (clock' & quiet' & Hread & _).
    rewrite Hread. cbn [bind].
    exists (mkWorld clock' quiet'
              (io ++ map Rx (terminated (line0 :: arriving0)))).
    split; [reflexivity|].
    rewrite <- terminated_app.
    rewrite (bufferedPoll_events_dispatch run _ Hrun Hall)
      by (assumption || exact Hs0).
    reflexivity.
Qed.

Lemma idle_upcalls_leave_no_backlog : leaves_no_backlog idle_upcalls.
Proof.
  intros call s w s' w' H HL. unfold idle_upcalls in H.
  injection H as <- <-. exact HL.
Qed.

Lemma bufferedPoll_dispatches_every_line_once_witness :
  let s := set_backlog (terminated [chars "+UUSOCL: 3"]) 12 LARA_R6_listening in
  let arriving := [chars "+CREG: 5"; chars "RING"] in
  exists s' w',
    bufferedPoll idle_upcalls s
      (mkWorld (0 :: readings (repeat (0, 0) 16) ++ [1] ++ 9 :: [10])
               (map Some (terminated arriving) ++ [None; None]) [])
    = Ok (true, s', w')
    /\ _bufferedPollReentrant s' = false
    /\ _laraResponseBacklog s' = [].
Proof.
  intros s arriving.
  destruct (bufferedPoll_dispatches_every_line_once idle_upcalls
              [chars "+UUSOCL: 3"] arriving s 0 (repeat (0, 0) 16) [1] 9 [10]
              [None; None] [])
    as (w1 & Hw & Hrun).
  - exact idle_upcalls_leave_no_backlog.
  - repeat constructor; discriminate.
  - repeat constructor; discriminate.
  - reflexivity.
  - reflexivity.
  - reflexivity.
  - vm_compute. reflexivity.
  - reflexivity.
  - cbn. repeat split; reflexivity.
  - vm_compute. reflexivity.
  - repeat constructor.
  - rewrite Hrun.
    assert (Hd : forall w, dispatch idle_upcalls
                   ([chars "+UUSOCL: 3"] ++ arriving) false
                   (set_backlog [] 0 (set_bufferedPollReentrant true s)) w
                 = Ok (true,
                       set_backlog [] 0 (set_bufferedPollReentrant true s), w)).
    { intros w. vm_compute. reflexivity. }
    rewrite Hd. cbn [bind]. eexists. eexists. split; [reflexivity|].
    split; reflexivity.
Defined.

(** * The blocking [poll] *)

Lemma poll_read_bytes (polls : list (option ascii)) :
  forall (tail : list (option ascii)) (io : list IO) (laraRXBuffer : list ascii),
    Forall (fun c => c <> LF) (bytes_of polls) ->
    Z.of_nat (List.length laraRXBuffer)
    + Z.of_nat (List.length (bytes_of polls)) <= _RXBuffSize ->
    poll_read (polls ++ tail) io laraRXBuffer
      (Z.of_nat (List.length laraRXBuffer))
    = poll_read tail (io ++ map Rx (bytes_of polls))
        (laraRXBuffer ++ bytes_of polls)
        (Z.of_nat (List.length laraRXBuffer)
         + Z.of_nat (List.length (bytes_of polls))).
Proof.
  induction polls as [|[c|] polls IH]; intros tail io buf Hno Hroom.
  - cbn [bytes_of map app List.length]. rewrite !app_nil_r, Z.add_0_r.
    reflexivity.
  - cbn [bytes_of map app List.length poll_read] in *.
    inversion Hno as [|? ? Hc Hno']; subst.
    assert (Hlt : (Z.of_nat (List.length buf) <? _RXBuffSize) = true)
      by (apply Z.ltb_lt; lia).
    rewrite Hlt.
    assert (Hneq : Ascii.eqb c LF = false) by (apply Ascii.eqb_neq; exact Hc).
    rewrite Hneq, store_at_end.
    replace (Z.of_nat (List.length buf) + 1)
      with (Z.of_nat (List.length (buf ++ [c])))
      by (rewrite length_app; cbn [List.length]; lia).
    rewrite IH; [|exact Hno'|rewrite length_app; cbn [List.length]; lia].
    rewrite <- !app_assoc. cbn [app]. rewrite length_app. cbn [List.length].
    f_equal. lia.
  - cbn [bytes_of app poll_read] in *. apply IH; assumption.
Qed.

(** X12.  Once a byte waits on the port, [poll] reads up to the first LF,
    however many polls find the port idle in between and whatever the
    clock says, and hands the bytes read, the LF included, up to the first
    NUL among them, to [processURCEvent], once; what follows the LF stays
    on the port.  The line and its LF must leave room for the NUL in
    [_laraRXBuffer]. *)
Theorem poll_takes_the_line_up_to_LF :
  forall run (s : LARA_R6) (time : list Z) (c0 : ascii)
         (polls rest : list (option ascii)) (io : list IO),
    let line := bytes_of (Some c0 :: polls) in
    Forall (fun c => c <> LF) line ->
    strlen line + 1 < _RXBuffSize ->
    poll run false s (mkWorld time (Some c0 :: polls ++ Some LF :: rest) io)
    = Returns (processURCEvent run (c_str (line ++ [LF])) s
                 (mkWorld time rest (io ++ map Rx (line ++ [LF])))).
Proof.
  intros run s time c0 polls rest io line Hno Hroom.
  unfold poll. cbn [uart wire clock hwAvailable].
  pose proof (poll_read_bytes (Some c0 :: polls) (Some LF :: rest) io [] Hno)
    as Hread.
  cbn [List.length Z.of_nat app] in Hread. fold line in Hread.
  rewrite !Z.add_0_l in Hread.
  rewrite Hread by (unfold strlen in Hroom; lia).
  cbn [poll_read].
  assert (Hlt : (Z.of_nat (List.length line) <? _RXBuffSize) = true)
    by (apply Z.ltb_lt; unfold strlen in Hroom; lia).
  rewrite Hlt.
  change (Ascii.eqb LF LF) with true. cbv iota.
  rewrite store_at_end.
  assert (Hlt1 : (Z.of_nat (List.length line) + 1 <? _RXBuffSize) = true)
    by (apply Z.ltb_lt; unfold strlen in Hroom; lia).
  rewrite Hlt1. cbn [orb].
  rewrite map_app, app_assoc. reflexivity.
Qed.

Lemma poll_takes_the_line_up_to_LF_witness :
  poll idle_upcalls false LARA_R6_listening
    (mkWorld []
       (Some "+"%char
        :: (None :: map Some (chars "UUSOCL: 3") ++ [None; Some CR])
        ++ Some LF :: [Some "+"%char]) [])
  = Returns (Ok (true, LARA_R6_listening,
                 mkWorld [] [Some "+"%char]
                   (map Rx (chars "+UUSOCL: 3" ++ [CR; LF])))).
Proof.
  rewrite (poll_takes_the_line_up_to_LF idle_upcalls LARA_R6_listening []
             "+"%char (None :: map Some (chars "UUSOCL: 3") ++ [None; Some CR])
             [Some "+"%char] []).
  - vm_compute. reflexivity.
  - repeat constructor; discriminate.
  - vm_compute. reflexivity.
Defined.

(** X13.  [poll] has no timeout and no bound on what it reads: once a
    byte waits on the port, if no LF comes among the first [_RXBuffSize]
    bytes and the port then stays idle, it never returns; and if a byte
    more comes, it is stored past the end of [_laraRXBuffer]. *)
Theorem poll_without_LF_blocks_or_overruns :
  forall run (s : LARA_R6) (time : list Z) (c0 : ascii)
         (polls : list (option ascii)) (io : list IO),
    let line := bytes_of (Some c0 :: polls) in
    Forall (fun c => c <> LF) line ->
    strlen line <= _RXBuffSize ->
    poll run false s (mkWorld time (Some c0 :: polls) io) = WaitsForEver
    /\ (strlen line = _RXBuffSize ->
        forall (c : ascii) (rest : list (option ascii)),
          poll run false s
            (mkWorld time (Some c0 :: polls ++ Some c :: rest) io)
          = Returns (Stop (OutOfBounds _RXBuffSize))).
Proof.
  intros run s time c0 polls io line Hno Hroom.
  assert (Hread : forall tail,
            poll_read ((Some c0 :: polls) ++ tail) io [] 0
            = poll_read tail (io ++ map Rx line) line
                (Z.of_nat (List.length line))).
  { intros tail.
    pose proof (poll_read_bytes (Some c0 :: polls) tail io [] Hno) as H.
    cbn [List.length Z.of_nat app] in H. fold line in H.
    rewrite !Z.add_0_l in H.
    apply H. unfold strlen in Hroom. lia. }
  split.
  - unfold poll. cbn [uart wire clock hwAvailable].
    rewrite <- (app_nil_r (Some c0 :: polls)), Hread. reflexivity.
  - intros Hfull c rest. unfold poll. cbn [uart wire clock hwAvailable].
    change (Some c0 :: polls ++ Some c :: rest)
      with ((Some c0 :: polls) ++ Some c :: rest).
    rewrite Hread. cbn [poll_read]. unfold strlen in Hfull. rewrite Hfull.
    reflexivity.
Qed.

Lemma poll_without_LF_blocks_or_overruns_witness :
  poll idle_upcalls false LARA_R6_new
    (mkWorld [0; 1000; 100000] (Some "O"%char :: [Some "K"%char; None]) [])
  = WaitsForEver.
Proof.
  destruct (poll_without_LF_blocks_or_overruns idle_upcalls LARA_R6_new
              [0; 1000; 100000] "O"%char [Some "K"%char; None] [])
    as [H _].
  - repeat constructor; discriminate.
  - vm_compute. discriminate.
  - exact H.
Defined.

(** * [readDataUntil] *)

Lemma strchr_field (field : list ascii) (delimiter : ascii) (rest : list ascii) :
  Forall (fun c => c <> delimiter /\ c <> NUL) field ->
  strchr (field ++ delimiter :: rest) delimiter = Some (delimiter :: rest).
Proof.
  induction 1 as [|c field [Hd Hn] _ IH]; cbn [app strchr].
  - rewrite Ascii.eqb_refl. reflexivity.
  - apply Ascii.eqb_neq in Hd, Hn. rewrite Hd, Hn. exact IH.
Qed.

Lemma strchr_absent (s : list ascii) (delimiter : ascii) :
  delimiter <> NUL -> ~ In delimiter (c_str s) -> strchr s delimiter = None.
Proof.
  intros Hd. induction s as [|x s IH]; cbn [c_str strchr]; intros Hin.
  - apply Ascii.eqb_neq in Hd. rewrite Hd. reflexivity.
  - destruct (Ascii.eqb x NUL) eqn:Hx.
    + apply Ascii.eqb_eq in Hx. subst x.
      assert (H : Ascii.eqb NUL delimiter = false)
        by (apply Ascii.eqb_neq; congruence).
      rewrite H. reflexivity.
    + cbn [In] in Hin.
      assert (H : Ascii.eqb x delimiter = false)
        by (apply Ascii.eqb_neq; intros ->; apply Hin; now left).
      rewrite H. apply IH. intros Hin'. apply Hin. now right.
Qed.

Lemma c_str_app_NUL (l rest : list ascii) :
  Forall (fun c => c <> NUL) l -> c_str (l ++ NUL :: rest) = l.
Proof.
  induction 1 as [|c l Hc _ IH]; cbn [app c_str].
  - reflexivity.
  - apply Ascii.eqb_neq in Hc. rewrite Hc, IH. reflexivity.
Qed.

(** X14.  [readDataUntil] on a source that begins with a field free of
    the delimiter and of NUL, then the delimiter: it answers the memory
    from the delimiter on; a field shorter than [destSize] is left in
    [destination] as a string, whatever the array held; a field of
    [destSize] characters fills it and leaves no terminating NUL; a longer
    one is copied past its end.  With no delimiter in the source string it
    answers null and leaves [destination] alone. *)
Theorem readDataUntil_copies_the_field :
  forall (destination field rest : list ascii) (destSize : Z)
         (delimiter : ascii),
    Forall (fun c => c <> delimiter /\ c <> NUL) field ->
    0 <= destSize ->
    let source := field ++ delimiter :: rest in
    (strlen field < destSize ->
     exists destination',
       readDataUntil destination destSize source delimiter
       = Ok (Some (delimiter :: rest), destination')
       /\ c_str destination' = field)
    /\ (strlen field = destSize ->
        exists after,
          readDataUntil destination destSize source delimiter
          = Ok (Some (delimiter :: rest), field ++ after)
          /\ after = skipn (Z.to_nat destSize) destination)
    /\ (destSize < strlen field ->
        readDataUntil destination destSize source delimiter
        = Stop BufferOverrun)
    /\ (delimiter <> NUL ->
        readDataUntil destination destSize field delimiter
        = Ok (None, destination)).
Proof.
  intros destination field rest destSize delimiter Hfield Hsize source.
  assert (Hlen : strlen source - strlen (delimiter :: rest) = strlen field).
  { unfold source, strlen. rewrite length_app. lia. }
  assert (Hcopy : strlen field <= destSize ->
            readDataUntil destination destSize source delimiter
            = Ok (Some (delimiter :: rest),
                  field
                  ++ repeat NUL (Z.to_nat destSize - List.length field)
                  ++ skipn (Z.to_nat destSize) destination)).
  { intros Hle. unfold readDataUntil, source.
    rewrite (strchr_field field delimiter rest Hfield).
    fold source. rewrite Hlen.
    assert (Hfit : (strlen field <=? destSize) = true) by (apply Z.leb_le; lia).
    rewrite Hfit. do 2 f_equal.
    unfold memcpy, memset, pad, source, strlen in *.
    cbn [Z.to_nat firstn List.length Nat.sub repeat app Nat.add].
    rewrite Nat2Z.id, firstn_app, firstn_all, Nat.sub_diag, firstn_O, app_nil_r.
    rewrite length_app.
    replace (List.length field - (List.length field + _))%nat with 0%nat by lia.
    cbn [repeat]. rewrite app_nil_r. f_equal.
    rewrite skipn_app, repeat_length.
    replace (List.length field - Z.to_nat destSize)%nat with 0%nat by lia.
    cbn [skipn]. f_equal.
    assert (Hrep : forall n k, (k <= n)%nat ->
              skipn k (repeat NUL n) = repeat NUL (n - k)).
    { induction n as [|n IH]; intros [|k] Hk; cbn; try reflexivity; try lia.
      apply IH. lia. }
    apply Hrep. lia. }
  assert (Hnul : Forall (fun c => c <> NUL) field).
  { eapply Forall_impl; [|exact Hfield]. cbn. tauto. }
  split; [|split; [|split]].
  - intros Hlt. eexists. split; [apply Hcopy; lia|].
    unfold strlen in Hlt.
    destruct (Z.to_nat destSize - List.length field)%nat as [|n] eqn:Hn; [lia|].
    cbn [repeat app]. apply c_str_app_NUL. exact Hnul.
  - intros Heq. eexists. split; [|reflexivity].
    rewrite Hcopy by lia. unfold strlen in Heq.
    replace (Z.to_nat destSize - List.length field)%nat with 0%nat by lia.
    reflexivity.
  - intros Hgt. unfold readDataUntil, source.
    rewrite (strchr_field field delimiter rest Hfield).
    fold source. rewrite Hlen.
    assert (Hfit : (strlen field <=? destSize) = false)
      by (apply Z.leb_gt; lia).
    rewrite Hfit. reflexivity.
  - intros Hd. unfold readDataUntil.
    rewrite strchr_absent; [reflexivity|exact Hd|].
    rewrite (c_str_nul_free field Hnul).
    intros Hin. rewrite Forall_forall in Hfield.
    destruct (Hfield delimiter Hin) as [H _]. congruence.
Qed.

Lemma readDataUntil_copies_the_field_witness :
  exists destination',
    readDataUntil (chars "0123456789abcdef") 16 (chars "092725.00,A,4717.1")
      ","%char
    = Ok (Some (chars ",A,4717.1"), destination')
    /\ c_str destination' = chars "092725.00".
Proof.
  destruct (readDataUntil_copies_the_field (chars "0123456789abcdef")
              (chars "092725.00") (chars "A,4717.1") 16 ","%char)
    as [H _].
  - repeat constructor; discriminate.
  - lia.
  - apply H. vm_compute. reflexivity.
Defined.

(** * [socketOpen] and the socket table *)

Lemma mirror_frame (c : ascii) (s : LARA_R6) :
  _lastSocketProtocol (mirror c s) = _lastSocketProtocol s.
Proof.
  unfold mirror. destruct (_ <? _); reflexivity.
Qed.

Lemma fold_mirror_frame (bytes : list ascii) :
  forall s, _lastSocketProtocol (fold_left (fun s c => mirror c s) bytes s)
            = _lastSocketProtocol s.
Proof.
  induction bytes as [|c bytes IH]; intros s; [reflexivity|].
  cbn [fold_left]. rewrite IH. apply mirror_frame.
Qed.

Lemma sendCommandWithResponse_frame (command : list ascii)
    (expectedResponse responseDest : option (list ascii))
    (commandTimeout destSize : Z) (at_ : bool) (s : LARA_R6) (w : World)
    (r : LARA_R6_error_t) (dest' : option (list ascii)) (s' : LARA_R6)
    (w' : World) :
  sendCommandWithResponse command expectedResponse responseDest commandTimeout
    destSize at_ s w = Ok (r, dest', s', w') ->
  backlog_ok s ->
  _lastSocketProtocol s' = _lastSocketProtocol s.
Proof.
  intros H Hok. unfold sendCommandWithResponse, bind in H.
  destruct (sendCommand command at_ s w) as [[s1 w1]|] eqn:Hsend;
    [|discriminate].
  apply sendCommand_returns in Hsend; [|exact Hok].
  destruct Hsend as (drained & _ & Hs1 & _).
  apply sendCommandWithResponse_await_returns in H.
  destruct H as (reply & _ & Hs & _).
  rewrite Hs. destruct (pruneBacklog_frame (fold_left (fun s c => mirror c s)
                                              reply s1)) as [Ht _].
  rewrite Ht, fold_mirror_frame, Hs1. reflexivity.
Qed.

Lemma table_store_lookup (table : list Z) (i v : Z) :
  0 <= i < Z.of_nat (List.length table) ->
  nth (Z.to_nat i) (table_store table i v) 0 = v
  /\ List.length (table_store table i v) = List.length table
  /\ forall j, j <> Z.to_nat i ->
       nth j (table_store table i v) 0 = nth j table 0.
Proof.
  intros Hi. unfold table_store.
  assert (Hlen : List.length (firstn (Z.to_nat i) table) = Z.to_nat i)
    by (rewrite length_firstn; lia).
  split; [|split].
  - rewrite app_nth2 by lia. rewrite Hlen, Nat.sub_diag. reflexivity.
  - rewrite length_app. cbn [List.length]. rewrite Hlen, length_skipn. lia.
  - intros j Hj. destruct (Nat.lt_ge_cases j (Z.to_nat i)) as [Hlt | Hge].
    + rewrite app_nth1 by lia.
      rewrite <- (firstn_skipn (Z.to_nat i) table) at 2.
      rewrite app_nth1 by lia. reflexivity.
    + rewrite app_nth2 by lia. rewrite Hlen.
      destruct (j - Z.to_nat i)%nat as [|k] eqn:Hk; [lia|]. cbn [nth].
      rewrite <- (firstn_skipn (S (Z.to_nat i)) table) at 2.
      rewrite app_nth2 by (rewrite length_firstn; lia).
      rewrite length_firstn. f_equal. lia.
Qed.

(** What [processURCEvent] makes of a +UUSORD for a socket of the
    table. *)
Lemma read_socket_routed run (s : LARA_R6) (event searchPtr : list ascii)
    (socket length protocol : Z) (w : World) :
  after_urc event LARA_R6_READ_SOCKET_URC = Some searchPtr ->
  sscanf searchPtr fmt_d_d = (2, [V_int socket; V_int length]) ->
  lastSocketProtocol_at (_lastSocketProtocol s) socket = Ok protocol ->
  processURCEvent run event s w
  = ('(s', w') <-
       run (if protocol =? LARA_R6_UDP
            then parseSocketReadIndicationUDP socket length
            else parseSocketReadIndication socket length) s w ;;
     Ok (true, s', w')).
Proof.
  intros Hurc Hscan Htable. unfold processURCEvent.
  unfold decoders. cbn [first_return]. unfold decode_read_socket.
  rewrite Hurc, Hscan. cbn [Z.eqb Pos.eqb int_at nth_error].
  rewrite Htable. cbn [bind].
  destruct (protocol =? LARA_R6_UDP); reflexivity.
Qed.

(** X15.  Whenever [socketOpen] answers a socket of the table, one
    between 0 and 5, it has recorded the protocol there, the other
    entries of the table being as they were: from then on a +UUSORD for
    that socket goes to the UDP read helper if the socket was opened as
    UDP, and to the TCP one otherwise.  (For any other number in the
    reply the write goes outside the table: X16.) *)
Theorem socketOpen_records_the_protocol :
  forall run (protocol localPort : Z) (s : LARA_R6) (w : World)
         (sockId : Z) (s' : LARA_R6) (w' : World),
    socketOpen protocol localPort s w = Ok (sockId, s', w') ->
    0 <= sockId < LARA_R6_NUM_SOCKETS ->
    backlog_ok s ->
    List.length (_lastSocketProtocol s) = 6%nat ->
    lastSocketProtocol_at (_lastSocketProtocol s') sockId = Ok protocol
    /\ (forall j, j <> Z.to_nat sockId ->
          nth j (_lastSocketProtocol s') 0 = nth j (_lastSocketProtocol s) 0)
    /\ forall (event searchPtr : list ascii) (length : Z) (w0 : World),
         after_urc event LARA_R6_READ_SOCKET_URC = Some searchPtr ->
         sscanf searchPtr fmt_d_d = (2, [V_int sockId; V_int length]) ->
         processURCEvent run event s' w0
         = ('(s2, w2) <-
              run (if protocol =? LARA_R6_UDP
                   then parseSocketReadIndicationUDP sockId length
                   else parseSocketReadIndication sockId length) s' w0 ;;
            Ok (true, s2, w2)).
Proof.
  intros run protocol localPort s w sockId s' w' H Hsock Hok Hlen.
  unfold socketOpen in H.
  destruct (strlen _ <? _); [|discriminate].
  unfold bind in H.
  destruct (sendCommandWithResponse _ _ _ _ _ _ _ _)
    as [[[[err response] s1] w1]|] eqn:Hsend; [|discriminate].
  pose proof (sendCommandWithResponse_frame _ _ _ _ _ _ _ _ _ _ _ _ Hsend Hok)
    as Hframe.
  assert (Hfail : Ok (-1, s1, w1) = Ok (sockId, s', w') -> False).
  { intros Heq. injection Heq as <- <- <-. lia. }
  destruct err; try (exfalso; apply Hfail; destruct response; exact H).
  destruct response as [response|]; [|discriminate].
  destruct (holds_a_string _ _); [|discriminate].
  destruct (after_urc _ _) as [responseStart|];
    [|exfalso; apply Hfail; exact H].
  destruct ((0 <=? _) && (_ <? LARA_R6_NUM_SOCKETS)) eqn:Hrange;
    [|discriminate].
  injection H as <- <- <-.
  apply andb_true_iff in Hrange as [H0 H1].
  apply Z.leb_le in H0. apply Z.ltb_lt in H1.
  set (sockId := int_at 0 (-1) _) in *.
  assert (Hin : 0 <= sockId < Z.of_nat (List.length (_lastSocketProtocol s1))).
  { rewrite Hframe, Hlen. unfold LARA_R6_NUM_SOCKETS in H1. lia. }
  destruct (table_store_lookup (_lastSocketProtocol s1) sockId protocol Hin)
    as (Hget & _ & Hother).
  assert (Htable : lastSocketProtocol_at
                     (table_store (_lastSocketProtocol s1) sockId protocol)
                     sockId = Ok protocol).
  { unfold lastSocketProtocol_at.
    assert (Hr : (0 <=? sockId) && (sockId <? LARA_R6_NUM_SOCKETS) = true).
    { apply andb_true_iff. split; [apply Z.leb_le | apply Z.ltb_lt]; lia. }
    rewrite Hr, Hget. reflexivity. }
  cbn [_lastSocketProtocol set_lastSocketProtocol].
  split; [exact Htable|]. split.
  - intros j Hj. rewrite Hother by exact Hj. rewrite Hframe. reflexivity.
  - intros event searchPtr length w0 Hurc Hscan.
    apply (read_socket_routed run _ event searchPtr sockId length protocol w0
             Hurc Hscan).
    exact Htable.
Qed.

Lemma socketOpen_records_the_protocol_witness :
  let reply := [CR; LF] ++ chars "+USOCR: 2" ++ [CR; LF; CR; LF] ++ chars "OK"
               ++ [CR; LF] in
  let w := mkWorld (0 :: 1 :: repeat 2 30) (None :: map Some reply) [] in
  backlog_ok LARA_R6_new
  /\ exists s' w',
       socketOpen LARA_R6_UDP 0 LARA_R6_new w = Ok (2, s', w')
       /\ lastSocketProtocol_at (_lastSocketProtocol s') 2 = Ok LARA_R6_UDP
       /\ processURCEvent idle_upcalls (chars "+UUSORD: 2,48") s'
            (mkWorld [] [] [])
          = ('(s2, w2) <-
               idle_upcalls (parseSocketReadIndicationUDP 2 48) s'
                 (mkWorld [] [] []) ;;
             Ok (true, s2, w2)).
Proof.
  intros reply w. split; [reflexivity|].
  evar (s' : LARA_R6). evar (w' : World).
  assert (Hrun : socketOpen LARA_R6_UDP 0 LARA_R6_new w = Ok (2, s', w'))
    by (vm_compute; reflexivity).
  exists s', w'. split; [exact Hrun|].
  destruct (socketOpen_records_the_protocol idle_upcalls LARA_R6_UDP 0
              LARA_R6_new w 2 s' w' Hrun ltac:(unfold LARA_R6_NUM_SOCKETS; lia)
              eq_refl eq_refl)
    as (Htable & _ & Hroute).
  split; [exact Htable|].
  apply (Hroute (chars "+UUSORD: 2,48") (chars "2,48") 48 (mkWorld [] [] []));
    vm_compute; reflexivity.
Defined.

(** * [socketOpen] on a reply without a socket number *)

Lemma sscanf_d_nothing (s : list ascii) :
  fst (sscanf s [C_d]) <= 0 -> int_at 0 (-1) (snd (sscanf s [C_d])) = -1.
Proof.
  unfold sscanf. cbn [sscanf_from].
  destruct (scan_one C_d s); cbn [sscanf_from fst snd app List.length];
    intros H; try reflexivity.
  cbn in H. lia.
Qed.

(** X16.  A socket is opened on a quiet port with no local port, and the
    reply, shorter than the 128 bytes of the response array, ends with OK
    and holds the text +USOCR:.  Then [socketOpen] writes the protocol to
    [_lastSocketProtocol] at the index [sscanf] read after that text, and
    answers it, if it is between 0 and 5; any other index is a write
    outside the table.  Where no number follows the text the index is the
    -1 that [sockId] started with. *)
Theorem socketOpen_trusts_the_reply :
  forall (protocol : Z) (s : LARA_R6) (t0 t1 : Z) (ticks rest : list Z)
         (before : list ascii) (c : ascii) (more : list (option ascii))
         (io : list IO) (responseStart : list ascii),
    let reply := before ++ [c] in
    let sockId := int_at 0 (-1) (snd (sscanf responseStart [C_d])) in
    protocol = LARA_R6_TCP \/ protocol = LARA_R6_UDP ->
    (forall k, (k <= List.length before)%nat ->
       ends_with LARA_R6_RESPONSE_OK (firstn k before) = false
       /\ ends_with LARA_R6_RESPONSE_ERROR (firstn k before) = false) ->
    ends_with LARA_R6_RESPONSE_OK reply = true ->
    ends_with LARA_R6_RESPONSE_ERROR reply = false ->
    List.length ticks = List.length reply ->
    Forall (before_command_deadline t1 LARA_R6_STANDARD_RESPONSE_TIMEOUT)
           ticks ->
    strlen reply < minimumResponseAllocation ->
    Forall (fun c => c <> NUL) reply ->
    after_urc reply (chars "+USOCR:") = Some responseStart ->
    socketOpen protocol 0 s
      (mkWorld (t0 :: t1 :: ticks ++ rest) (None :: map Some reply ++ more) io)
    = (if (0 <=? sockId) && (sockId <? LARA_R6_NUM_SOCKETS)
       then
         let s1 := pruneBacklog (fold_left (fun s c => mirror c s) reply s) in
         Ok (sockId,
             set_lastSocketProtocol
               (table_store (_lastSocketProtocol s1) sockId protocol) s1,
             mkWorld rest more
               (io ++ map Tx (chars "AT+USOCR=" ++ sprintf_d protocol
                              ++ [CR; LF])
                ++ map Rx reply))
       else Stop (OutOfBounds sockId))
    /\ (fst (sscanf responseStart [C_d]) <= 0 -> sockId = -1).
Proof.
  intros protocol s t0 t1 ticks rest before c more io responseStart reply
    sockId Hproto Hq Hok Herr Hlen Hticks Hshort Hnul Hurc.
  split; [|apply sscanf_d_nothing].
  unfold socketOpen.
  assert (Hfits : (strlen (socketOpen_command protocol 0)
                   <? strlen LARA_R6_CREATE_SOCKET + 10) = true).
  { destruct Hproto as [-> | ->]; vm_compute; reflexivity. }
  rewrite Hfits.
  pose proof (sendCommandWithResponse_transaction
                (socketOpen_command protocol 0) None (Some [])
                LARA_R6_STANDARD_RESPONSE_TIMEOUT minimumResponseAllocation
                true s t0 t1 ticks rest before c more io) as Hrun.
  cbv zeta in Hrun. cbn [expected fst snd] in Hrun. fold reply in Hrun.
  rewrite Hrun; clear Hrun.
  2:{ intros t Ht. discriminate Ht. }
  2:{ exact Hq. }
  2:{ rewrite Hok. reflexivity. }
  2:{ exact Hlen. }
  2:{ exact Hticks. }
  rewrite Herr. cbn [bind option_map skipn].
  assert (Hall : firstn (Z.to_nat minimumResponseAllocation) reply = reply).
  { apply firstn_all2. unfold strlen in Hshort. lia. }
  rewrite Hall, skipn_nil, app_nil_r.
  assert (Hstr : holds_a_string minimumResponseAllocation reply = true).
  { unfold holds_a_string. apply orb_true_iff. left. apply Z.ltb_lt.
    exact Hshort. }
  rewrite Hstr, (c_str_nul_free reply Hnul), Hurc. fold sockId.
  destruct ((0 <=? sockId) && (sockId <? LARA_R6_NUM_SOCKETS));
    [|reflexivity].
  reflexivity.
Qed.

Lemma socketOpen_trusts_the_reply_witness :
  let before := [CR; LF] ++ chars "+USOCR: " ++ [CR; LF; CR; LF] ++ chars "OK"
                ++ [CR] in
  socketOpen LARA_R6_TCP 0 LARA_R6_new
    (mkWorld (0 :: 1 :: repeat 2 18 ++ [9])
       (None :: map Some (before ++ [LF]) ++ []) [])
  = Stop (OutOfBounds (-1)).
Proof.
  intros before.
  destruct (socketOpen_trusts_the_reply LARA_R6_TCP LARA_R6_new 0 1
              (repeat 2 18) [9] before LF [] []
              ([CR; LF; CR; LF] ++ chars "OK" ++ [CR; LF]))
    as [Hrun Hminus].
  - left. reflexivity.
  - intros k Hk.
    do 18 (destruct k as [|k]; [split; reflexivity|]).
    simpl in Hk. lia.
  - reflexivity.
  - reflexivity.
  - reflexivity.
  - repeat constructor.
  - vm_compute. reflexivity.
  - repeat constructor; discriminate.
  - reflexivity.
  - rewrite Hrun. rewrite Hminus by (vm_compute; discriminate). reflexivity.
Defined.

(** * The receive window across the rollover of [millis()] *)

Lemma elapsed_wraps (since now : Z) :
  since <= now < since + 2 ^ 32 ->
  wrap32 (wrap32 now - wrap32 since) = now - since.
Proof.
  intros H. unfold wrap32.
  rewrite Zminus_mod_idemp_l, Zminus_mod_idemp_r.
  apply Z.mod_small. lia.
Qed.

(** X17.  The window of [sendCommand] and of [bufferedPoll] is measured
    as time elapsed since the last byte, in [unsigned long] arithmetic: it
    is right across the rollover of [millis()].  For instants less than
    [2^32] ms apart, the loops stop at a reading two or more milliseconds
    after the last byte, without touching the port, and go on at a reading
    less than two after it. *)
Theorem receive_window_is_rollover_safe :
  forall (since now : Z) (clock : list Z) (uart : list (option ascii))
         (io : list IO) (laraRXBuffer : list ascii) (avail : Z) (s : LARA_R6),
    since <= now < since + 2 ^ 32 ->
    (window_over since now <-> _rxWindowMillis <= now - since)
    /\ (_rxWindowMillis <= now - since ->
        bufferedPoll_read (wrap32 since) (now :: clock) uart io laraRXBuffer
          avail
        = Ok (laraRXBuffer, avail, mkWorld clock uart io)
        /\ sendCommand_drain (wrap32 since) (now :: clock) uart io s
           = Ok (s, mkWorld clock uart io))
    /\ (now - since < _rxWindowMillis ->
        (avail < _RXBuffSize ->
         bufferedPoll_read (wrap32 since) (now :: clock) (None :: uart) io
           laraRXBuffer avail
         = bufferedPoll_read (wrap32 since) clock uart io laraRXBuffer avail)
        /\ (_laraResponseBacklogLength s < _RXBuffSize ->
            sendCommand_drain (wrap32 since) (now :: clock) (None :: uart) io s
            = sendCommand_drain (wrap32 since) clock uart io s)).
Proof.
  intros since now clock uart io buf avail s H.
  pose proof (elapsed_wraps since now H) as He.
  split; [|split].
  - unfold window_over. rewrite He. apply Z.ltb_ge.
  - intros Hlate.
    assert (Hw : (wrap32 (wrap32 now - wrap32 since) <? _rxWindowMillis)
                 = false) by (rewrite He; apply Z.ltb_ge; exact Hlate).
    split; cbn [bufferedPoll_read sendCommand_drain]; rewrite Hw; reflexivity.
  - intros Hearly.
    assert (Hw : (wrap32 (wrap32 now - wrap32 since) <? _rxWindowMillis)
                 = true) by (rewrite He; apply Z.ltb_lt; exact Hearly).
    split; intros Hroom; apply Z.ltb_lt in Hroom;
      cbn [bufferedPoll_read sendCommand_drain hwAvailable];
      rewrite Hw, Hroom; reflexivity.
Qed.

Lemma receive_window_is_rollover_safe_witness :
  window_over 4294967295 4294967297
  /\ bufferedPoll_read (wrap32 4294967295) [4294967297; 4294967298]
       [Some "+"%char] [] [] 0
     = Ok ([], 0, mkWorld [4294967298] [Some "+"%char] []).
Proof.
  destruct (receive_window_is_rollover_safe 4294967295 4294967297
              [4294967298] [Some "+"%char] [] [] 0 LARA_R6_new)
    as (Hover & Hlate & _).
  - lia.
  - split.
    + apply Hover. vm_compute. discriminate.
    + apply Hlate. vm_compute. discriminate.
Defined.

(** * The command array of [socketOpen] *)






(** * The verdict of [waitForResponse], by what arrived *)

Lemma waitForResponse_verdict (R E : list ascii) (timeout : Z) (s : LARA_R6)
    (w : World) (r : LARA_R6_error_t) (s' : LARA_R6) (w' : World) :
  waitForResponse R E timeout s w = Ok (r, s', w') ->
  exists bytes,
    wire w' = wire w ++ map Rx bytes
    /\ let m := feed (waitForResponse_scan R E) bytes scan_init in
       r = if found m
           then if error m then LARA_R6_ERROR_ERROR else LARA_R6_ERROR_SUCCESS
           else LARA_R6_ERROR_NO_RESPONSE.
Proof.
  unfold waitForResponse. destruct (clock w) as [|t0 clock1]; [discriminate|].
  intros H. unfold bind in H.
  destruct (waitForResponse_loop _ _ _ _ _ _ _ _) as [[[m s1] w1]|] eqn:Hloop;
    [|discriminate].
  apply waitForResponse_loop_returns in Hloop.
  destruct Hloop as (bytes & H1 & H2 & _). exists bytes.
  split; [|cbv zeta; rewrite <- H2];
    destruct (found m); injection H as <- <- <-; auto.
Qed.

(** X19.  Whatever [waitForResponse] answers, it goes by what arrived:
    for restart-safe patterns, it answers
    [LARA_R6_ERROR_NO_RESPONSE] exactly when neither the expected response
    nor the expected error occurs in the bytes it read, whether or not it
    read any; success implies that the expected response occurs in them,
    and [LARA_R6_ERROR_ERROR] that the expected error does.  It gives no
    other answer. *)
Theorem waitForResponse_answers_by_what_arrived :
  forall (expectedResponse expectedError : list ascii) (timeout : Z)
         (s : LARA_R6) (w : World)
         (r : LARA_R6_error_t) (s' : LARA_R6) (w' : World),
    waitForResponse expectedResponse expectedError timeout s w
    = Ok (r, s', w') ->
    restart_safe expectedResponse = true ->
    restart_safe expectedError = true ->
    exists bytes,
      wire w' = wire w ++ map Rx bytes
      /\ (r = LARA_R6_ERROR_SUCCESS \/ r = LARA_R6_ERROR_ERROR
          \/ r = LARA_R6_ERROR_NO_RESPONSE)
      /\ (r = LARA_R6_ERROR_NO_RESPONSE <->
          ~ arrives expectedResponse bytes /\ ~ arrives expectedError bytes)
      /\ (r = LARA_R6_ERROR_SUCCESS -> arrives expectedResponse bytes)
      /\ (r = LARA_R6_ERROR_ERROR -> arrives expectedError bytes).
Proof.
  intros R E timeout s w r s' w' H HR HE.
  apply waitForResponse_verdict in H. destruct H as (bytes & Hw & Hr).
  exists bytes. split; [exact Hw|]. cbv zeta in Hr.
  destruct (verdict_by_arrival R E _ bytes HR HE (or_introl eq_refl))
    as (Hfound & Hsuccess & Herror).
  set (m := feed _ bytes scan_init) in *.
  destruct (found m) eqn:Hf; [destruct (error m) eqn:He|]; subst r.
  - split; [auto|]. split; [split|split].
    + discriminate.
    + intros [Hn1 Hn2]. exfalso. apply Hn2, Herror. reflexivity.
    + discriminate.
    + intros _. apply Herror. reflexivity.
  - split; [auto|]. split; [split|split].
    + discriminate.
    + intros [Hn1 Hn2]. exfalso. apply Hn1, Hsuccess; reflexivity.
    + intros _. apply Hsuccess; reflexivity.
    + discriminate.
  - split; [auto|]. split; [split|split].
    + intros _. split; intros Ha;
        (assert (false = true); [apply Hfound; auto | discriminate]).
    + reflexivity.
    + discriminate.
    + discriminate.
Qed.

Lemma waitForResponse_answers_by_what_arrived_witness :
  let w := mkWorld (repeat 0 12 ++ [2000])
             (map Some (chars "+CME ERROR: 4" ++ [CR; LF])) [] in
  exists s' w',
    waitForResponse LARA_R6_RESPONSE_MORE LARA_R6_RESPONSE_ERROR 1000
      LARA_R6_new w
    = Ok (LARA_R6_ERROR_NO_RESPONSE, s', w')
    /\ exists bytes,
         wire w' = map Rx bytes
         /\ ~ arrives LARA_R6_RESPONSE_MORE bytes
         /\ ~ arrives LARA_R6_RESPONSE_ERROR bytes.
Proof.
  intros w.
  evar (s' : LARA_R6). evar (w' : World).
  assert (Hrun : waitForResponse LARA_R6_RESPONSE_MORE LARA_R6_RESPONSE_ERROR
                   1000 LARA_R6_new w
                 = Ok (LARA_R6_ERROR_NO_RESPONSE, s', w'))
    by (vm_compute; reflexivity).
  exists s', w'. split; [exact Hrun|].
  destruct (waitForResponse_answers_by_what_arrived LARA_R6_RESPONSE_MORE
              LARA_R6_RESPONSE_ERROR 1000 LARA_R6_new w _ _ _ Hrun
              eq_refl eq_refl) as (bytes & Hw & _ & Hnone & _).
  exists bytes. split; [exact Hw|]. apply Hnone. reflexivity.
Defined.

(** * [sscanf] reads back what [sprintf] printed *)

Lemma digit_of_digit_char (d : Z) :
  0 <= d <= 9 -> digit_of (digit_char d) = Some d.
Proof.
  intros Hd. unfold digit_of, digit_char.
  rewrite nat_ascii_embedding by lia.
  assert (H1 : Nat.leb 48 (48 + Z.to_nat d) = true) by (apply Nat.leb_le; lia).
  assert (H2 : Nat.leb (48 + Z.to_nat d) 57 = true) by (apply Nat.leb_le; lia).
  rewrite H1, H2. cbn [andb]. f_equal. lia.
Qed.

Lemma numeral_value_app (a b : list ascii) (acc : Z) :
  numeral_value (a ++ b) acc = numeral_value b (numeral_value a acc).
Proof. unfold numeral_value. apply fold_left_app. Qed.

(** What [decimal] prints: digits, at least one, whose value is the
    number. *)
Lemma decimal_numeral (fuel : nat) :
  forall n acc,
    0 <= n < 10 ^ Z.of_nat (S fuel) ->
    exists ds,
      decimal (S fuel) n acc = ds ++ acc
      /\ ds <> []
      /\ Forall (fun c => digit_of c <> None) ds
      /\ numeral_value ds 0 = n.
Proof.
  induction fuel as [|fuel IH]; intros n acc Hn.
  - assert (Hq : n / 10 = 0) by (apply Z.div_small; cbn in Hn; lia).
    assert (Hmod : n mod 10 = n) by (apply Z.mod_small; cbn in Hn; lia).
    cbn [decimal]. rewrite Hq, Hmod. cbn [Z.eqb].
    pose proof (digit_of_digit_char n ltac:(cbn in Hn; lia)) as Hdig.
    exists [digit_char n].
    split; [reflexivity|]. split; [discriminate|]. split.
    + repeat constructor. congruence.
    + unfold numeral_value. cbn [fold_left]. rewrite Hdig. lia.
  - change (decimal (S (S fuel)) n acc)
      with (let acc' := digit_char (n mod 10) :: acc in
            if n / 10 =? 0 then acc' else decimal (S fuel) (n / 10) acc').
    cbv zeta.
    assert (Hmod : 0 <= n mod 10 <= 9)
      by (pose proof (Z.mod_pos_bound n 10 ltac:(lia)); lia).
    pose proof (digit_of_digit_char (n mod 10) Hmod) as Hdig.
    destruct (n / 10 =? 0) eqn:Hq.
    + apply Z.eqb_eq in Hq. exists [digit_char (n mod 10)].
      split; [reflexivity|]. split; [discriminate|]. split.
      * repeat constructor. congruence.
      * unfold numeral_value. cbn [fold_left]. rewrite Hdig.
        rewrite (Z.div_mod n 10) at 2 by lia. lia.
    + assert (Hq' : 0 <= n / 10 < 10 ^ Z.of_nat (S fuel)).
      { split; [apply Z.div_pos; lia|].
        apply Z.div_lt_upper_bound; [lia|].
        rewrite (Nat2Z.inj_succ (S fuel)), Z.pow_succ_r in Hn by lia. lia. }
      destruct (IH (n / 10) (digit_char (n mod 10) :: acc) Hq')
        as (ds & Hds & Hne & Hall & Hval).
      exists (ds ++ [digit_char (n mod 10)]).
      split; [rewrite Hds, <- app_assoc; reflexivity|].
      split; [destruct ds; discriminate|]. split.
      * apply Forall_app. split; [exact Hall|].
        repeat constructor. congruence.
      * rewrite numeral_value_app, Hval. unfold numeral_value.
        cbn [fold_left]. rewrite Hdig.
        rewrite (Z.div_mod n 10) at 3 by lia. lia.
Qed.

Lemma enough_fuel (n : Z) :
  0 <= n -> 0 <= n < 10 ^ Z.of_nat (S (Z.to_nat (Z.log2 n))).
Proof.
  intros Hn. split; [exact Hn|].
  destruct (Z.eq_dec n 0) as [->|Hnz]; [cbn; lia|].
  pose proof (Z.log2_spec n ltac:(lia)) as [_ Hlt].
  pose proof (Z.log2_nonneg n) as Hnn.
  rewrite Nat2Z.inj_succ, Z2Nat.id by lia.
  eapply Z.lt_le_trans; [exact Hlt|].
  apply Z.pow_le_mono_l. lia.
Qed.

(** [digits] takes a numeral whole when the width allows and no digit
    follows. *)
Lemma digits_numeral (ds : list ascii) :
  forall (rest : list ascii) (width : nat) (acc : Z) (n : nat),
    Forall (fun c => digit_of c <> None) ds ->
    no_digit_ahead rest ->
    (List.length ds <= width)%nat ->
    digits 10 digit_of width (ds ++ rest) acc n
    = (numeral_value ds acc, (n + List.length ds)%nat, rest).
Proof.
  induction ds as [|c ds IH]; intros rest width acc n Hall Hrest Hw.
  - cbn [app numeral_value fold_left List.length]. rewrite Nat.add_0_r.
    destruct width; [reflexivity|].
    destruct rest as [|r rest]; [reflexivity|].
    cbn [digits]. cbn in Hrest. rewrite Hrest. reflexivity.
  - inversion Hall as [|? ? Hc Hall']; subst.
    destruct width; [cbn in Hw; lia|]. cbn [app digits].
    destruct (digit_of c) as [d|] eqn:Hd; [|congruence].
    rewrite IH by (assumption || (cbn in Hw; lia)).
    unfold numeral_value. cbn [fold_left List.length]. rewrite Hd.
    f_equal. f_equal. lia.
Qed.

Lemma digit_not_space (c : ascii) :
  digit_of c <> None -> isspace c = false /\ Ascii.eqb c "-"%char = false
                        /\ Ascii.eqb c "+"%char = false.
Proof.
  unfold digit_of, isspace. intros H.
  destruct (Nat.leb 48 (nat_of_ascii c) && Nat.leb (nat_of_ascii c) 57) eqn:Hr;
    [|congruence].
  apply andb_true_iff in Hr as [H1 H2].
  apply Nat.leb_le in H1, H2.
  assert (Hneq : forall k, (k < 48)%nat -> Ascii.eqb c (ascii_of_nat k) = false).
  { intros k Hk. apply Ascii.eqb_neq. intros ->.
    rewrite nat_ascii_embedding in H1 by lia. lia. }
  split; [|split].
  - apply orb_false_iff. split.
    + apply Nat.eqb_neq. lia.
    + apply andb_false_iff. right. apply Nat.leb_gt. lia.
  - apply (Hneq 45%nat). lia.
  - apply (Hneq 43%nat). lia.
Qed.

(** Without the prefix of [%x], [scan_integer] is a sign and a run of
    digits. *)
Lemma scan_integer_decimal (width : nat) (s : list ascii) :
  scan_integer 10 digit_of false width s
  = match skip_spaces s with
    | [] => None
    | c :: s1 =>
        let '(negative, width1, s2) :=
          if Ascii.eqb c "-"%char then (true, pred width, s1)
          else if Ascii.eqb c "+"%char then (false, pred width, s1)
          else (false, width, c :: s1) in
        let '(v, n, rest) := digits 10 digit_of width1 s2 0 0 in
        if Nat.eqb n 0 then Some None
        else Some (Some (if negative then - v else v, rest))
    end.
Proof.
  unfold scan_integer. destruct (skip_spaces s) as [|c s1]; [reflexivity|].
  destruct (Ascii.eqb c "-"%char); [|destruct (Ascii.eqb c "+"%char)];
    destruct s1 as [|a [|b [|c' s']]]; reflexivity.
Qed.

(** The conversion [%d] on the print of an [int]. *)
Lemma scan_d_sprintf (n : Z) (rest : list ascii) :
  no_digit_ahead rest ->
  scan_one C_d (sprintf_d n ++ rest) = Assigned (V_int n) rest.
Proof.
  intros Hrest. cbn [scan_one]. rewrite scan_integer_decimal.
  unfold sprintf_d. destruct (n <? 0) eqn:Hneg.
  - apply Z.ltb_lt in Hneg.
    destruct (decimal_numeral _ (- n) [] (enough_fuel (- n) ltac:(lia)))
      as (ds & Hds & Hne & Hall & Hval).
    rewrite Hds, app_nil_r. cbn [app skip_spaces].
    change (isspace "-"%char) with false. cbv iota.
    rewrite Ascii.eqb_refl.
    rewrite digits_numeral
      by (assumption || (cbn [List.length pred]; rewrite length_app; lia)).
    rewrite Hval. cbn [Nat.add].
    destruct ds as [|d ds']; [congruence|]. cbn [List.length Nat.eqb].
    rewrite Z.opp_involutive. reflexivity.
  - apply Z.ltb_ge in Hneg.
    destruct (decimal_numeral _ n [] (enough_fuel n Hneg))
      as (ds & Hds & Hne & Hall & Hval).
    rewrite Hds, app_nil_r.
    destruct ds as [|d ds']; [congruence|].
    pose proof (Forall_inv Hall) as Hd. cbv beta in Hd.
    destruct (digit_not_space d Hd) as (Hsp & Hminus & Hplus).
    cbn [app skip_spaces]. rewrite Hsp, Hminus, Hplus.
    change (d :: ds' ++ rest) with ((d :: ds') ++ rest).
    rewrite digits_numeral by (assumption || (rewrite length_app; lia)).
    rewrite Hval. cbn [Nat.add List.length Nat.eqb]. reflexivity.
Qed.

Lemma sprintf_d_head (n : Z) :
  exists c tail, sprintf_d n = c :: tail /\ Ascii.eqb c " "%char = false.
Proof.
  unfold sprintf_d. destruct (n <? 0) eqn:Hneg.
  - eexists. eexists. split; reflexivity.
  - apply Z.ltb_ge in Hneg.
    destruct (decimal_numeral _ n [] (enough_fuel n Hneg))
      as (ds & Hds & Hne & Hall & _).
    rewrite Hds, app_nil_r. destruct ds as [|d ds']; [congruence|].
    exists d, ds'. split; [reflexivity|].
    inversion Hall as [|? ? Hd _]; subst.
    apply Ascii.eqb_neq. intros ->. apply Hd. reflexivity.
Qed.

(** * Events as the modem prints them *)

Lemma sprintf_d_chars (n : Z) :
  Forall (fun c => digit_of c <> None \/ c = "-"%char) (sprintf_d n).
Proof.
  unfold sprintf_d. destruct (n <? 0) eqn:Hneg.
  - apply Z.ltb_lt in Hneg.
    destruct (decimal_numeral _ (- n) [] (enough_fuel (- n) ltac:(lia)))
      as (ds & Hds & _ & Hall & _).
    rewrite Hds, app_nil_r. constructor; [now right|].
    eapply Forall_impl; [|exact Hall]. cbn. auto.
  - apply Z.ltb_ge in Hneg.
    destruct (decimal_numeral _ n [] (enough_fuel n Hneg))
      as (ds & Hds & _ & Hall & _).
    rewrite Hds, app_nil_r.
    eapply Forall_impl; [|exact Hall]. cbn. auto.
Qed.

Lemma sprintf_d_free_of (c : ascii) (n : Z) :
  digit_of c = None -> c <> "-"%char -> ~ In c (sprintf_d n).
Proof.
  intros Hd Hm Hin. pose proof (sprintf_d_chars n) as Hall.
  rewrite Forall_forall in Hall. destruct (Hall c Hin); congruence.
Qed.

Lemma strstr_absent_char (c : ascii) (needle haystack : list ascii) :
  ~ In c haystack -> strstr haystack (c :: needle) = None.
Proof.
  induction haystack as [|x haystack IH]; intros Hin; [reflexivity|].
  cbn [strstr starts_with].
  assert (Hx : Ascii.eqb c x = false).
  { apply Ascii.eqb_neq. intros ->. apply Hin. now left. }
  rewrite Hx. cbn [andb]. apply IH. intros H. apply Hin. now right.
Qed.

(** In an event that holds one plus sign, at its head, a URC text is
    found at the head or nowhere. *)
Lemma after_urc_elsewhere (body urc : list ascii) :
  ~ In "+"%char body ->
  starts_with ("+"%char :: urc) ("+"%char :: body) = false ->
  after_urc ("+"%char :: body) ("+"%char :: urc) = None.
Proof.
  intros Hin Hhead. unfold after_urc.
  change (strstr ("+"%char :: body) ("+"%char :: urc))
    with (if starts_with ("+"%char :: urc) ("+"%char :: body)
          then Some ("+"%char :: body)
          else strstr body ("+"%char :: urc)).
  rewrite Hhead, strstr_absent_char by exact Hin. reflexivity.
Qed.

Lemma skip_blanks_sprintf_d (n : Z) (rest : list ascii) :
  skip_blanks (" "%char :: sprintf_d n ++ rest) = sprintf_d n ++ rest.
Proof.
  destruct (sprintf_d_head n) as (c & tail & Hs & Hc). rewrite Hs.
  cbn [skip_blanks app]. change (Ascii.eqb " "%char " "%char) with true.
  cbv iota. rewrite Hc. reflexivity.
Qed.

Lemma not_in_app (A : Type) (x : A) (a b : list A) :
  ~ In x a -> ~ In x b -> ~ In x (a ++ b).
Proof. intros Ha Hb H. apply in_app_or in H. tauto. Qed.

Lemma scan_lit (c : ascii) (rest : list ascii) :
  scan_one (C_lit c) (c :: rest) = Literal rest.
Proof. cbn [scan_one]. rewrite Ascii.eqb_refl. reflexivity. Qed.

Lemma ends_the_event_comma (rest : list ascii) :
  no_digit_ahead (","%char :: rest).
Proof. reflexivity. Qed.

(** X20.  On a +UUSORD as the modem prints it, with any socket and
    length that an [int] holds, [processURCEvent] looks the socket up in
    [_lastSocketProtocol] before any test of the index: for a socket
    between 0 and 5 it calls the UDP read helper if the table marks the
    socket UDP and the TCP one if not, with the socket and the length of
    the event; for every other socket it reads outside the table. *)
Theorem read_socket_event_indexes_the_table :
  forall run (s : LARA_R6) (w : World) (socket length : Z)
         (tail : list ascii),
    is_int socket -> is_int length ->
    no_digit_ahead tail ->
    processURCEvent run (read_socket_event socket length ++ tail) s w
    = if (0 <=? socket) && (socket <? LARA_R6_NUM_SOCKETS)
      then
        '(s', w') <-
          run (if nth (Z.to_nat socket) (_lastSocketProtocol s) 0
                  =? LARA_R6_UDP
               then parseSocketReadIndicationUDP socket length
               else parseSocketReadIndication socket length) s w ;;
        Ok (true, s', w')
      else Stop (OutOfBounds socket).
Proof.
  intros run s w socket length tail _ _ Htail.
  unfold processURCEvent, decoders. cbn [first_return].
  unfold decode_read_socket, read_socket_event.
  assert (Hurc : after_urc
                   ((LARA_R6_READ_SOCKET_URC ++ chars " " ++ sprintf_d socket
                     ++ chars "," ++ sprintf_d length) ++ tail)
                   LARA_R6_READ_SOCKET_URC
                 = Some (sprintf_d socket
                         ++ ","%char :: sprintf_d length ++ tail)).
  { rewrite <- !app_assoc. unfold after_urc.
    cbn [LARA_R6_READ_SOCKET_URC chars list_ascii_of_string app strstr
         starts_with Ascii.eqb Bool.eqb andb List.length skipn].
    rewrite skip_blanks_sprintf_d. reflexivity. }
  rewrite Hurc.
  assert (Hscan : sscanf (sprintf_d socket
                          ++ ","%char :: sprintf_d length ++ tail) fmt_d_d
                  = (2, [V_int socket; V_int length])).
  { unfold sscanf, fmt_d_d. cbn [sscanf_from].
    rewrite (scan_d_sprintf socket _ (ends_the_event_comma _)).
    rewrite scan_lit.
    rewrite (scan_d_sprintf length tail Htail). reflexivity. }
  rewrite Hscan. cbn [Z.eqb Pos.eqb int_at nth_error app].
  unfold lastSocketProtocol_at.
  destruct ((0 <=? socket) && (socket <? LARA_R6_NUM_SOCKETS));
    [|reflexivity].
  cbn [bind]. destruct (_ =? LARA_R6_UDP); reflexivity.
Qed.

Lemma read_socket_event_indexes_the_table_witness :
  is_int 6 /\ is_int 1024
  /\ processURCEvent idle_upcalls (read_socket_event 6 1024 ++ [CR; LF])
       LARA_R6_listening (mkWorld [] [] [])
     = Stop (OutOfBounds 6).
Proof.
  assert (H6 : is_int 6) by (unfold is_int; lia).
  assert (H1024 : is_int 1024) by (unfold is_int; lia).
  split; [exact H6|]. split; [exact H1024|].
  rewrite (read_socket_event_indexes_the_table idle_upcalls LARA_R6_listening
             (mkWorld [] [] []) 6 1024 [CR; LF] H6 H1024).
  - reflexivity.
  - reflexivity.
Defined.

(** The blocks before the one for [urc] fall through on an event that
    begins with [urc] and holds no other plus sign. *)
Ltac falls_through Hbody :=
  rewrite after_urc_elsewhere; [|exact Hbody|reflexivity].

(** X21.  On a +UUSOCL as the modem prints it, [processURCEvent] answers
    that the event was handled, whatever the socket: it calls the close
    callback, with that socket, when a callback is set and the socket is
    between 0 and 6, and calls nothing otherwise. *)
Theorem close_socket_event_is_always_handled :
  forall run (s : LARA_R6) (w : World) (socket : Z) (tail : list ascii),
    ends_the_event tail ->
    processURCEvent run (close_socket_event socket ++ tail) s w
    = if (0 <=? socket) && (socket <=? 6)
         && _socketCloseCallback (callbacks s)
      then '(s', w') <- run (socketCloseCallback socket) s w ;;
           Ok (true, s', w')
      else Ok (true, s, w).
Proof.
  intros run s w socket tail [Htail Hplus].
  assert (Hbody : ~ In "+"%char
                    (chars "UUSOCL: " ++ sprintf_d socket ++ tail)).
  { apply not_in_app; [|apply not_in_app; [|exact Hplus]].
    - cbn. intuition discriminate.
    - apply sprintf_d_free_of; [reflexivity | discriminate]. }
  assert (Hevent : close_socket_event socket ++ tail
                   = "+"%char
                     :: chars "UUSOCL: " ++ sprintf_d socket ++ tail).
  { unfold close_socket_event. rewrite <- !app_assoc. reflexivity. }
  rewrite Hevent.
  unfold processURCEvent, decoders. cbn [first_return].
  unfold decode_read_socket, decode_read_udp_socket, decode_listen_socket,
    decode_close_socket.
  change LARA_R6_READ_SOCKET_URC with ("+"%char :: chars "UUSORD:").
  change LARA_R6_READ_UDP_SOCKET_URC with ("+"%char :: chars "UUSORF:").
  change LARA_R6_LISTEN_SOCKET_URC with ("+"%char :: chars "UUSOLI:").
  do 3 falls_through Hbody.
  assert (Hurc : after_urc ("+"%char
                            :: chars "UUSOCL: " ++ sprintf_d socket ++ tail)
                   LARA_R6_CLOSE_SOCKET_URC
                 = Some (sprintf_d socket ++ tail)).
  { unfold after_urc.
    cbn [LARA_R6_CLOSE_SOCKET_URC chars list_ascii_of_string app strstr
         starts_with Ascii.eqb Bool.eqb andb List.length skipn].
    rewrite skip_blanks_sprintf_d. reflexivity. }
  rewrite Hurc.
  assert (Hscan : sscanf (sprintf_d socket ++ tail) [C_d]
                  = (1, [V_int socket])).
  { unfold sscanf. cbn [sscanf_from].
    rewrite (scan_d_sprintf socket tail Htail). reflexivity. }
  rewrite Hscan. cbn [Z.eqb Pos.eqb int_at nth_error bind].
  destruct ((0 <=? socket) && (socket <=? 6)
            && _socketCloseCallback (callbacks s)); reflexivity.
Qed.

Lemma close_socket_event_is_always_handled_witness :
  ends_the_event [CR; LF]
  /\ processURCEvent idle_upcalls (close_socket_event 7 ++ [CR; LF])
       LARA_R6_listening (mkWorld [] [] [])
     = Ok (true, LARA_R6_listening, mkWorld [] [] []).
Proof.
  assert (H : ends_the_event [CR; LF]).
  { split; [reflexivity|]. cbn. intuition discriminate. }
  split; [exact H|].
  rewrite (close_socket_event_is_always_handled idle_upcalls LARA_R6_listening
             (mkWorld [] [] []) 7 [CR; LF] H).
  reflexivity.
Defined.

Lemma span_none (stop : ascii) (l : list ascii) :
  ~ In stop l -> snd (span (Ascii.eqb stop) l) = [].
Proof.
  induction l as [|c l IH]; intros Hin; [reflexivity|]. cbn [span].
  assert (Hc : Ascii.eqb stop c = false).
  { apply Ascii.eqb_neq. intros ->. apply Hin. now left. }
  rewrite Hc. destruct (span (Ascii.eqb stop) l) as [a b] eqn:Hs.
  cbn [snd] in *. apply IH. intros H. apply Hin. now right.
Qed.

(** X22.  On a +UUPING that carries its two numbers and then no quoted
    host name, [processURCEvent] dereferences the null pointer that
    [strchr] answered for the quote. *)
Theorem ping_event_without_a_host_dereferences_null :
  forall run (s : LARA_R6) (w : World) (retry p_size : Z)
         (tail : list ascii),
    ends_the_event tail ->
    ~ In DQUOTE tail ->
    processURCEvent run (ping_event retry p_size ++ tail) s w
    = Stop NullPointer.
Proof.
  intros run s w retry p_size tail [Htail Hplus] Hquote.
  set (numbers := sprintf_d retry ++ ","%char :: sprintf_d p_size ++ tail).
  assert (Hbody : ~ In "+"%char (chars "UUPING: " ++ numbers)).
  { apply not_in_app; [cbn; intuition discriminate|].
    apply not_in_app;
      [apply sprintf_d_free_of; [reflexivity | discriminate]|].
    intros [H | H]; [discriminate H|]. revert H.
    apply not_in_app; [|exact Hplus].
    apply sprintf_d_free_of; [reflexivity | discriminate]. }
  assert (Hevent : ping_event retry p_size ++ tail
                   = "+"%char :: chars "UUPING: " ++ numbers).
  { unfold ping_event, numbers. rewrite <- !app_assoc. reflexivity. }
  rewrite Hevent.
  unfold processURCEvent, decoders. cbn [first_return].
  unfold decode_read_socket, decode_read_udp_socket, decode_listen_socket,
    decode_close_socket, decode_location, decode_sim_state,
    decode_http_command, decode_mqtt_command, decode_ftp_command, decode_ping.
  change LARA_R6_READ_SOCKET_URC with ("+"%char :: chars "UUSORD:").
  change LARA_R6_READ_UDP_SOCKET_URC with ("+"%char :: chars "UUSORF:").
  change LARA_R6_LISTEN_SOCKET_URC with ("+"%char :: chars "UUSOLI:").
  change LARA_R6_CLOSE_SOCKET_URC with ("+"%char :: chars "UUSOCL:").
  change LARA_R6_GNSS_REQUEST_LOCATION_URC with ("+"%char :: chars "UULOC:").
  change LARA_R6_SIM_STATE_URC with ("+"%char :: chars "UUSIMSTAT:").
  change LARA_R6_HTTP_COMMAND_URC with ("+"%char :: chars "UUHTTPCR:").
  change LARA_R6_MQTT_COMMAND_URC with ("+"%char :: chars "UUMQTTC:").
  change LARA_R6_FTP_COMMAND_URC with ("+"%char :: chars "UUFTPCR:").
  do 9 falls_through Hbody.
  assert (Hurc : after_urc ("+"%char :: chars "UUPING: " ++ numbers)
                   LARA_R6_PING_COMMAND_URC
                 = Some numbers).
  { unfold after_urc, numbers.
    cbn [LARA_R6_PING_COMMAND_URC chars list_ascii_of_string app strstr
         starts_with Ascii.eqb Bool.eqb andb List.length skipn].
    rewrite skip_blanks_sprintf_d. reflexivity. }
  rewrite Hurc.
  assert (Hscan : fst (sscanf numbers fmt_ping_head) = 2).
  { unfold sscanf, fmt_ping_head, numbers. cbn [sscanf_from].
    rewrite (scan_d_sprintf retry _ (ends_the_event_comma _)).
    rewrite scan_lit.
    rewrite (scan_d_sprintf p_size tail Htail).
    destruct tail as [|c tail']; [reflexivity|].
    cbn [scan_one]. destruct (Ascii.eqb ","%char c); reflexivity. }
  destruct (sscanf numbers fmt_ping_head) as [scanNum vs].
  cbn [fst] in Hscan. subst scanNum. cbn [Z.eqb Pos.eqb].
  assert (Hnoquote : ~ In DQUOTE (tl numbers)).
  { assert (Hall : ~ In DQUOTE numbers).
    { unfold numbers.
      apply not_in_app;
        [apply sprintf_d_free_of; [reflexivity | discriminate]|].
      intros [H | H]; [discriminate H|]. revert H.
      apply not_in_app; [|exact Hquote].
      apply sprintf_d_free_of; [reflexivity | discriminate]. }
    destruct numbers as [|c rest]; [exact Hall|].
    intros H. apply Hall. now right. }
  rewrite (span_none DQUOTE (tl numbers) Hnoquote). reflexivity.
Qed.

Lemma ping_event_without_a_host_dereferences_null_witness :
  ends_the_event [CR; LF]
  /\ processURCEvent idle_upcalls (ping_event 1 32 ++ [CR; LF])
       LARA_R6_listening (mkWorld [] [] [])
     = Stop NullPointer.
Proof.
  assert (H : ends_the_event [CR; LF]).
  { split; [reflexivity|]. cbn. intuition discriminate. }
  split; [exact H|].
  apply (ping_event_without_a_host_dereferences_null idle_upcalls
           LARA_R6_listening (mkWorld [] [] []) 1 32 [CR; LF] H).
  cbn. intuition discriminate.
Defined.

(** * The drain of [sendCommand] *)

(** The drain reads a burst, one byte at each pair of readings, to the end
    of the backlog. *)
Lemma sendCommand_drain_reads (bytes : list ascii) :
  forall (since : Z) (burst : list (Z * Z)) (rest : list Z)
         (uart : list (option ascii)) (io : list IO) (s : LARA_R6),
    List.length burst = List.length bytes ->
    within_window since burst ->
    backlog_ok s ->
    _laraResponseBacklogLength s + strlen bytes <= _RXBuffSize ->
    sendCommand_drain (wrap32 since) (readings burst ++ rest)
      (map Some bytes ++ uart) io s
    = sendCommand_drain (wrap32 (last_reading since burst)) rest uart
        (io ++ map Rx bytes)
        (set_backlog (_laraResponseBacklog s ++ map nul_to_zero bytes)
           (_laraResponseBacklogLength s + strlen bytes) s).
Proof.
  unfold strlen.
  induction bytes as [|c bytes IH];
    intros since burst rest uart io s Hlen Hwin Hok Hroom.
  - destruct burst; [|discriminate]. cbn [readings map app List.length].
    unfold last_reading. cbn [map last].
    rewrite app_nil_r, set_backlog_same. reflexivity.
  - destruct burst as [|[test restart] burst]; [discriminate|].
    cbn [readings map app List.length] in *. destruct Hwin as [Hopen Hwin].
    cbn [sendCommand_drain hwAvailable readChar]. rewrite Hopen.
    assert (Hlt : (_laraResponseBacklogLength s <? _RXBuffSize) = true)
      by (apply Z.ltb_lt; lia).
    rewrite Hlt. cbn [andb].
    pose proof Hok as HL. unfold backlog_ok in HL.
    set (s1 := set_backlog
                 (store (_laraResponseBacklog s) (_laraResponseBacklogLength s)
                        (nul_to_zero c))
                 (_laraResponseBacklogLength s + 1) s).
    assert (Hs1 : s1 = set_backlog (_laraResponseBacklog s ++ [nul_to_zero c])
                         (_laraResponseBacklogLength s + 1) s).
    { unfold s1. rewrite HL at 1. now rewrite store_at_end. }
    assert (Hok1 : backlog_ok s1).
    { rewrite Hs1. unfold backlog_ok. cbn. rewrite length_app, HL.
      cbn [List.length]. lia. }
    rewrite (IH restart burst rest uart (io ++ [Rx c]) s1);
      [|congruence|exact Hwin|exact Hok1|rewrite Hs1; cbn; lia].
    rewrite <- app_assoc. cbn [app].
    f_equal.
    + unfold last_reading. cbn [map snd]. rewrite last_cons. reflexivity.
    + rewrite Hs1. unfold set_backlog.
      cbn [_laraResponseBacklog _laraResponseBacklogLength _pruneBuffer
           _bufferedPollReentrant _lastSocketProtocol callbacks].
      rewrite <- app_assoc. cbn [app]. f_equal. lia.
Qed.

(** It then polls a quiet port for as long as the window is open. *)
Lemma sendCommand_drain_idles (since late : Z) (post : list Z)
    (uart : list (option ascii)) (io : list IO) (s : LARA_R6) :
  window_over since late ->
  _laraResponseBacklogLength s < _RXBuffSize ->
  forall idle : list Z,
    Forall (window_open since) idle ->
    sendCommand_drain (wrap32 since) (idle ++ late :: post)
      (repeat None (List.length idle) ++ uart) io s
    = Ok (s, mkWorld post uart io).
Proof.
  intros Hover Hroom. apply Z.ltb_lt in Hroom.
  induction 1 as [|t idle Ht _ IH].
  - cbn [app sendCommand_drain]. unfold window_over in Hover.
    rewrite Hover. reflexivity.
  - cbn [app List.length repeat sendCommand_drain hwAvailable].
    unfold window_open in Ht. rewrite Ht, Hroom. exact IH.
Qed.

(** It stops at a test that finds the window over or the backlog full. *)
Lemma sendCommand_drain_stops (since t : Z) (post : list Z)
    (uart : list (option ascii)) (io : list IO) (s : LARA_R6) :
  window_over since t \/ _RXBuffSize <= _laraResponseBacklogLength s ->
  sendCommand_drain (wrap32 since) (t :: post) uart io s
  = Ok (s, mkWorld post uart io).
Proof.
  intros H. cbn [sendCommand_drain].
  assert (Hc : (wrap32 (wrap32 t - wrap32 since) <? _rxWindowMillis)
               && (_laraResponseBacklogLength s <? _RXBuffSize) = false).
  { destruct H as [H | H].
    - unfold window_over in H. rewrite H. reflexivity.
    - apply Z.ltb_ge in H. rewrite H. apply andb_false_r. }
  rewrite Hc. reflexivity.
Qed.

Lemma sendCommand_writes (command : list ascii) (at_ : bool) (s : LARA_R6)
    (clock1 : list Z) (uart1 : list (option ascii)) (io : list IO) :
  (if at_
   then Ok (s, hwPrint [CR; LF]
                 (hwPrint command
                    (hwPrint LARA_R6_COMMAND_AT (mkWorld clock1 uart1 io))))
   else Ok (s, hwPrint command (mkWorld clock1 uart1 io)))
  = Ok (s, mkWorld clock1 uart1 (io ++ map Tx (command_line command at_))).
Proof.
  destruct at_; unfold hwPrint, command_line; cbn [clock uart wire];
    rewrite ?map_app, <- ?app_assoc; reflexivity.
Qed.

(** C9, amended.  What [sendCommand] does, by what the port and the clock
    hold.
    - Bytes wait, the backlog has room for them and for one more, and each
      is read at a test that finds the inactivity window open: they are
      all read, to the end of the backlog; the port is then polled for as
      long as the tests find the window open and nothing arrives; at the
      first test that finds the window over the drain ends, and only then
      the command is written, with [AT] before it and CR LF after it when
      the flag is set, alone when it is not.  Nothing is read after the
      write: what the port holds next is left there.
    - The drain is bounded: it stops at the first test that finds the
      window over or the backlog full, although a byte waits, and that
      byte is left on the port.
    - Nothing waits: nothing is read, and the command is written.
    - In every case [sendCommand] returns as soon as the clock shows the
      window over, and what it read, it read before it wrote. *)
Theorem sendCommand_drains_then_writes :
  (forall (command : list ascii) (at_ : bool) (s : LARA_R6) (t0 : Z)
          (burst : list (Z * Z)) (idle : list Z) (late : Z) (post : list Z)
          (waiting : list ascii) (rest : list (option ascii)) (io : list IO),
     waiting <> [] ->
     List.length burst = List.length waiting ->
     within_window t0 burst ->
     Forall (window_open (last_reading t0 burst)) idle ->
     window_over (last_reading t0 burst) late ->
     backlog_ok s ->
     _laraResponseBacklogLength s + strlen waiting < _RXBuffSize ->
     sendCommand command at_ s
       (mkWorld (t0 :: readings burst ++ idle ++ late :: post)
                (map Some waiting ++ repeat None (List.length idle) ++ rest)
                io)
     = Ok (set_backlog (_laraResponseBacklog s ++ map nul_to_zero waiting)
             (_laraResponseBacklogLength s + strlen waiting) s,
           mkWorld post rest
             (io ++ map Rx waiting ++ map Tx (command_line command at_))))
  /\ (forall (command : list ascii) (at_ : bool) (s : LARA_R6) (t0 : Z)
             (burst : list (Z * Z)) (t : Z) (post : list Z)
             (fits : list ascii) (c : ascii) (rest : list (option ascii))
             (io : list IO),
        List.length burst = List.length fits ->
        within_window t0 burst ->
        backlog_ok s ->
        _laraResponseBacklogLength s + strlen fits <= _RXBuffSize ->
        window_over (last_reading t0 burst) t
        \/ _laraResponseBacklogLength s + strlen fits = _RXBuffSize ->
        sendCommand command at_ s
          (mkWorld (t0 :: readings burst ++ t :: post)
                   (map Some fits ++ Some c :: rest) io)
        = Ok (set_backlog (_laraResponseBacklog s ++ map nul_to_zero fits)
                (_laraResponseBacklogLength s + strlen fits) s,
              mkWorld post (Some c :: rest)
                (io ++ map Rx fits ++ map Tx (command_line command at_))))
  /\ (forall (command : list ascii) (at_ : bool) (s : LARA_R6) (t0 : Z)
             (clock1 : list Z) (uart1 : list (option ascii)) (io : list IO),
        sendCommand command at_ s (mkWorld (t0 :: clock1) (None :: uart1) io)
        = Ok (s, mkWorld clock1 uart1
                   (io ++ map Tx (command_line command at_)))
        /\ sendCommand command at_ s (mkWorld (t0 :: clock1) [] io)
           = Ok (s, mkWorld clock1 []
                      (io ++ map Tx (command_line command at_))))
  /\ (forall (command : list ascii) (at_ : bool) (s : LARA_R6) (w : World)
             (t0 : Z) (pre : list Z) (t1 t2 : Z) (post : list Z),
        clock w = t0 :: pre ++ t1 :: t2 :: post ->
        Forall (fun t => window_over t t1) (t0 :: pre) ->
        window_over t1 t2 ->
        backlog_ok s ->
        exists s' w' drained,
          sendCommand command at_ s w = Ok (s', w')
          /\ wire w'
             = wire w ++ map Rx drained ++ map Tx (command_line command at_)
          /\ s' = set_backlog
                    (_laraResponseBacklog s ++ map nul_to_zero drained)
                    (_laraResponseBacklogLength s
                     + Z.of_nat (List.length drained)) s
          /\ _laraResponseBacklogLength s'
             <= Z.max (_laraResponseBacklogLength s) _RXBuffSize
          /\ (List.length post <= List.length (clock w'))%nat).
Proof.
  split; [|split; [|split]].
  - intros command at_ s t0 burst idle late post waiting rest io
      Hne Hlen Hwin Hidle Hover Hok Hroom.
    unfold sendCommand. cbn [clock uart wire].
    assert (Hav : hwAvailable (map Some waiting
                               ++ repeat None (List.length idle) ++ rest)
                  = (true, map Some waiting
                           ++ repeat None (List.length idle) ++ rest)).
    { destruct waiting; [congruence | reflexivity]. }
    rewrite Hav.
    rewrite (sendCommand_drain_reads waiting t0 burst (idle ++ late :: post)
               _ io s Hlen Hwin Hok) by lia.
    rewrite (sendCommand_drain_idles _ late post rest _ _ Hover)
      by (cbn; lia || exact Hidle).
    cbn [bind]. rewrite sendCommand_writes, <- app_assoc. reflexivity.
  - intros command at_ s t0 burst t post fits c rest io
      Hlen Hwin Hok Hroom Hstop.
    unfold sendCommand. cbn [clock uart wire].
    assert (Hav : hwAvailable (map Some fits ++ Some c :: rest)
                  = (true, map Some fits ++ Some c :: rest)).
    { destruct fits; reflexivity. }
    rewrite Hav.
    rewrite (sendCommand_drain_reads fits t0 burst (t :: post)
               _ io s Hlen Hwin Hok Hroom).
    rewrite sendCommand_drain_stops
      by (destruct Hstop as [H | H]; [left; exact H | right; cbn; lia]).
    cbn [bind]. rewrite sendCommand_writes, <- app_assoc. reflexivity.
  - intros command at_ s t0 clock1 uart1 io.
    unfold sendCommand. cbn [clock uart wire hwAvailable bind].
    rewrite !sendCommand_writes. split; reflexivity.
  - intros command at_ s w t0 pre t1 t2 post Hclock Hlate H12 Hok.
    exact (sendCommand_returns_at_a_late_reading command at_ s w t0 pre t1 t2
             post Hclock Hlate H12 Hok).
Qed.

Lemma sendCommand_drains_then_writes_witness :
  let burst := [(0, 0); (1, 1)] in
  let waiting := chars "+x" in
  within_window 0 burst
  /\ Forall (window_open (last_reading 0 burst)) [2; 2]
  /\ window_over (last_reading 0 burst) 9
  /\ backlog_ok LARA_R6_new
  /\ sendCommand (chars "+CSQ") true LARA_R6_new
       (mkWorld (0 :: readings burst ++ [2; 2] ++ 9 :: [12; 13])
                (map Some waiting ++ repeat None 2 ++ [Some "O"%char]) [])
     = Ok (set_backlog waiting 2 LARA_R6_new,
           mkWorld [12; 13] [Some "O"%char]
             (map Rx waiting ++ map Tx (chars "AT+CSQ" ++ [CR; LF]))).
Proof.
  intros burst waiting.
  assert (H1 : within_window 0 burst) by (cbn; auto).
  assert (H2 : Forall (window_open (last_reading 0 burst)) [2; 2])
    by (repeat constructor).
  assert (H3 : window_over (last_reading 0 burst) 9) by reflexivity.
  assert (H4 : backlog_ok LARA_R6_new) by reflexivity.
  split; [exact H1|]. split; [exact H2|]. split; [exact H3|].
  split; [exact H4|].
  apply (proj1 sendCommand_drains_then_writes (chars "+CSQ") true LARA_R6_new
           0 burst [2; 2] 9 [12; 13] waiting [Some "O"%char] []);
    try assumption.
  - discriminate.
  - reflexivity.
  - reflexivity.
Defined.

(** * A notification that arrives during a wait *)










